(** * Fleet manager of the Slurm plugin: a shallow embedding and its properties

    This development embeds [slurm_plugin/fleet_manager.py] in Rocq and proves
    properties of the instance record, the manager factory, the two request
    shapers, the fleet launch and the loop that reconciles instance metadata.

    Conventions of the embedding:
    - Python [int] is [Z]; Python [float] durations are exact rationals [Q]
      (so [0.3 * 2**n] is the rational [3/10 * 2^n], not its binary rounding);
    - a Python [dict] built by the code (a request payload) is an association
      list in insertion order, updated in place by [Dict.set];
    - a Python [dict] read by the code (configuration, raw responses) is a
      record whose fields are [option]s: [None] is an absent key;
    - the mapping from queue names to compute resources is a [gmap];
    - exceptions are values of [exn]; effectful code lives in the monad [M],
      which threads the counters of the external oracles and collects the
      chronological list of observable events (sleeps, remote calls, logs). *)

From Stdlib Require Import Ascii String ZArith QArith Lqa Lia.
From stdpp Require Import base option strings list gmap.

Local Open Scope Z_scope.
Local Open Scope string_scope.
Local Open Scope list_scope.

(** ** Python values of the request payloads *)

#[warnings="-register-all"]
Inductive value : Type :=
| VNone
| VBool (b : bool)
| VInt (n : Z)
| VStr (s : string)
| VList (l : list value)
| VDict (d : list (string * value)).

Abbreviation dict := (list (string * value)).

Module Dict.

(** [d.get(k)] *)
Fixpoint get (k : string) (d : dict) : option value :=
  match d with
  | [] => None
  | (k', v) :: d' => if String.eqb k k' then Some v else get k d'
  end.

(** [d[k] = v]: an existing key keeps its position, a new key goes last. *)
Fixpoint set (k : string) (v : value) (d : dict) : dict :=
  match d with
  | [] => [(k, v)]
  | (k', v') :: d' =>
      if String.eqb k k' then (k, v) :: d' else (k', v') :: set k v d'
  end.

(** [d.update(o)] and [{**d, **o}]: the entries of [o], in order, are set in [d]. *)
Definition update (d o : dict) : dict :=
  fold_left (fun acc kv => set (fst kv) (snd kv) acc) o d.

(** Truth value of a dict: non-empty. *)
Definition truthy (d : dict) : bool :=
  match d with [] => false | _ => true end.

End Dict.

(** A configured number (the [MaxPrice] of a compute resource).  The code
    observes it in two ways only: its truth value and [str(...)] of it. *)
Record py_number : Type := {
  number_truthy : bool;
  number_str : string
}.

(** [repr] of a string key, as it appears in [str(KeyError(key))]; keys here
    are plain identifiers, which Python quotes with single quotes. *)
Definition repr_str (s : string) : string := "'" +:+ s +:+ "'".

(** [s.split(".")[0]]: the part of [s] before its first dot. *)
Fixpoint before_first_dot (s : string) : string :=
  match s with
  | EmptyString => EmptyString
  | String c rest =>
      if Ascii.eqb c "."%char then EmptyString
      else String c (before_first_dot rest)
  end.

(** ** Raw data read by the code *)

(** Timestamps ([LaunchTime]) as seconds since the epoch. *)
Definition datetime : Type := Z.

(** One element of [Reservations[].Instances[]] of a describe-instances
    response, or of the [Instances] of a run-instances response. *)
Record instance_info : Type := {
  InstanceId : option string;
  PrivateIpAddress : option string;
  PrivateDnsName : option string;
  LaunchTime : option datetime
}.

(** [e.response] of a botocore [ClientError]: [ResponseMetadata] may be
    absent, and so may its [RequestId]. *)
Record error_response : Type := {
  ResponseMetadata : option (option string)
}.

Inductive exn : Type :=
| KeyError (key : string)
| TypeError
| AttributeError
| ClientError (response : error_response)
| ImportError
| FleetManagerException (message : string).

(** The compute resource configuration of a queue. *)
Record instance_type_config : Type := {
  InstanceType : option string
}.

Record networking_config : Type := {
  SubnetIds : option (list string)
}.

Record compute_resource_config : Type := {
  Api : option string;
  CapacityType : option string;
  AllocationStrategy : option string;
  MaxPrice : option py_number;
  Instances : option (list instance_type_config);
  Networking : option networking_config
}.

(** The response of a create-fleet call. *)
Record fleet_instance : Type := {
  InstanceIds : option (list string)
}.

Record fleet_error : Type := {
  ErrorCode : option string;
  ErrorMessage : option string
}.

Record create_fleet_response : Type := {
  fleet_Instances : option (list fleet_instance);
  fleet_Errors : option (list fleet_error);
  fleet_ResponseMetadata : option (option string)
}.

(** What the launch step hands back: a dict whose [Instances] key may be
    absent in a run-instances response. *)
Record assigned_nodes : Type := {
  nodes_Instances : option (list instance_info)
}.

(** The paginated describe-instances iterator is lazy: it yields the
    descriptions of the pages it could fetch and then either ends or raises. *)
Record describe_response : Type := {
  yielded : list instance_info;
  fault : option error_response
}.

(** ** Observable events *)

Inductive level : Type := DEBUG | INFO | WARNING | ERROR.

Inductive api_name : Type := RunInstancesApi | CreateFleetApi.

Inductive log_message : Type :=
| MsgUnableToRetrieveEC2InstanceInfo (e : exn)
| MsgText (message : string)
| MsgLaunchedInstances (ids : list string)
| MsgFullLaunchedInstancesInformation (instances : list instance_info)
| MsgFoundParametersOverride (api : api_name) (launch_params : dict)
| MsgFailedRequest (api : api_name) (request_id : option string)
| MsgAllOrNothingUnavailable
| MsgCreateFleetResponse (response : create_fleet_response)
| MsgErrorInCreateFleetRequest (request_id error_code error_message : option string)
| MsgUnableToRetrieveInstanceInfoFor (ids : list string)
| MsgUnableToRetrieveInstanceInfo (e : exn)
| MsgLaunchingInstances (api : api_name) (with_override : bool) (kwargs : dict).

Inductive event : Type :=
| Sleep (seconds : Q)
| DescribeInstances (ids : list string)
| CreateFleet (with_override : bool) (kwargs : dict)
| RunInstances (with_override : bool) (kwargs : dict)
| Log (lvl : level) (msg : log_message)
| LoggingFilterEnter (job_id : string)
| LoggingFilterExit.

(** ** The environment and the effect monad *)

(** The collaborators the module calls: the EC2 client, the optional
    [slurm_plugin.overrides] module and the entropy behind [secrets]. *)
Record Env : Type := {
  ec2_describe_instances : nat -> list string -> describe_response;
  ec2_create_fleet : dict -> exn + create_fleet_response;
  ec2_run_instances : dict -> exn + assigned_nodes;
  overrides_create_fleet : option (dict -> exn + create_fleet_response);
  overrides_run_instances : option (dict -> exn + assigned_nodes);
  entropy : nat -> Z
}.

(** How many describe calls and random draws were made so far. *)
Record World : Type := {
  describe_calls : nat;
  random_draws : nat
}.

Inductive result (A : Type) : Type :=
| Ok (a : A)
| Raised (e : exn).
Arguments Ok {A} a.
Arguments Raised {A} e.

Definition M (A : Type) : Type := World -> result A * World * list event.

#[global] Instance M_ret : MRet M := fun A a w => (Ok a, w, []).

#[global] Instance M_bind : MBind M := fun A B f m w =>
  match m w with
  | (Ok a, w1, t1) =>
      match f a w1 with
      | (r, w2, t2) => (r, w2, t1 ++ t2)
      end
  | (Raised e, w1, t1) => (Raised e, w1, t1)
  end.

Definition ret {A} (a : A) : M A := mret a.

Definition raise {A} (e : exn) : M A := fun w => (Raised e, w, []).

(** [try: m except ...: h e]; the handler sees every exception and re-raises
    the ones it does not handle. *)
Definition try_except {A} (m : M A) (h : exn -> M A) : M A :=
  fun w =>
    match m w with
    | (Ok a, w1, t1) => (Ok a, w1, t1)
    | (Raised e, w1, t1) =>
        match h e w1 with
        | (r, w2, t2) => (r, w2, t1 ++ t2)
        end
    end.

(** [with ...: m]: the exit action runs on every path out of the block. *)
Definition finally {A} (m : M A) (exit_events : list event) : M A :=
  fun w =>
    match m w with
    | (r, w1, t1) => (r, w1, t1 ++ exit_events)
    end.

Definition emit (e : event) : M unit := fun w => (Ok tt, w, [e]).

Definition log (lvl : level) (msg : log_message) : M unit := emit (Log lvl msg).

(** [time.sleep(seconds)] *)
Definition sleep (seconds : Q) : M unit := emit (Sleep seconds).

(** [d[key]] on a record field that may be absent. *)
Definition lookup_key {A} (key : string) (field : option A) : M A :=
  match field with
  | Some a => ret a
  | None => raise (KeyError key)
  end.

Definition lift {A} (r : exn + A) : M A :=
  match r with
  | inl e => raise e
  | inr a => ret a
  end.

(** [for x in xs: body(acc, x)], threading the loop's variables [acc]. *)
Fixpoint for_each {A S} (xs : list A) (body : S -> A -> M S) (acc : S) : M S :=
  match xs with
  | [] => ret acc
  | x :: xs' => acc' ← body acc x; for_each xs' body acc'
  end.

(** [[f(x) for x in xs]] *)
Fixpoint list_comprehension {A B} (f : A -> M B) (xs : list A) : M (list B) :=
  match xs with
  | [] => ret []
  | x :: xs' => y ← f x; ys ← list_comprehension f xs'; ret (y :: ys)
  end.

(** [secrets.randbelow(n)]: a fresh draw reduced to [[0, n)]. *)
Definition randbelow (env : Env) (n : Z) : M Z :=
  fun w =>
    (Ok (entropy env (random_draws w) mod n),
     {| describe_calls := describe_calls w; random_draws := S (random_draws w) |},
     []).

(** ** The instance record *)

Module EC2Instance.

(** The attributes set by [__init__]; [slurm_node] starts as [None] and is
    bound later by the callers to the scheduler node (here: its name). *)
Record t : Type := {
  id : string;
  private_ip : string;
  hostname : string;
  launch_time : datetime;
  slurm_node : option string
}.

(** [EC2Instance(id, private_ip, hostname, launch_time)] *)
Definition __init__ (id private_ip hostname : string) (launch_time : datetime) : t :=
  {| id := id; private_ip := private_ip; hostname := hostname;
     launch_time := launch_time; slurm_node := None |}.

Inductive attribute : Type :=
| AttrStr (s : string)
| AttrTime (d : datetime)
| AttrNode (n : option string).

#[global] Instance attribute_eq_dec : EqDecision attribute.
Proof. solve_decision. Defined.

(** [self.__dict__]: every attribute of the object, by name. *)
Definition __dict__ (self : t) : list (string * attribute) :=
  [("id", AttrStr (id self));
   ("private_ip", AttrStr (private_ip self));
   ("hostname", AttrStr (hostname self));
   ("launch_time", AttrTime (launch_time self));
   ("slurm_node", AttrNode (slurm_node self))].

(** The right operand of [==] is any Python object. *)
Inductive py_object : Type :=
| Instance (o : t)
| Other (v : value).

Definition __eq__ (self : t) (other : py_object) : bool :=
  match other with
  | Instance o => bool_decide (__dict__ self = __dict__ o)
  | Other _ => false
  end.

Definition __str__ (self : t) : string := id self.

Section Hash.
(** Python's built-in [hash] on strings. *)
Variable py_hash : string -> Z.

Definition __hash__ (self : t) : Z := py_hash (id self).
End Hash.

(** Modelled from the spec: [common.ec2_utils.get_private_ip_address_and_dns_name]
    is not part of the sources at hand; by its interface it extracts the
    private IP address and the private DNS name of a raw description and
    fails (with the lookup's [KeyError]) when one of them is absent. *)
Definition get_private_ip_address_and_dns_name (instance_info : instance_info)
  : M (string * string) :=
  private_ip ← lookup_key "PrivateIpAddress" (PrivateIpAddress instance_info);
  private_dns_name ← lookup_key "PrivateDnsName" (PrivateDnsName instance_info);
  ret (private_ip, private_dns_name).

Definition from_describe_instance_data (instance_info : instance_info) : M t :=
  try_except
    ('(private_ip, private_dns_name) ← get_private_ip_address_and_dns_name instance_info;
     instance_id ← lookup_key "InstanceId" (InstanceId instance_info);
     launch ← lookup_key "LaunchTime" (LaunchTime instance_info);
     ret (__init__ instance_id private_ip (before_first_dot private_dns_name) launch))
    (fun e =>
       match e with
       | KeyError _ => log ERROR (MsgUnableToRetrieveEC2InstanceInfo e) ;; raise e
       | _ => raise e
       end).

End EC2Instance.

(** ** Managers and their factory *)

Inductive manager_class : Type :=
| Ec2RunInstancesManager
| Ec2CreateFleetManager.

(** The state every manager holds (set by [FleetManager.__init__]). *)
Record FleetManager : Type := {
  class : manager_class;
  _cluster_name : string;
  _region : string;
  _boto3_config : string;
  _queue : string;
  _compute_resource : string;
  _compute_resource_config : compute_resource_config;
  _all_or_nothing : bool;
  _launch_overrides : dict
}.

Abbreviation fleet_config_t := (gmap string (gmap string compute_resource_config)).
Abbreviation overrides_t := (gmap string (gmap string dict)).

Module FleetManagerFactory.
Section GetManager.
(** [str(fleet_config)], which the error message embeds. *)
Variable str_fleet_config : fleet_config_t -> string.


End GetManager.
End FleetManagerFactory.

(** ** The launch calls, with their override hook *)

(** [from slurm_plugin.overrides import run_instances] raises [ImportError]
    when the environment provides no override; the [try] block also holds
    the call of the override, so that an [ImportError] raised by the
    override itself reaches the same handler, which calls the EC2 client. *)
Definition run_instances (env : Env) (region boto3_config : string)
    (run_instances_kwargs : dict) : M assigned_nodes :=
  try_except
    (override ← match overrides_run_instances env with
                | Some override => ret override
                | None => raise ImportError
                end;
     log INFO (MsgLaunchingInstances RunInstancesApi true run_instances_kwargs) ;;
     emit (RunInstances true run_instances_kwargs) ;;
     lift (override run_instances_kwargs))
    (fun e =>
       match e with
       | ImportError =>
           log INFO (MsgLaunchingInstances RunInstancesApi false run_instances_kwargs) ;;
           emit (RunInstances false run_instances_kwargs) ;;
           lift (ec2_run_instances env run_instances_kwargs)
       | _ => raise e
       end).

Definition create_fleet (env : Env) (region boto3_config : string)
    (create_fleet_kwargs : dict) : M create_fleet_response :=
  try_except
    (override ← match overrides_create_fleet env with
                | Some override => ret override
                | None => raise ImportError
                end;
     log INFO (MsgLaunchingInstances CreateFleetApi true create_fleet_kwargs) ;;
     emit (CreateFleet true create_fleet_kwargs) ;;
     lift (override create_fleet_kwargs))
    (fun e =>
       match e with
       | ImportError =>
           log INFO (MsgLaunchingInstances CreateFleetApi false create_fleet_kwargs) ;;
           emit (CreateFleet false create_fleet_kwargs) ;;
           lift (ec2_create_fleet env create_fleet_kwargs)
       | _ => raise e
       end).

(** The launch template of a compute resource:
    [f"{cluster_name}-{queue}-{compute_resource}"]. *)
Definition launch_template_name (self : FleetManager) : string :=
  _cluster_name self +:+ "-" +:+ _queue self +:+ "-" +:+ _compute_resource self.

(** [if cond: m] *)
Definition when (cond : bool) (m : M unit) : M unit :=
  if cond then m else ret tt.

(** Truth value of a list: non-empty. *)
Definition nonempty {A} (l : list A) : bool :=
  match l with [] => false | _ => true end.

(** ** Strategy A: run-instances *)

Module Ec2RunInstancesManager.

(** The dict literal the method starts from, before the caller's overrides. *)
Definition default_launch_params (self : FleetManager) (count : Z) : dict :=
  [("MinCount", VInt (if negb (_all_or_nothing self) then 1 else count));
   ("MaxCount", VInt count);
   ("LaunchTemplate",
    VDict [("LaunchTemplateName", VStr (launch_template_name self));
           ("Version", VStr "$Latest")])].

Definition _evaluate_launch_params (self : FleetManager) (count : Z) : M dict :=
  let launch_params := default_launch_params self count in
  let launch_params := Dict.update launch_params (_launch_overrides self) in
  when (Dict.truthy (_launch_overrides self))
       (log INFO (MsgFoundParametersOverride RunInstancesApi launch_params)) ;;
  ret launch_params.

Definition _launch_instances (env : Env) (self : FleetManager) (launch_params : dict)
  : M assigned_nodes :=
  try_except
    (run_instances env (_region self) (_boto3_config self) launch_params)
    (fun e =>
       match e with
       | ClientError response =>
           (* e.response.get("ResponseMetadata").get("RequestId") *)
           request_id ← match ResponseMetadata response with
                        | Some metadata => ret metadata
                        | None => raise AttributeError
                        end;
           log ERROR (MsgFailedRequest RunInstancesApi request_id) ;;
           raise e
       | _ => raise e
       end).

End Ec2RunInstancesManager.

(** ** Strategy B: create-fleet *)

Module Ec2CreateFleetManager.

(** The loop variables of [_evaluate_template_overrides]: the list being
    built and the dict [overrides], which every iteration updates in place
    and appends a deep copy of. *)
Definition _evaluate_template_overrides (self : FleetManager) : M (list value) :=
  let config := _compute_resource_config self in
  let template_overrides : list value := [] in
  let overrides : dict := [] in
  capacity_type ← lookup_key "CapacityType" (CapacityType config);
  let overrides :=
    if String.eqb capacity_type "spot" then
      match MaxPrice config with
      | Some max_price =>
          if number_truthy max_price
          then Dict.update overrides [("MaxPrice", VStr (number_str max_price))]
          else overrides
      | None => overrides
      end
    else overrides in
  instances ← lookup_key "Instances" (Instances config);
  '(template_overrides, _) ←
    for_each instances
      (fun '(template_overrides, overrides) instance_type =>
         networking ← lookup_key "Networking" (Networking config);
         subnet_ids ← lookup_key "SubnetIds" (SubnetIds networking);
         for_each subnet_ids
           (fun '(template_overrides, overrides) subnet_id =>
              instance_type_name ← lookup_key "InstanceType" (InstanceType instance_type);
              let overrides :=
                Dict.update overrides
                  [("InstanceType", VStr instance_type_name); ("SubnetId", VStr subnet_id)] in
              ret (template_overrides ++ [VDict overrides], overrides))
           (template_overrides, overrides))
      (template_overrides, overrides);
  ret template_overrides.

Definition _uses_single_instance_type (self : FleetManager) : M bool :=
  instances ← lookup_key "Instances" (Instances (_compute_resource_config self));
  ret (Nat.eqb (length instances) 1).

(** [.get("Networking", {}).get("SubnetIds", [])] never raises. *)
Definition _uses_single_az (self : FleetManager) : bool :=
  let subnet_ids :=
    default [] (default {| SubnetIds := None |} (Networking (_compute_resource_config self))).(SubnetIds) in
  Nat.eqb (length subnet_ids) 1.

(** The body of the [try] block: the payload before the caller's overrides. *)
Definition shape_launch_params (self : FleetManager) (count : Z) : M dict :=
  let config := _compute_resource_config self in
  allocation_strategy ← lookup_key "AllocationStrategy" (AllocationStrategy config);
  single_instance_type ← _uses_single_instance_type self;
  let common_launch_options : dict :=
    [("AllocationStrategy", VStr allocation_strategy);
     ("SingleInstanceType", VBool single_instance_type);
     ("SingleAvailabilityZone", VBool (_uses_single_az self))] in
  single ← (if _uses_single_az self then ret true else _uses_single_instance_type self);
  let common_launch_options :=
    if single : bool
    then Dict.update common_launch_options
           [("MinTargetCapacity", VInt (if _all_or_nothing self then count else 1))]
    else common_launch_options in
  multi ← (if negb (_uses_single_az self)
           then single_instance_type ← _uses_single_instance_type self;
                ret (negb single_instance_type && _all_or_nothing self)
           else ret false);
  when (multi : bool) (log WARNING MsgAllOrNothingUnavailable) ;;
  capacity_type ← lookup_key "CapacityType" (CapacityType config);
  let launch_options : dict :=
    if String.eqb capacity_type "spot"
    then [("SpotOptions", VDict common_launch_options)]
    else [("OnDemandOptions",
           VDict (Dict.update common_launch_options
                    [("CapacityReservationOptions",
                      VDict [("UsageStrategy", VStr "use-capacity-reservations-first")])]))] in
  template_overrides ← _evaluate_template_overrides self;
  default_target_capacity_type ← lookup_key "CapacityType" (CapacityType config);
  ret (Dict.update
         [("LaunchTemplateConfigs",
           VList [VDict [("LaunchTemplateSpecification",
                          VDict [("LaunchTemplateName", VStr (launch_template_name self));
                                 ("Version", VStr "$Latest")]);
                         ("Overrides", VList template_overrides)]]);
          ("TargetCapacitySpecification",
           VDict [("TotalTargetCapacity", VInt count);
                  ("DefaultTargetCapacityType", VStr default_target_capacity_type)]);
          ("Type", VStr "instant")]
         launch_options).

Definition _evaluate_launch_params (self : FleetManager) (count : Z) : M dict :=
  launch_params ←
    try_except (shape_launch_params self count)
      (fun e =>
         match e with
         | KeyError key =>
             let message :=
               "Unable to find key " +:+ repr_str key +:+ " in the configuration of queue: "
               +:+ _queue self +:+ ", compute resource " +:+ _compute_resource self in
             log ERROR (MsgText message) ;;
             raise (FleetManagerException message)
         | _ => raise e
         end);
  let launch_params := Dict.update launch_params (_launch_overrides self) in
  when (Dict.truthy (_launch_overrides self))
       (log INFO (MsgFoundParametersOverride CreateFleetApi launch_params)) ;;
  ret launch_params.


(** [client.get_paginator("describe_instances").paginate(InstanceIds=...)]:
    the next answer of the EC2 oracle. *)
Definition describe_instances (env : Env) (instance_ids : list string) : M describe_response :=
  fun w =>
    (Ok (ec2_describe_instances env (describe_calls w) instance_ids),
     {| describe_calls := S (describe_calls w); random_draws := random_draws w |},
     [DescribeInstances instance_ids]).

(** The two lists are mutated in place, so what the loop over the iterator
    appended before the iterator raised is still there when the
    [except ClientError] clause extends the partial list. *)
Definition _retrieve_instances_info_from_ec2 (env : Env) (instance_ids : list string)
  : M (list instance_info * list string) :=
  let complete_instances : list instance_info := [] in
  let partial_instance_ids : list string := [] in
  if nonempty instance_ids then
    response ← describe_instances env instance_ids;
    '(complete_instances, partial_instance_ids) ←
      for_each (yielded response)
        (fun '(complete_instances, partial_instance_ids) instance_info =>
           try_except
             (_ ← EC2Instance.from_describe_instance_data instance_info;
              ret (complete_instances ++ [instance_info], partial_instance_ids))
             (fun e =>
                match e with
                | KeyError _ =>
                    log DEBUG (MsgUnableToRetrieveInstanceInfo e) ;;
                    instance_id ← lookup_key "InstanceId" (InstanceId instance_info);
                    ret (complete_instances, partial_instance_ids ++ [instance_id])
                | _ => raise e
                end))
        (complete_instances, partial_instance_ids);
    match fault response with
    | Some error =>
        log DEBUG (MsgUnableToRetrieveInstanceInfo (ClientError error)) ;;
        ret (complete_instances, partial_instance_ids ++ instance_ids)
    | None => ret (complete_instances, partial_instance_ids)
    end
  else ret (complete_instances, partial_instance_ids).

Definition retries : nat := 5.

(** [0.3 * 2**attempt_count + (jitter / 1000)], in seconds. *)
Definition backoff (attempt_count : nat) (jitter : Z) : Q :=
  ((3 # 10) * inject_Z (2 ^ Z.of_nat attempt_count) + inject_Z jitter / inject_Z 1000)%Q.

(** The [while] loop of [_get_instances_info]; [fuel] bounds the number of
    iterations (see [get_instances_info_loop_fuel]: [retries] is enough). *)
Fixpoint get_instances_info_loop (env : Env) (fuel attempt_count : nat)
    (instances : list instance_info) (partial_instance_ids : list string)
  : M (list instance_info * list string) :=
  match fuel with
  | O => ret (instances, partial_instance_ids)
  | S fuel' =>
      if (attempt_count <? retries)%nat && nonempty partial_instance_ids then
        '(complete_instances, partial_instance_ids) ←
          _retrieve_instances_info_from_ec2 env partial_instance_ids;
        let instances := instances ++ complete_instances in
        let attempt_count := S attempt_count in
        when (attempt_count <? retries)%nat
             (jitter ← randbelow env 500; sleep (backoff attempt_count jitter)) ;;
        get_instances_info_loop env fuel' attempt_count instances partial_instance_ids
      else ret (instances, partial_instance_ids)
  end.

Definition _get_instances_info (env : Env) (instance_ids : list string)
  : M (list instance_info * list string) :=
  sleep (1 # 10) ;;
  get_instances_info_loop env (S retries) 0 [] instance_ids.

Definition _launch_instances (env : Env) (self : FleetManager) (launch_params : dict)
  : M assigned_nodes :=
  try_except
    (response ← create_fleet env (_region self) (_boto3_config self) launch_params;
     log DEBUG (MsgCreateFleetResponse response) ;;
     let instances := default [] (fleet_Instances response) in
     let log_level := if nonempty instances then WARNING else ERROR in
     for_each (default [] (fleet_Errors response))
       (fun _ err =>
          log log_level
            (MsgErrorInCreateFleetRequest
               (default None (fleet_ResponseMetadata response))
               (ErrorCode err) (ErrorMessage err)))
       tt ;;
     instance_ids ←
       for_each instances
         (fun instance_ids instance =>
            ids ← lookup_key "InstanceIds" (InstanceIds instance);
            ret (instance_ids ++ ids))
         [];
     '(instances, partial_instance_ids) ← _get_instances_info env instance_ids;
     when (nonempty partial_instance_ids)
          (log ERROR (MsgUnableToRetrieveInstanceInfoFor partial_instance_ids)) ;;
     ret {| nodes_Instances := Some instances |})
    (fun e =>
       match e with
       | ClientError response =>
           log ERROR (MsgFailedRequest CreateFleetApi (default None (ResponseMetadata response))) ;;
           raise e
       | _ => raise e
       end).

End Ec2CreateFleetManager.

(** ** The public operation *)

Module FleetManager.

(** The abstract methods, dispatched on the class of the manager. *)
Definition _evaluate_launch_params (self : FleetManager) (count : Z) : M dict :=
  match class self with
  | Ec2RunInstancesManager => Ec2RunInstancesManager._evaluate_launch_params self count
  | Ec2CreateFleetManager => Ec2CreateFleetManager._evaluate_launch_params self count
  end.

Definition _launch_instances (env : Env) (self : FleetManager) (launch_params : dict)
  : M assigned_nodes :=
  match class self with
  | Ec2RunInstancesManager => Ec2RunInstancesManager._launch_instances env self launch_params
  | Ec2CreateFleetManager => Ec2CreateFleetManager._launch_instances env self launch_params
  end.

(** [with contextlib.ExitStack() as stack: if job_id: ...]: the logging
    filter is entered for a truthy job id and left on every exit. *)
Definition with_job_id_filter {A} (job_id : option string) (body : M A) : M A :=
  match job_id with
  | Some job =>
      if negb (String.eqb job "")
      then emit (LoggingFilterEnter job) ;; finally body [LoggingFilterExit]
      else body
  | None => body
  end.

Definition launch_ec2_instances (env : Env) (self : FleetManager) (count : Z)
    (job_id : option string) : M (list EC2Instance.t) :=
  assigned_nodes ←
    with_job_id_filter job_id
      (launch_params ← _evaluate_launch_params self count;
       assigned_nodes ← _launch_instances env self launch_params;
       (* len(assigned_nodes.get("Instances")) *)
       instances ← match nodes_Instances assigned_nodes with
                   | Some instances => ret instances
                   | None => raise TypeError
                   end;
       when (0 <? length instances)%nat
            (log INFO (MsgLaunchedInstances
                         (map (fun instance => default "" (InstanceId instance)) instances)) ;;
             log DEBUG (MsgFullLaunchedInstancesInformation instances)) ;;
       ret assigned_nodes);
  instances ← lookup_key "Instances" (nodes_Instances assigned_nodes);
  list_comprehension EC2Instance.from_describe_instance_data instances.

End FleetManager.

(** * Vocabulary of the specifications *)




(** A run whose trace is preceded by the events [t]. *)
Definition prepend {A} (t : list event) (x : result A * World * list event)
  : result A * World * list event :=
  (x.1.1, x.1.2, t ++ x.2).

(** [m] leaves the world as it is and emits only events satisfying [P]. *)
Definition emits {A} (P : event -> bool) (m : M A) : Prop :=
  forall w r w' t, m w = (r, w', t) -> w' = w /\ Forall (fun e => P e = true) t.

Definition is_log (e : event) : bool :=
  match e with Log _ _ => true | _ => false end.

Definition is_sleep (e : event) : bool :=
  match e with Sleep _ => true | _ => false end.

(** The sleeps and the remote calls of a trace, without its log records. *)
Definition timeline (trace : list event) : list event :=
  List.filter (fun e => negb (is_log e)) trace.

Definition describe_called (w : World) : World :=
  {| describe_calls := S (describe_calls w); random_draws := random_draws w |}.

Definition random_drawn (w : World) : World :=
  {| describe_calls := describe_calls w; random_draws := S (random_draws w) |}.

(** ** Request shaping *)

(** The [MaxPrice] entry every template override starts from: present on the
    spot branch with a truthy configured price. *)
Definition max_price_entry (config : compute_resource_config) : dict :=
  match CapacityType config, MaxPrice config with
  | Some capacity_type, Some max_price =>
      if String.eqb capacity_type "spot" && number_truthy max_price
      then [("MaxPrice", VStr (number_str max_price))]
      else []
  | _, _ => []
  end.

Definition override_entry (base : dict) (instance_type subnet_id : string) : value :=
  VDict (base ++ [("InstanceType", VStr instance_type); ("SubnetId", VStr subnet_id)]).

(** The Cartesian product, instance types first. *)
Definition cartesian_overrides (base : dict) (instance_types subnet_ids : list string)
  : list value :=
  flat_map (fun instance_type => map (override_entry base instance_type) subnet_ids)
           instance_types.

(** The shapes the dict [overrides] of the template loop goes through. *)
Definition is_base (base : dict) : Prop :=
  base = [] \/ exists p, base = [("MaxPrice", VStr p)].

Definition base_like (base ov : dict) : Prop :=
  ov = base \/ exists x y, ov = base ++ [("InstanceType", VStr x); ("SubnetId", VStr y)].

(** One pass of the inner loop and of the outer loop, on the loop variables. *)
Definition subnet_step (it : string) (s : list value * dict) (sn : string) : list value * dict :=
  let overrides := Dict.update s.2 [("InstanceType", VStr it); ("SubnetId", VStr sn)] in
  (s.1 ++ [VDict overrides], overrides).

Definition instance_type_step (sns : list string) (s : list value * dict) (it : string)
  : list value * dict :=
  fold_left (subnet_step it) sns s.

(** The key under which the capacity-type options travel in the payload. *)
Definition launch_options_key (capacity_type : string) : string :=
  if String.eqb capacity_type "spot" then "SpotOptions" else "OnDemandOptions".

(** The log records request shaping can emit. *)
Definition is_shaping_log (e : event) : bool :=
  match e with
  | Log WARNING MsgAllOrNothingUnavailable => true
  | Log ERROR (MsgText _) => true
  | Log INFO (MsgFoundParametersOverride _ _) => true
  | _ => false
  end.

(** ** Reconciliation *)

(** The first required key a raw description lacks, in the order in which
    [from_describe_instance_data] reads them. *)
Definition missing_key (info : instance_info) : option string :=
  match PrivateIpAddress info, PrivateDnsName info, InstanceId info, LaunchTime info with
  | None, _, _, _ => Some "PrivateIpAddress"
  | Some _, None, _, _ => Some "PrivateDnsName"
  | Some _, Some _, None, _ => Some "InstanceId"
  | Some _, Some _, Some _, None => Some "LaunchTime"
  | Some _, Some _, Some _, Some _ => None
  end.

(** A description every required field of which is present. *)
Definition complete (info : instance_info) : bool :=
  match missing_key info with None => true | Some _ => false end.

Definition has_instance_id (info : instance_info) : Prop := is_Some (InstanceId info).

(** The ids of the incomplete descriptions, in order. *)
Definition partial_ids (items : list instance_info) : list string :=
  flat_map (fun info => if complete info then []
                        else match InstanceId info with Some i => [i] | None => [] end) items.

(** What the loop over the descriptions logs. *)
Definition retrieve_logs (items : list instance_info) : list event :=
  flat_map (fun info =>
              match missing_key info with
              | Some key => [Log ERROR (MsgUnableToRetrieveEC2InstanceInfo (KeyError key));
                             Log DEBUG (MsgUnableToRetrieveInstanceInfo (KeyError key))]
              | None => []
              end) items.

(** The random draw and the sleep that follow an attempt. *)
Definition backoff_events (env : Env) (attempt_count : nat) (w : World) : list event :=
  if (attempt_count <? Ec2CreateFleetManager.retries)%nat
  then [Sleep (Ec2CreateFleetManager.backoff attempt_count
                 (entropy env (random_draws w) mod 500))]
  else [].

Definition after_backoff (attempt_count : nat) (w : World) : World :=
  if (attempt_count <? Ec2CreateFleetManager.retries)%nat then random_drawn w else w.

Definition same_ids (q ids : list string) : Prop := forall i, In i q <-> In i ids.

(** The oracle never lets the ids resolve: whenever these ids are queried,
    every description it yields is incomplete and is about a queried id, and
    an answer that does not end in a fault describes every queried id. *)
Definition never_resolves (env : Env) (ids : list string) : Prop :=
  forall k q, same_ids q ids ->
    let response := ec2_describe_instances env k q in
    Forall (fun info => complete info = false /\
                        exists i, InstanceId info = Some i /\ In i q) (yielded response) /\
    (fault response = None ->
     forall i, In i q -> In (Some i) (map InstanceId (yielded response))).

(** ** The launch *)

(** The events around the body of the [with] block. *)
Definition filter_enter (job_id : option string) : list event :=
  match job_id with
  | Some job => if negb (String.eqb job "") then [LoggingFilterEnter job] else []
  | None => []
  end.

Definition filter_exit (job_id : option string) : list event :=
  match job_id with
  | Some job => if negb (String.eqb job "") then [LoggingFilterExit] else []
  | None => []
  end.

(** What a launch call emits: the calls and the records announcing them. *)
Definition is_call_event (e : event) : bool :=
  match e with
  | RunInstances _ _ | CreateFleet _ _ => true
  | Log INFO (MsgLaunchingInstances _ _ _) => true
  | _ => false
  end.

(** The events a launch that reconciles nothing may contain. *)
Definition no_reconciliation_event (e : event) : bool :=
  match e with
  | DescribeInstances _ => false
  | Log ERROR (MsgUnableToRetrieveInstanceInfoFor _) => false
  | Log INFO (MsgLaunchedInstances _) => false
  | _ => true
  end.

(** ** Concrete data of the examples *)

Definition described (instance_id : string) : instance_info :=
  {| InstanceId := Some instance_id; PrivateIpAddress := Some "10.0.0.1";
     PrivateDnsName := Some "ip-10-0-0-1.ec2.internal"; LaunchTime := Some 1650000000 |}.

Definition pending (instance_id : string) : instance_info :=
  {| InstanceId := Some instance_id; PrivateIpAddress := None;
     PrivateDnsName := None; LaunchTime := Some 1650000000 |}.

Definition throttled : error_response := {| ResponseMetadata := Some (Some "req-1") |}.

Definition example_env (describe : nat -> list string -> describe_response)
    (fleet : exn + create_fleet_response) : Env :=
  {| ec2_describe_instances := describe;
     ec2_create_fleet := fun _ => fleet;
     ec2_run_instances := fun _ => inl (ClientError throttled);
     overrides_create_fleet := None;
     overrides_run_instances := None;
     entropy := fun k => 1234 |}.

Definition initial_world : World := {| describe_calls := 0; random_draws := 0 |}.

(** [i-1] is described in full at once, [i-2] only on the second query. *)
Definition env_resolving_in_two_attempts : Env :=
  example_env
    (fun k ids =>
       match k with
       | O => {| yielded := [described "i-1"; pending "i-2"]; fault := None |}
       | _ => {| yielded := map described ids; fault := None |}
       end)
    (inl (ClientError throttled)).

(** The first query yields the description of [i-1] and then faults; later
    queries describe every id they are asked about. *)
Definition env_faulting_mid_iteration : Env :=
  example_env
    (fun k ids =>
       match k with
       | O => {| yielded := [described "i-1"]; fault := Some throttled |}
       | _ => {| yielded := map described ids; fault := None |}
       end)
    (inl (ClientError throttled)).

(** Every query faults at once. *)
Definition env_always_faulting : Env :=
  example_env (fun _ _ => {| yielded := []; fault := Some throttled |})
              (inl (ClientError throttled)).

(** The fleet request is answered with an error entry and no instance. *)
Definition env_insufficient_capacity : Env :=
  example_env (fun _ _ => {| yielded := []; fault := Some throttled |})
    (inr {| fleet_Instances := Some [];
            fleet_Errors := Some [ {| ErrorCode := Some "InsufficientInstanceCapacity";
                                      ErrorMessage := Some "Insufficient capacity." |} ];
            fleet_ResponseMetadata := Some (Some "req-2") |}).

(** A compute resource with two instance types and two subnets. *)
Definition example_config (api capacity_type : string) : compute_resource_config :=
  {| Api := Some api; CapacityType := Some capacity_type;
     AllocationStrategy := Some "lowest-price";
     MaxPrice := Some {| number_truthy := true; number_str := "1.5" |};
     Instances := Some [ {| InstanceType := Some "c5.xlarge" |};
                         {| InstanceType := Some "m5.xlarge" |} ];
     Networking := Some {| SubnetIds := Some ["subnet-a"; "subnet-b"] |} |}.

Definition example_manager (class : manager_class) (capacity_type : string)
    (all_or_nothing : bool) : FleetManager :=
  {| class := class; _cluster_name := "hit"; _region := "us-east-1";
     _boto3_config := "default"; _queue := "queue1"; _compute_resource := "fleet";
     _compute_resource_config :=
       example_config (match class with
                       | Ec2CreateFleetManager => "create-fleet"
                       | Ec2RunInstancesManager => "run-instances"
                       end) capacity_type;
     _all_or_nothing := all_or_nothing; _launch_overrides := [] |}.


(** ** Further vocabulary *)

(** The keys of a dict are pairwise distinct, as in every Python dict. *)
Definition unique_keys (d : dict) : Prop := NoDup (map fst d).

(** [s] contains a dot. *)
Fixpoint has_dot (s : string) : bool :=
  match s with
  | EmptyString => false
  | String c rest => Ascii.eqb c "."%char || has_dot rest
  end.

(** The record a complete description is parsed into. *)
Definition instance_record (info : instance_info) : EC2Instance.t :=
  EC2Instance.__init__ (default "" (InstanceId info)) (default "" (PrivateIpAddress info))
    (before_first_dot (default "" (PrivateDnsName info))) (default 0 (LaunchTime info)).

(** The keys request shaping of strategy B reads with [d[key]]. *)
Definition shaping_keys : list string :=
  ["AllocationStrategy"; "Instances"; "CapacityType"; "Networking"; "SubnetIds"; "InstanceType"].

(** The message of the error shaping raises for a missing key. *)
Definition missing_key_message (self : FleetManager) (key : string) : string :=
  "Unable to find key '" +:+ key +:+ "' in the configuration of queue: "
  +:+ _queue self +:+ ", compute resource " +:+ _compute_resource self.

(** [m] emits only events satisfying [P], whatever it does to the world. *)
Definition traces {A} (P : event -> bool) (m : M A) : Prop :=
  forall w r w' t, m w = (r, w', t) -> Forall (fun e => P e = true) t.

(** [m] can only raise exceptions satisfying [Q]. *)
Definition raises {A} (Q : exn -> Prop) (m : M A) : Prop :=
  forall w e w' t, m w = (Raised e, w', t) -> Q e.

(** [m] emits at most [k] events satisfying [P]. *)
Definition counts {A} (P : event -> bool) (k : nat) (m : M A) : Prop :=
  forall w r w' t, m w = (r, w', t) -> (length (List.filter P t) <= k)%nat.

Definition is_filter_event (e : event) : bool :=
  match e with LoggingFilterEnter _ | LoggingFilterExit => true | _ => false end.

Definition is_describe (e : event) : bool :=
  match e with DescribeInstances _ => true | _ => false end.

(** The events of a launch other than those of the logging filter. *)
Definition is_launch_event (e : event) : bool := negb (is_filter_event e).

(** What a reconciliation may emit: sleeps shorter than 5.3s, queries about
    a non-empty list of ids, and the two records of a failed parse or query. *)
Definition is_reconciliation_event (e : event) : bool :=
  match e with
  | Sleep seconds => match (seconds ?= 53 # 10)%Q with Lt => true | _ => false end
  | DescribeInstances ids => nonempty ids
  | Log ERROR (MsgUnableToRetrieveEC2InstanceInfo _) => true
  | Log DEBUG (MsgUnableToRetrieveInstanceInfo _) => true
  | _ => false
  end.

(** The ids of a create-fleet response, flattened; [None] when an entry of
    [Instances] has no [InstanceIds]. *)
Fixpoint flatten_instance_ids (instances : list fleet_instance) : option (list string) :=
  match instances with
  | [] => Some []
  | instance :: rest =>
      match InstanceIds instance, flatten_instance_ids rest with
      | Some ids, Some more => Some (ids ++ more)
      | _, _ => None
      end
  end.

(** The records of the error entries of a create-fleet response. *)
Definition fleet_error_logs (response : create_fleet_response) : list event :=
  map (fun err =>
         Log (if nonempty (default [] (fleet_Instances response)) then WARNING else ERROR)
             (MsgErrorInCreateFleetRequest (default None (fleet_ResponseMetadata response))
                (ErrorCode err) (ErrorMessage err)))
      (default [] (fleet_Errors response)).

(** The summary logged when the launch step hands back instances. *)
Definition launched_summary (instances : list instance_info) : list event :=
  match instances with
  | [] => []
  | _ => [Log INFO (MsgLaunchedInstances
                      (map (fun instance => default "" (InstanceId instance)) instances));
          Log DEBUG (MsgFullLaunchedInstancesInformation instances)]
  end.

(** The subnet ids a configuration declares; none when a key is absent. *)
Definition declared_subnet_ids (config : compute_resource_config) : list string :=
  match Networking config with
  | Some networking => default [] (SubnetIds networking)
  | None => []
  end.

(** The capacity-type options of strategy B, in closed form. *)
Definition expected_launch_options (allocation_strategy : string) (instance_types subnets : nat)
    (all_or_nothing : bool) (count : Z) (capacity_type : string) : dict :=
  [("AllocationStrategy", VStr allocation_strategy);
   ("SingleInstanceType", VBool (Nat.eqb instance_types 1));
   ("SingleAvailabilityZone", VBool (Nat.eqb subnets 1))]
  ++ (if Nat.eqb subnets 1 || Nat.eqb instance_types 1
      then [("MinTargetCapacity", VInt (if all_or_nothing then count else 1))]
      else [])
  ++ (if String.eqb capacity_type "spot"
      then []
      else [("CapacityReservationOptions",
             VDict [("UsageStrategy", VStr "use-capacity-reservations-first")])]).

(** The payload of strategy B before the caller's overrides, in closed form. *)
Definition expected_launch_params (self : FleetManager) (count : Z) (capacity_type : string)
    (template_overrides : list value) (options : dict) : dict :=
  [("LaunchTemplateConfigs",
    VList [VDict [("LaunchTemplateSpecification",
                   VDict [("LaunchTemplateName", VStr (launch_template_name self));
                          ("Version", VStr "$Latest")]);
                  ("Overrides", VList template_overrides)]]);
   ("TargetCapacitySpecification",
    VDict [("TotalTargetCapacity", VInt count);
           ("DefaultTargetCapacityType", VStr capacity_type)]);
   ("Type", VStr "instant");
   (launch_options_key capacity_type, VDict options)].

(** The warning of the all-or-nothing limitation, when it is due. *)
Definition all_or_nothing_warning (instance_types subnets : nat) (all_or_nothing : bool)
  : list event :=
  if negb (Nat.eqb subnets 1) && (negb (Nat.eqb instance_types 1) && all_or_nothing)
  then [Log WARNING MsgAllOrNothingUnavailable]
  else [].

(** An environment whose run-instances call gives [answer]. *)
Definition env_run_instances (answer : exn + assigned_nodes) : Env :=
  {| ec2_describe_instances := fun _ _ => {| yielded := []; fault := None |};
     ec2_create_fleet := fun _ => inl (ClientError throttled);
     ec2_run_instances := fun _ => answer;
     overrides_create_fleet := None;
     overrides_run_instances := None;
     entropy := fun _ => 0 |}.

(** The fleet request launches [i-1] and [i-2]; every query describes in
    full the ids it asks about. *)
Definition env_fleet_of_two : Env :=
  example_env (fun _ ids => {| yielded := map described ids; fault := None |})
    (inr {| fleet_Instances := Some [ {| InstanceIds := Some ["i-1"; "i-2"] |} ];
            fleet_Errors := None;
            fleet_ResponseMetadata := Some (Some "req-3") |}).

(** A record of an error entry of a create-fleet response. *)
Definition is_fleet_error_log (e : event) : bool :=
  match e with
  | Log _ (MsgErrorInCreateFleetRequest _ _ _) => true
  | _ => false
  end.

(** [m], when it returns, returns a value satisfying [R]. *)
Definition returns {A} (R : A -> Prop) (m : M A) : Prop :=
  forall w a w' t, m w = (Ok a, w', t) -> R a.

(** The fleet request launches [i-1] and [i-2]; no query ever describes
    them in full. *)
Definition env_fleet_never_described : Env :=
  example_env (fun _ ids => {| yielded := map pending ids; fault := None |})
    (inr {| fleet_Instances := Some [ {| InstanceIds := Some ["i-1"; "i-2"] |} ];
            fleet_Errors := Some [ {| ErrorCode := Some "InsufficientInstanceCapacity";
                                      ErrorMessage := Some "Insufficient capacity." |} ];
            fleet_ResponseMetadata := Some (Some "req-4") |}).

(** The record naming the ids a reconciliation left unresolved. *)
Definition is_unresolved_log (e : event) : bool :=
  match e with
  | Log _ (MsgUnableToRetrieveInstanceInfoFor _) => true
  | _ => false
  end.

(** The two records of the summary of the launched instances. *)
Definition is_launched_summary (e : event) : bool :=
  match e with
  | Log _ (MsgLaunchedInstances _) | Log _ (MsgFullLaunchedInstancesInformation _) => true
  | _ => false
  end.

(** A call of one of the two launch APIs. *)
Definition is_launch_call (e : event) : bool :=
  match e with RunInstances _ _ | CreateFleet _ _ => true | _ => false end.

(** The call of the launch API of a manager's strategy, through the
    override ([with_override]) or through the EC2 client. *)
Definition api_call (self : FleetManager) (with_override : bool) (launch_params : dict)
  : event :=
  match class self with
  | Ec2RunInstancesManager => RunInstances with_override launch_params
  | Ec2CreateFleetManager => CreateFleet with_override launch_params
  end.

(** What the override of a manager's strategy does for these parameters:
    [None] when [slurm_plugin.overrides] provides no such function, else
    the outcome of the override seen as raising [ImportError] or not. *)
Definition override_raises_import_error (env : Env) (self : FleetManager)
    (launch_params : dict) : option bool :=
  let raises_import_error {A} (outcome : exn + A) : bool :=
    match outcome with inl ImportError => true | _ => false end in
  match class self with
  | Ec2RunInstancesManager =>
      (fun override => raises_import_error (override launch_params))
      <$> overrides_run_instances env
  | Ec2CreateFleetManager =>
      (fun override => raises_import_error (override launch_params))
      <$> overrides_create_fleet env
  end.

(** An environment whose override of run-instances gives [outcome] and
    whose EC2 client launches [i-1]. *)
Definition env_run_instances_override (outcome : exn + assigned_nodes) : Env :=
  {| ec2_describe_instances := fun _ _ => {| yielded := []; fault := None |};
     ec2_create_fleet := fun _ => inl (ClientError throttled);
     ec2_run_instances := fun _ => inr {| nodes_Instances := Some [described "i-1"] |};
     overrides_create_fleet := None;
     overrides_run_instances := Some (fun _ => outcome);
     entropy := fun _ => 0 |}.

(** * Properties *)

(** ** Reasoning about runs *)

(** Unfolds the combinators of [M] on a run whose steps are known. *)
Ltac run :=
  cbv beta iota zeta delta
    [mbind M_bind mret M_ret ret raise try_except finally lookup_key log emit sleep when lift];
  cbn [app fst snd negb andb orb].

Lemma append_assoc (s1 s2 s3 : string) : (s1 +:+ s2) +:+ s3 = s1 +:+ s2 +:+ s3.
Proof.
  induction s1 as [|c s1 IH]; [reflexivity|].
  change (String c ((s1 +:+ s2) +:+ s3) = String c (s1 +:+ s2 +:+ s3)). by rewrite IH.
Qed.

Lemma prepend_nil {A} (x : result A * World * list event) : prepend [] x = x.
Proof. by destruct x as [[? ?] ?]. Qed.

Lemma prepend_prepend {A} t1 t2 (x : result A * World * list event) :
  prepend t1 (prepend t2 x) = prepend (t1 ++ t2) x.
Proof. destruct x as [[? ?] ?]. unfold prepend. cbn [fst snd]. by rewrite app_assoc. Qed.

Lemma bind_ok {A B} (m : M A) (f : A -> M B) w a w1 t1 :
  m w = (Ok a, w1, t1) -> (m ≫= f) w = prepend t1 (f a w1).
Proof.
  intros E. unfold mbind, M_bind, prepend. rewrite E. by destruct (f a w1) as [[? ?] ?].
Qed.

Lemma bind_pure {A B} (m : M A) (f : A -> M B) w a :
  m w = (Ok a, w, []) -> (m ≫= f) w = f a w.
Proof. intros E. rewrite (bind_ok _ _ _ _ _ _ E). apply prepend_nil. Qed.

Lemma bind_raised {A B} (m : M A) (f : A -> M B) w e w1 t1 :
  m w = (Raised e, w1, t1) -> (m ≫= f) w = (Raised e, w1, t1).
Proof. intros E. unfold mbind, M_bind. by rewrite E. Qed.

Lemma bind_raised_inv {A B} (m : M A) (f : A -> M B) w e w' t :
  (m ≫= f) w = (Raised e, w', t) ->
  m w = (Raised e, w', t) \/
  exists a w1 t1 t2, m w = (Ok a, w1, t1) /\ f a w1 = (Raised e, w', t2).
Proof.
  unfold mbind, M_bind. destruct (m w) as [[[a|e1] w1] t1].
  - destruct (f a w1) as [[r w2] t2] eqn:E. intros [= -> -> <-]. right. eauto 6.
  - intros [= -> -> ->]. by left.
Qed.

(** A loop whose body neither fails nor has effects is a fold. *)
Lemma for_each_pure {A B} (xs : list A) (body : B -> A -> M B) (step : B -> A -> B) :
  (forall s x w, In x xs -> body s x w = (Ok (step s x), w, [])) ->
  forall s w, for_each xs body s w = (Ok (fold_left step xs s), w, []).
Proof.
  induction xs as [|x xs IH]; intros Hbody s w; [reflexivity|].
  cbn [for_each fold_left].
  rewrite (bind_pure _ _ _ _ (Hbody s x w (or_introl eq_refl))).
  apply IH. intros ? ? ? ?. apply Hbody. by right.
Qed.

Lemma fold_left_map_eq {A B S} (f : S -> B -> S) (g : A -> B) (l : list A) : forall s,
  fold_left f (map g l) s = fold_left (fun s x => f s (g x)) l s.
Proof. induction l as [|x l IH]; intros s; [reflexivity|]. cbn. apply IH. Qed.

Lemma filter_cons_app {A} (f : A -> bool) x l :
  List.filter f (x :: l) = List.filter f [x] ++ List.filter f l.
Proof. cbn. by destruct (f x). Qed.

Lemma filter_none {A} (f : A -> bool) (l : list A) :
  Forall (fun x => f x = false) l -> List.filter f l = [].
Proof. induction 1 as [|x l H _ IH]; [reflexivity|]. cbn. by rewrite H. Qed.

Lemma not_in_forall {A} (f : A -> bool) (l : list A) x :
  Forall (fun x => f x = true) l -> f x = false -> ~ In x l.
Proof.
  intros H Hx Hin. apply (proj1 (List.Forall_forall _ _) H) in Hin. congruence.
Qed.

Section Emits.
Context (P : event -> bool).

Lemma emits_ret {A} (a : A) : emits P (ret a).
Proof. intros w r w' t [= <- <- <-]. auto. Qed.

Lemma emits_raise {A} e : emits P (@raise A e).
Proof. intros w r w' t [= <- <- <-]. auto. Qed.

Lemma emits_lookup_key {A} key (field : option A) : emits P (lookup_key key field).
Proof. destruct field; [apply emits_ret|apply emits_raise]. Qed.

Lemma emits_log lvl msg : P (Log lvl msg) = true -> emits P (log lvl msg).
Proof. intros H w r w' t [= <- <- <-]. auto. Qed.

Lemma emits_bind {A B} (m : M A) (f : A -> M B) :
  emits P m -> (forall a, emits P (f a)) -> emits P (m ≫= f).
Proof.
  intros Hm Hf w r w' t. unfold mbind, M_bind.
  destruct (m w) as [[[a|e] w1] t1] eqn:Em.
  - destruct (f a w1) as [[r2 w2] t2] eqn:Ef. intros [= <- <- <-].
    destruct (Hm _ _ _ _ Em) as [-> H1]. destruct (Hf a _ _ _ _ Ef) as [-> H2].
    split; [done|]. by apply Forall_app.
  - intros [= <- <- <-]. by apply (Hm _ _ _ _ Em).
Qed.

Lemma emits_try_except {A} (m : M A) (h : exn -> M A) :
  emits P m -> (forall e, emits P (h e)) -> emits P (try_except m h).
Proof.
  intros Hm Hh w r w' t. unfold try_except.
  destruct (m w) as [[[a|e] w1] t1] eqn:Em.
  - intros [= <- <- <-]. by apply (Hm _ _ _ _ Em).
  - destruct (h e w1) as [[r2 w2] t2] eqn:Eh. intros [= <- <- <-].
    destruct (Hm _ _ _ _ Em) as [-> H1]. destruct (Hh e _ _ _ _ Eh) as [-> H2].
    split; [done|]. by apply Forall_app.
Qed.

Lemma emits_when b (m : M unit) : emits P m -> emits P (when b m).
Proof. destruct b; [done|]. intros _. apply emits_ret. Qed.

Lemma emits_for_each {A S} (xs : list A) (body : S -> A -> M S) :
  (forall s x, emits P (body s x)) -> forall s, emits P (for_each xs body s).
Proof.
  intros Hbody. induction xs as [|x xs IH]; intros s; cbn [for_each].
  - apply emits_ret.
  - apply emits_bind; [apply Hbody|apply IH].
Qed.
End Emits.

Ltac emits_step :=
  first
    [ apply emits_ret | apply emits_raise | apply emits_lookup_key
    | apply emits_log; reflexivity
    | apply emits_when
    | apply emits_bind; [|intros ?]
    | apply emits_try_except; [|intros ?]
    | apply emits_for_each; intros ? ?
    | match goal with
      | |- emits _ (match ?x with _ => _ end) => destruct x
      | |- emits _ ((match ?x with _ => _ end) _) => destruct x; cbv beta
      end ].

(** ** The instance record *)

Section InstanceRecord.
Import EC2Instance.

Lemma dict_eq_iff (a b : EC2Instance.t) : __dict__ a = __dict__ b <-> a = b.
Proof.
  split; [|intros ->; reflexivity].
  destruct a, b; unfold __dict__; simpl. intros H. injection H as -> -> -> -> ->. reflexivity.
Qed.

(** C9, as amended.  Two instance records compare equal iff all their
    attributes are equal, the attributes being the four data-model fields
    (id, private IP, hostname, launch timestamp) and the [slurm_node] the
    record is bound to; the hash of a record is the hash of its instance id,
    so records with the same id hash identically whatever their other
    attributes. *)
Theorem eq_iff_all_attributes (py_hash : string -> Z) (a b : EC2Instance.t) :
  (__eq__ a (Instance b) = true <->
     id a = id b /\ private_ip a = private_ip b /\ hostname a = hostname b /\
     launch_time a = launch_time b /\ slurm_node a = slurm_node b) /\
  (id a = id b -> __hash__ py_hash a = __hash__ py_hash b).
Proof.
  split.
  - unfold __eq__. rewrite bool_decide_eq_true, dict_eq_iff.
    split; [intros ->; tauto|].
    destruct a, b; simpl. intros (-> & -> & -> & -> & ->). reflexivity.
  - unfold __hash__. intros ->. reflexivity.
Qed.

Lemma eq_iff_all_attributes_witness :
  let a := __init__ "i-1" "10.0.0.1" "ip-10-0-0-1" 1650000000 in
  let b := {| id := "i-1"; private_ip := "10.0.0.2"; hostname := "ip-10-0-0-2";
              launch_time := 1650000001; slurm_node := Some "queue1-dy-fleet-1" |} in
  __eq__ a (Instance b) = false /\
  __hash__ (fun s => Z.of_nat (String.length s)) a
  = __hash__ (fun s => Z.of_nat (String.length s)) b.
Proof.
  intros a b. split; [reflexivity|].
  apply (eq_iff_all_attributes (fun s => Z.of_nat (String.length s)) a b). reflexivity.
Defined.

(** C9, as stated, fails: two records that agree on the four data-model
    fields and differ in [slurm_node] do not compare equal. *)
Lemma eq_on_data_model_fields_counterexample :
  let a := __init__ "i-1" "10.0.0.1" "ip-10-0-0-1" 1650000000 in
  let b := {| id := "i-1"; private_ip := "10.0.0.1"; hostname := "ip-10-0-0-1";
              launch_time := 1650000000; slurm_node := Some "queue1-dy-fleet-1" |} in
  ~ (__eq__ a (Instance b) = true <->
     id a = id b /\ private_ip a = private_ip b /\ hostname a = hostname b /\
     launch_time a = launch_time b).
Proof.
  intros a b [_ H]. assert (__eq__ a (Instance b) = true) as E by (apply H; repeat split).
  discriminate E.
Qed.
End InstanceRecord.

(** ** The factory *)

Section Factory.
Import FleetManagerFactory.
Variable str_fleet_config : fleet_config_t -> string.

End Factory.



(** ** Strategy A *)

Section RunInstances.
Import Ec2RunInstancesManager.

(** C6. Before the caller's overrides, the parameters of strategy A have
    [MinCount = count] when all-or-nothing is set and [MinCount = 1]
    otherwise, [MaxCount = count] and the launch template
    [{cluster}-{queue}-{compute resource}] at version [$Latest]; the method
    returns them with the overrides merged on top. *)
Theorem run_instances_launch_params (self : FleetManager) (count : Z) (w : World) :
  let shaped := default_launch_params self count in
  Dict.get "MinCount" shaped = Some (VInt (if _all_or_nothing self then count else 1)) /\
  Dict.get "MaxCount" shaped = Some (VInt count) /\
  Dict.get "LaunchTemplate" shaped =
    Some (VDict [("LaunchTemplateName",
                  VStr (_cluster_name self +:+ "-" +:+ _queue self +:+ "-"
                        +:+ _compute_resource self));
                 ("Version", VStr "$Latest")]) /\
  (exists logs,
     _evaluate_launch_params self count w
     = (Ok (Dict.update shaped (_launch_overrides self)), w, logs)) /\
  (_launch_overrides self = [] -> _evaluate_launch_params self count w = (Ok shaped, w, [])).
Proof.
  cbv zeta. split; [|split; [|split; [|split]]]; try reflexivity.
  - unfold default_launch_params. cbn. by destruct (_all_or_nothing self).
  - unfold _evaluate_launch_params. destruct (_launch_overrides self); cbn; eauto.
  - unfold _evaluate_launch_params. intros ->. reflexivity.
Qed.

Lemma run_instances_launch_params_witness :
  _evaluate_launch_params (example_manager Ec2RunInstancesManager "on-demand" true) 3
    initial_world
  = (Ok [("MinCount", VInt 3); ("MaxCount", VInt 3);
         ("LaunchTemplate",
          VDict [("LaunchTemplateName", VStr "hit-queue1-fleet");
                 ("Version", VStr "$Latest")])],
     initial_world, []).
Proof.
  apply (run_instances_launch_params
           (example_manager Ec2RunInstancesManager "on-demand" true) 3 initial_world).
  reflexivity.
Defined.
End RunInstances.

(** ** Strategy B: request shaping *)

Section CreateFleetShaping.
Import Ec2CreateFleetManager.

Lemma max_price_entry_is_base config : is_base (max_price_entry config).
Proof.
  unfold max_price_entry, is_base. destruct (CapacityType config), (MaxPrice config); auto.
  destruct (_ && _); eauto.
Qed.

Lemma update_override_entry base ov it sn :
  is_base base -> base_like base ov ->
  Dict.update ov [("InstanceType", VStr it); ("SubnetId", VStr sn)]
  = base ++ [("InstanceType", VStr it); ("SubnetId", VStr sn)].
Proof.
  intros [-> | [p ->]] [-> | (x & y & ->)]; reflexivity.
Qed.

Lemma subnet_fold base it sns : forall s,
  is_base base -> base_like base s.2 ->
  (fold_left (subnet_step it) sns s).1 = s.1 ++ map (override_entry base it) sns /\
  base_like base (fold_left (subnet_step it) sns s).2.
Proof.
  induction sns as [|sn sns IH]; intros [acc ov] Hb Hov; cbn [fold_left map].
  - by rewrite app_nil_r.
  - unfold subnet_step at 2 4. cbn [fst snd] in *.
    rewrite (update_override_entry base ov it sn Hb Hov).
    destruct (IH (acc ++ [VDict (base ++ [("InstanceType", VStr it); ("SubnetId", VStr sn)])],
                  base ++ [("InstanceType", VStr it); ("SubnetId", VStr sn)]) Hb) as [E1 E2].
    { right; eauto. }
    split; [|done]. rewrite E1. cbn [fst]. by rewrite <- app_assoc.
Qed.

Lemma instance_type_fold base sns its : forall s,
  is_base base -> base_like base s.2 ->
  (fold_left (instance_type_step sns) its s).1 = s.1 ++ cartesian_overrides base its sns /\
  base_like base (fold_left (instance_type_step sns) its s).2.
Proof.
  induction its as [|it its IH]; intros s Hb Hov; cbn [fold_left].
  - cbn. by rewrite app_nil_r.
  - destruct (subnet_fold base it sns s Hb Hov) as [E1 E2].
    destruct (IH (instance_type_step sns s it) Hb E2) as [E3 E4].
    split; [|done]. rewrite E3. unfold instance_type_step at 1. rewrite E1.
    cbn [cartesian_overrides flat_map]. by rewrite <- app_assoc.
Qed.

Lemma template_overrides_run (self : FleetManager) ct its sns w :
  let config := _compute_resource_config self in
  CapacityType config = Some ct ->
  Instances config = Some (map (fun it => {| InstanceType := Some it |}) its) ->
  Networking config = Some {| SubnetIds := Some sns |} ->
  _evaluate_template_overrides self w
  = (Ok (cartesian_overrides (max_price_entry config) its sns), w, []).
Proof.
  intros config Hc Hi Hn. unfold _evaluate_template_overrides. fold config.
  rewrite Hc, Hi. cbn [lookup_key].
  erewrite bind_pure by reflexivity. erewrite bind_pure by reflexivity.
  set (base := if String.eqb ct "spot" then _ else _).
  assert (base = max_price_entry config) as Hbase.
  { unfold base, max_price_entry. rewrite Hc. destruct (MaxPrice config) as [p|]; cbn.
    - by destruct (String.eqb ct "spot"), (number_truthy p).
    - by destruct (String.eqb ct "spot"). }
  erewrite bind_pure; cycle 1.
  { apply for_each_pure with (step := fun s itc => instance_type_step sns s (default "" (InstanceType itc))).
    intros [tos ov] itc w' Hin. apply in_map_iff in Hin as (it & <- & _).
    rewrite Hn. cbn [lookup_key SubnetIds InstanceType default].
    erewrite bind_pure by reflexivity. erewrite bind_pure by reflexivity.
    apply for_each_pure. intros [tos' ov'] sn w'' _. reflexivity. }
  rewrite fold_left_map_eq. cbn [InstanceType default].
  destruct (instance_type_fold base sns its ([], base)) as [E1 _].
  { rewrite Hbase. apply max_price_entry_is_base. }
  { by left. }
  cbn [fst snd app] in E1.
  match goal with |- context [fold_left ?f its ?s] => change (fold_left f its s) with (fold_left (instance_type_step sns) its s) end.
  destruct (fold_left (instance_type_step sns) its ([], base)) as [tos ov]. cbn [fst] in E1.
  subst tos. rewrite Hbase. reflexivity.
Qed.

Lemma cartesian_overrides_lookup base (its sns : list string) : forall i j it sn,
  its !! i = Some it -> sns !! j = Some sn ->
  cartesian_overrides base its sns !! (i * length sns + j)%nat
  = Some (override_entry base it sn).
Proof.
  induction its as [|it0 its IH]; intros i j it sn Hi Hj; [done|].
  cbn [cartesian_overrides flat_map]. destruct i as [|i]; cbn in Hi.
  - injection Hi as ->. cbn [Nat.mul Nat.add].
    rewrite lookup_app_l by (rewrite length_map; by eapply lookup_lt_Some).
    change (map ?f ?l) with (f <$> l). by rewrite list_lookup_fmap, Hj.
  - rewrite lookup_app_r by (rewrite length_map; cbn; lia).
    rewrite length_map.
    replace (S i * length sns + j - length sns)%nat with (i * length sns + j)%nat by (cbn; lia).
    by apply IH.
Qed.

Lemma cartesian_overrides_length base (its sns : list string) :
  length (cartesian_overrides base its sns) = (length its * length sns)%nat.
Proof.
  unfold cartesian_overrides. apply flat_map_constant_length.
  intros. apply length_map.
Qed.

(** C4. Strategy B template overrides: for N declared instance types and M
    declared subnet ids the method returns exactly N * M entries, the entry
    at position [i * M + j] being the one of the [i]-th instance type and the
    [j]-th subnet id (outer loop over instance types, inner loop over subnet
    ids, in declaration order); on the spot branch with a configured (truthy)
    max price every entry carries that same [MaxPrice]. *)
Theorem template_overrides_cartesian_product
    (self : FleetManager) (capacity_type : string) (instance_types subnet_ids : list string)
    (w : World) :
  let config := _compute_resource_config self in
  CapacityType config = Some capacity_type ->
  Instances config = Some (map (fun it => {| InstanceType := Some it |}) instance_types) ->
  Networking config = Some {| SubnetIds := Some subnet_ids |} ->
  exists overrides,
    _evaluate_template_overrides self w = (Ok overrides, w, []) /\
    length overrides = (length instance_types * length subnet_ids)%nat /\
    (forall i j instance_type subnet_id,
        instance_types !! i = Some instance_type ->
        subnet_ids !! j = Some subnet_id ->
        overrides !! (i * length subnet_ids + j)%nat
        = Some (override_entry (max_price_entry config) instance_type subnet_id)) /\
    (forall max_price,
        capacity_type = "spot" ->
        MaxPrice config = Some max_price ->
        number_truthy max_price = true ->
        max_price_entry config = [("MaxPrice", VStr (number_str max_price))] /\
        Forall (fun entry => exists d, entry = VDict d /\
                  Dict.get "MaxPrice" d = Some (VStr (number_str max_price))) overrides).
Proof.
  intros config Hc Hi Hn.
  exists (cartesian_overrides (max_price_entry config) instance_types subnet_ids).
  split; [by eapply template_overrides_run|].
  split; [apply cartesian_overrides_length|].
  split; [apply cartesian_overrides_lookup|].
  intros p -> Hp Ht.
  assert (max_price_entry config = [("MaxPrice", VStr (number_str p))]) as E.
  { unfold max_price_entry. fold config. by rewrite Hc, Hp, Ht. }
  split; [done|]. rewrite E.
  apply List.Forall_forall. intros entry Hin.
  apply in_flat_map in Hin as (it & _ & Hin). apply in_map_iff in Hin as (sn & <- & _).
  eexists. split; reflexivity.
Qed.

Lemma template_overrides_cartesian_product_witness :
  exists overrides,
    _evaluate_template_overrides (example_manager Ec2CreateFleetManager "spot" false)
      initial_world
    = (Ok overrides, initial_world, []) /\
    length overrides = 4%nat /\
    overrides !! 2%nat
    = Some (VDict [("MaxPrice", VStr "1.5"); ("InstanceType", VStr "m5.xlarge");
                   ("SubnetId", VStr "subnet-a")]).
Proof.
  destruct (template_overrides_cartesian_product
              (example_manager Ec2CreateFleetManager "spot" false)
              "spot" ["c5.xlarge"; "m5.xlarge"] ["subnet-a"; "subnet-b"] initial_world
              eq_refl eq_refl eq_refl) as (overrides & Hrun & Hlen & Hidx & _).
  exists overrides. split; [exact Hrun|]. split; [exact Hlen|].
  exact (Hidx 1%nat 0%nat "m5.xlarge" "subnet-a" eq_refl eq_refl).
Defined.

Lemma uses_single_az_eq (self : FleetManager) sns :
  Networking (_compute_resource_config self) = Some {| SubnetIds := Some sns |} ->
  _uses_single_az self = Nat.eqb (length sns) 1.
Proof. intros Hn. unfold _uses_single_az. by rewrite Hn. Qed.

Lemma uses_single_instance_type_run (self : FleetManager) (its : list instance_type_config) w :
  Instances (_compute_resource_config self) = Some its ->
  _uses_single_instance_type self w = (Ok (Nat.eqb (length its) 1), w, []).
Proof. intros Hi. unfold _uses_single_instance_type. by rewrite Hi. Qed.

(** C1. Strategy B admission control: the launch options carry
    [MinTargetCapacity] iff the compute resource declares exactly one instance
    type or exactly one subnet id; its value then is [count] when
    all-or-nothing is set and [1] otherwise; when both conditions fail and
    all-or-nothing is set, the warning is logged and shaping goes on without
    [MinTargetCapacity] (and the warning is logged in that case only). *)
Theorem min_target_capacity_admission
    (self : FleetManager) (count : Z) (w : World)
    (allocation_strategy capacity_type : string) (instance_types subnet_ids : list string) :
  let config := _compute_resource_config self in
  AllocationStrategy config = Some allocation_strategy ->
  CapacityType config = Some capacity_type ->
  Instances config = Some (map (fun it => {| InstanceType := Some it |}) instance_types) ->
  Networking config = Some {| SubnetIds := Some subnet_ids |} ->
  exists shaped options warnings logs,
    shape_launch_params self count w = (Ok shaped, w, warnings) /\
    _evaluate_launch_params self count w
    = (Ok (Dict.update shaped (_launch_overrides self)), w, warnings ++ logs) /\
    Dict.get (launch_options_key capacity_type) shaped = Some (VDict options) /\
    (is_Some (Dict.get "MinTargetCapacity" options) <->
     length instance_types = 1%nat \/ length subnet_ids = 1%nat) /\
    (length instance_types = 1%nat \/ length subnet_ids = 1%nat ->
     Dict.get "MinTargetCapacity" options
     = Some (VInt (if _all_or_nothing self then count else 1))) /\
    (warnings = [Log WARNING MsgAllOrNothingUnavailable] <->
     length instance_types <> 1%nat /\ length subnet_ids <> 1%nat /\ _all_or_nothing self = true) /\
    (warnings = [] \/ warnings = [Log WARNING MsgAllOrNothingUnavailable]).
Proof.
  intros config Ha Hc Hi Hn.
  pose proof (template_overrides_run self capacity_type instance_types subnet_ids w Hc Hi Hn) as Ht.
  pose proof (uses_single_az_eq self subnet_ids Hn) as Haz.
  pose proof (fun w => uses_single_instance_type_run self _ w Hi) as Hit.
  rewrite length_map in Hit.
  unfold _evaluate_launch_params, shape_launch_params.
  fold config. rewrite Ha, Hc, Haz. unfold launch_options_key.
  set (single_type := Nat.eqb (length instance_types) 1) in *.
  set (single_az := Nat.eqb (length subnet_ids) 1) in *.
  assert (single_type = true <-> length instance_types = 1%nat) as E1 by apply Nat.eqb_eq.
  assert (single_az = true <-> length subnet_ids = 1%nat) as E2 by apply Nat.eqb_eq.
  clearbody single_type single_az.
  destruct single_type, single_az, (_all_or_nothing self);
  cbn [negb andb app]; repeat (run; rewrite ?Hit).
  all: rewrite Ht; run;
  destruct (String.eqb capacity_type "spot");
  destruct (_launch_overrides self) as [|override overrides]; cbn [Dict.truthy]; run;
  (do 4 eexists; split; [reflexivity|]; split; [reflexivity|]; split; [reflexivity|];
   cbn; repeat split; intros; try discriminate; try tauto; try (by eauto);
   try (by (match goal with H : is_Some None |- _ => destruct H; discriminate end));
   try (intuition congruence)).
Qed.

Lemma min_target_capacity_admission_witness :
  exists shaped options,
    shape_launch_params (example_manager Ec2CreateFleetManager "on-demand" true) 3
      initial_world
    = (Ok shaped, initial_world, [Log WARNING MsgAllOrNothingUnavailable]) /\
    Dict.get "OnDemandOptions" shaped = Some (VDict options) /\
    Dict.get "MinTargetCapacity" options = None.
Proof.
  destruct (min_target_capacity_admission
              (example_manager Ec2CreateFleetManager "on-demand" true) 3 initial_world
              "lowest-price" "on-demand" ["c5.xlarge"; "m5.xlarge"] ["subnet-a"; "subnet-b"]
              eq_refl eq_refl eq_refl eq_refl)
    as (shaped & options & warnings & logs & Hshape & _ & Hget & Hiff & _ & Hwarn & _).
  assert (warnings = [Log WARNING MsgAllOrNothingUnavailable]) as ->.
  { apply Hwarn. cbn. repeat split; lia. }
  exists shaped, options. split; [exact Hshape|]. split; [exact Hget|].
  destruct (Dict.get "MinTargetCapacity" options) as [v|] eqn:E; [|reflexivity].
  assert (is_Some (Some v)) as Hsome by eauto.
  apply Hiff in Hsome. cbn in Hsome. lia.
Defined.
End CreateFleetShaping.

(** ** Strategy B: reconciliation of the instance metadata *)

Section Reconciliation.
Import Ec2CreateFleetManager.

Lemma from_describe_complete info w :
  complete info = true ->
  exists instance, EC2Instance.from_describe_instance_data info w = (Ok instance, w, []).
Proof.
  unfold complete, missing_key, EC2Instance.from_describe_instance_data,
    EC2Instance.get_private_ip_address_and_dns_name.
  destruct (PrivateIpAddress info), (PrivateDnsName info), (InstanceId info), (LaunchTime info);
    try discriminate.
  intros _. run. eauto.
Qed.

Lemma from_describe_incomplete info key w :
  missing_key info = Some key ->
  EC2Instance.from_describe_instance_data info w
  = (Raised (KeyError key), w, [Log ERROR (MsgUnableToRetrieveEC2InstanceInfo (KeyError key))]).
Proof.
  unfold missing_key, EC2Instance.from_describe_instance_data,
    EC2Instance.get_private_ip_address_and_dns_name.
  destruct (PrivateIpAddress info), (PrivateDnsName info), (InstanceId info), (LaunchTime info);
    intros [= <-]; reflexivity.
Qed.

(** The body of the loop over the descriptions. *)
Lemma sort_description_run info complete_instances partial_instance_ids w :
  has_instance_id info ->
  try_except
    (_ ← EC2Instance.from_describe_instance_data info;
     ret (complete_instances ++ [info], partial_instance_ids))
    (fun e =>
       match e with
       | KeyError _ =>
           log DEBUG (MsgUnableToRetrieveInstanceInfo e) ;;
           instance_id ← lookup_key "InstanceId" (InstanceId info);
           ret (complete_instances, partial_instance_ids ++ [instance_id])
       | _ => raise e
       end) w
  = (Ok (complete_instances ++ List.filter complete [info],
         partial_instance_ids ++ partial_ids [info]), w, retrieve_logs [info]).
Proof.
  intros [i Hi]. unfold try_except, partial_ids, retrieve_logs, complete. cbn [List.filter flat_map].
  destruct (missing_key info) as [key|] eqn:Hk.
  - rewrite (bind_raised _ _ _ _ _ _ (from_describe_incomplete info key w Hk)).
    rewrite Hi. run. cbn. by rewrite ?app_nil_r.
  - destruct (from_describe_complete info w) as [instance E].
    { unfold complete. by rewrite Hk. }
    rewrite (bind_pure _ _ _ _ E). cbn. by rewrite ?app_nil_r.
Qed.

Lemma sort_descriptions_run items : forall complete_instances partial_instance_ids w,
  Forall has_instance_id items ->
  for_each items
    (fun '(complete_instances, partial_instance_ids) instance_info =>
       try_except
         (_ ← EC2Instance.from_describe_instance_data instance_info;
          ret (complete_instances ++ [instance_info], partial_instance_ids))
         (fun e =>
            match e with
            | KeyError _ =>
                log DEBUG (MsgUnableToRetrieveInstanceInfo e) ;;
                instance_id ← lookup_key "InstanceId" (InstanceId instance_info);
                ret (complete_instances, partial_instance_ids ++ [instance_id])
            | _ => raise e
            end))
    (complete_instances, partial_instance_ids) w
  = (Ok (complete_instances ++ List.filter complete items,
         partial_instance_ids ++ partial_ids items), w, retrieve_logs items).
Proof.
  induction items as [|info items IH]; intros c p w Hids.
  - cbn. by rewrite !app_nil_r.
  - apply Forall_cons in Hids as [Hid Hids]. cbn [for_each].
    erewrite bind_ok; [|by apply sort_description_run].
    rewrite IH by done. unfold prepend. cbn [fst snd].
    rewrite (filter_cons_app complete info items).
    unfold partial_ids, retrieve_logs. cbn [flat_map].
    by rewrite ?app_nil_r, <- ?app_assoc.
Qed.

(** One query attempt, when no description lacks its instance id. *)
Lemma retrieve_run env instance_ids w :
  instance_ids <> [] ->
  let response := ec2_describe_instances env (describe_calls w) instance_ids in
  Forall has_instance_id (yielded response) ->
  _retrieve_instances_info_from_ec2 env instance_ids w
  = (Ok (List.filter complete (yielded response),
         partial_ids (yielded response)
         ++ match fault response with Some _ => instance_ids | None => [] end),
     describe_called w,
     DescribeInstances instance_ids :: retrieve_logs (yielded response)
     ++ match fault response with
        | Some error => [Log DEBUG (MsgUnableToRetrieveInstanceInfo (ClientError error))]
        | None => []
        end).
Proof.
  intros Hne response Hids. unfold _retrieve_instances_info_from_ec2.
  destruct instance_ids as [|i ids]; [done|]. cbn [nonempty].
  erewrite bind_ok; [|reflexivity]. fold response.
  erewrite bind_ok; [|by apply sort_descriptions_run].
  unfold prepend. cbn [app fst snd].
  destruct (fault response); run; by rewrite ?app_nil_r.
Qed.

Lemma retrieve_empty env w :
  _retrieve_instances_info_from_ec2 env [] w = (Ok ([], []), w, []).
Proof. reflexivity. Qed.

Lemma loop_exit env fuel attempt_count instances partial_instance_ids w :
  (retries <= attempt_count)%nat \/ partial_instance_ids = [] ->
  get_instances_info_loop env fuel attempt_count instances partial_instance_ids w
  = (Ok (instances, partial_instance_ids), w, []).
Proof.
  intros H. destruct fuel; [reflexivity|]. cbn [get_instances_info_loop].
  destruct H as [H| ->].
  - apply Nat.ltb_ge in H. by rewrite H.
  - by rewrite andb_false_r.
Qed.

Lemma loop_step env fuel attempt_count instances partial_instance_ids w
      complete_instances partial' w1 t1 :
  (attempt_count < retries)%nat -> partial_instance_ids <> [] ->
  _retrieve_instances_info_from_ec2 env partial_instance_ids w
  = (Ok (complete_instances, partial'), w1, t1) ->
  get_instances_info_loop env (S fuel) attempt_count instances partial_instance_ids w
  = prepend (t1 ++ backoff_events env (S attempt_count) w1)
      (get_instances_info_loop env fuel (S attempt_count)
         (instances ++ complete_instances) partial' (after_backoff (S attempt_count) w1)).
Proof.
  intros Hlt Hne E. cbn [get_instances_info_loop].
  apply Nat.ltb_lt in Hlt. rewrite Hlt.
  destruct partial_instance_ids as [|i ids]; [done|]. cbn [nonempty andb].
  rewrite (bind_ok _ _ _ _ _ _ E). unfold backoff_events, after_backoff.
  destruct (S attempt_count <? retries)%nat; cbn [when].
  - erewrite bind_ok; [|reflexivity]. by rewrite prepend_prepend.
  - erewrite bind_pure by reflexivity. by rewrite app_nil_r.
Qed.

Lemma loop_raised env fuel attempt_count instances partial_instance_ids w e w1 t1 :
  (attempt_count < retries)%nat -> partial_instance_ids <> [] ->
  _retrieve_instances_info_from_ec2 env partial_instance_ids w = (Raised e, w1, t1) ->
  get_instances_info_loop env (S fuel) attempt_count instances partial_instance_ids w
  = (Raised e, w1, t1).
Proof.
  intros Hlt Hne E. cbn [get_instances_info_loop].
  apply Nat.ltb_lt in Hlt. rewrite Hlt.
  destruct partial_instance_ids as [|i ids]; [done|]. cbn [nonempty andb].
  by rewrite (bind_raised _ _ _ _ _ _ E).
Qed.

(** The loop never runs out of fuel: any fuel above the remaining attempt
    budget gives the same run. *)
Lemma get_instances_info_loop_fuel env : forall fuel1 fuel2 attempt_count instances ids w,
  (retries - attempt_count <= fuel1)%nat ->
  (retries - attempt_count <= fuel2)%nat ->
  get_instances_info_loop env fuel1 attempt_count instances ids w
  = get_instances_info_loop env fuel2 attempt_count instances ids w.
Proof.
  induction fuel1 as [|fuel1 IH]; intros fuel2 n instances ids w H1 H2.
  - rewrite !loop_exit by (left; lia). reflexivity.
  - destruct (Nat.le_gt_cases retries n) as [Hge|Hlt].
    { rewrite !loop_exit by (left; lia). reflexivity. }
    destruct ids as [|i ids].
    { rewrite !loop_exit by (by right). reflexivity. }
    destruct fuel2 as [|fuel2]; [lia|].
    assert (i :: ids <> []) as Hne by done.
    destruct (_retrieve_instances_info_from_ec2 env (i :: ids) w) as [[[[c p]|e] w1] t1] eqn:E.
    + rewrite !(loop_step _ _ _ _ _ _ _ _ _ _ Hlt Hne E).
      f_equal. apply IH; lia.
    + rewrite !(loop_raised _ _ _ _ _ _ _ _ _ Hlt Hne E). reflexivity.
Qed.

Lemma timeline_app t1 t2 : timeline (t1 ++ t2) = timeline t1 ++ timeline t2.
Proof. apply List.filter_app. Qed.

Lemma timeline_retrieve_logs items : timeline (retrieve_logs items) = [].
Proof.
  induction items as [|info items IH]; [reflexivity|].
  unfold retrieve_logs. cbn [flat_map]. rewrite timeline_app. fold (retrieve_logs items).
  rewrite IH. by destruct (missing_key info).
Qed.

Lemma filter_complete_none items :
  Forall (fun info => complete info = false) items -> List.filter complete items = [].
Proof.
  induction 1 as [|info items H _ IH]; [reflexivity|]. cbn. by rewrite H.
Qed.

Lemma partial_ids_incomplete items :
  Forall (fun info => complete info = false) items ->
  forall i, In i (partial_ids items) <-> In (Some i) (map InstanceId items).
Proof.
  induction 1 as [|info items H _ IH]; intros i; [reflexivity|].
  unfold partial_ids. cbn [flat_map map]. rewrite H. fold (partial_ids items).
  rewrite in_app_iff, IH. cbn [In].
  destruct (InstanceId info) as [j|]; cbn [In]; intuition congruence.
Qed.

Lemma same_ids_nonempty q ids : same_ids q ids -> ids <> [] -> q <> [].
Proof.
  intros H Hne ->. destruct ids as [|i ids]; [done|]. by apply (H i); left.
Qed.

Lemma retrieve_never_resolves env ids q w :
  never_resolves env ids -> ids <> [] -> same_ids q ids ->
  exists p logs,
    _retrieve_instances_info_from_ec2 env q w
    = (Ok ([], p), describe_called w, DescribeInstances q :: logs) /\
    same_ids p ids /\ timeline logs = [].
Proof.
  intros Hnever Hne Hq.
  destruct (Hnever (describe_calls w) q Hq) as [Hitems Hall].
  pose proof (same_ids_nonempty q ids Hq Hne) as Hqne.
  assert (Forall has_instance_id (yielded (ec2_describe_instances env (describe_calls w) q))) as Hids.
  { eapply Forall_impl; [exact Hitems|]. intros info (_ & i & Hi & _). by exists i. }
  assert (Forall (fun info => complete info = false)
            (yielded (ec2_describe_instances env (describe_calls w) q))) as Hinc.
  { eapply Forall_impl; [exact Hitems|]. by intros info [? _]. }
  rewrite (retrieve_run env q w Hqne Hids), (filter_complete_none _ Hinc).
  eexists _, _. split; [reflexivity|]. split.
  - intros i. rewrite in_app_iff, (partial_ids_incomplete _ Hinc), <- (Hq i).
    split.
    + intros [Hin|Hin].
      * apply in_map_iff in Hin as (info & Hi & Hin).
        apply (proj1 (List.Forall_forall _ _) Hitems) in Hin as (_ & j & Hj & Hjq). congruence.
      * by destruct (fault _).
    + intros Hin. destruct (fault _) eqn:Hf; [by right|left]. by apply Hall.
  - rewrite timeline_app, timeline_retrieve_logs. by destruct (fault _).
Qed.

Lemma loop_step_never_resolves env ids fuel n instances q w :
  never_resolves env ids -> ids <> [] -> same_ids q ids -> (n < retries)%nat ->
  exists p logs,
    same_ids p ids /\ timeline logs = [] /\
    get_instances_info_loop env (S fuel) n instances q w
    = prepend (DescribeInstances q :: logs ++ backoff_events env (S n) (describe_called w))
        (get_instances_info_loop env fuel (S n) instances p
           (after_backoff (S n) (describe_called w))).
Proof.
  intros Hnever Hne Hq Hn.
  destruct (retrieve_never_resolves env ids q w Hnever Hne Hq) as (p & logs & E & Hp & Hlogs).
  exists p, logs. split; [done|]. split; [done|].
  rewrite (loop_step _ _ _ _ _ _ _ _ _ _ Hn (same_ids_nonempty q ids Hq Hne) E).
  by rewrite app_nil_r.
Qed.

Lemma backoff_increasing (n : nat) (j j' : Z) :
  (1 <= n)%nat -> 0 <= j < 500 -> 0 <= j' < 500 ->
  (backoff n j < backoff (S n) j')%Q.
Proof.
  intros Hn Hj Hj'. unfold backoff.
  rewrite Nat2Z.inj_succ, Z.pow_succ_r by lia.
  assert (2 <= 2 ^ Z.of_nat n) as Hpow.
  { change 2 with (2 ^ 1) at 1. apply Z.pow_le_mono_r; lia. }
  unfold Qlt, Qplus, Qmult, Qdiv, Qinv, inject_Z. cbn. nia.
Qed.

Lemma jitter_bounds (j : Z) :
  0 <= j < 500 -> (0 <= inject_Z j / inject_Z 1000 /\ inject_Z j / inject_Z 1000 < 1 # 2)%Q.
Proof.
  intros Hj. unfold Qle, Qlt, Qdiv, Qmult, Qinv, inject_Z. cbn. lia.
Qed.

(** C2. When the instance ids never resolve, the reconciliation makes exactly
    5 query attempts and returns no complete description and the original ids
    as unresolved; it waits 100ms before the first query and sleeps exactly 4
    times, between attempts and never after the last one, for
    [0.3 * 2^attempt + jitter] seconds, [attempt] counting from 1 and
    [jitter] lying in [[0, 0.5)]; the 4 durations are strictly increasing. *)
Theorem reconciliation_exhaustion (env : Env) (ids : list string) (w : World) :
  never_resolves env ids -> ids <> [] ->
  let duration (attempt jitter : Z) : Q :=
    ((3 # 10) * inject_Z (2 ^ attempt) + inject_Z jitter / inject_Z 1000)%Q in
  exists unresolved w' trace q2 q3 q4 q5 j1 j2 j3 j4,
    _get_instances_info env ids w = (Ok ([], unresolved), w', trace) /\
    same_ids unresolved ids /\
    describe_calls w' = (describe_calls w + 5)%nat /\
    timeline trace
    = [Sleep (1 # 10);
       DescribeInstances ids; Sleep (duration 1 j1);
       DescribeInstances q2; Sleep (duration 2 j2);
       DescribeInstances q3; Sleep (duration 3 j3);
       DescribeInstances q4; Sleep (duration 4 j4);
       DescribeInstances q5] /\
    Forall (fun q => same_ids q ids) [q2; q3; q4; q5] /\
    Forall (fun j => 0 <= j < 500 /\
                     (0 <= inject_Z j / inject_Z 1000 /\
                      inject_Z j / inject_Z 1000 < 1 # 2)%Q) [j1; j2; j3; j4] /\
    (duration 1%Z j1 == (6 # 10) + inject_Z j1 / inject_Z 1000 /\
     duration 2%Z j2 == (12 # 10) + inject_Z j2 / inject_Z 1000 /\
     duration 3%Z j3 == (24 # 10) + inject_Z j3 / inject_Z 1000 /\
     duration 4%Z j4 == (48 # 10) + inject_Z j4 / inject_Z 1000)%Q /\
    (duration 1%Z j1 < duration 2%Z j2 /\ duration 2%Z j2 < duration 3%Z j3 /\
     duration 3%Z j3 < duration 4%Z j4)%Q.
Proof.
  intros Hnever Hne duration. unfold _get_instances_info.
  erewrite bind_ok; [|reflexivity]. change (S retries) with 6%nat.
  assert (same_ids ids ids) as Hq1 by done.
  destruct (loop_step_never_resolves env ids 5 0 [] ids w Hnever Hne Hq1)
    as (q2 & l1 & Hq2 & Hl1 & ->); [unfold retries; lia|].
  set (w1 := after_backoff 1 (describe_called w)).
  destruct (loop_step_never_resolves env ids 4 1 [] q2 w1 Hnever Hne Hq2)
    as (q3 & l2 & Hq3 & Hl2 & ->); [unfold retries; lia|].
  set (w2 := after_backoff 2 (describe_called w1)).
  destruct (loop_step_never_resolves env ids 3 2 [] q3 w2 Hnever Hne Hq3)
    as (q4 & l3 & Hq4 & Hl3 & ->); [unfold retries; lia|].
  set (w3 := after_backoff 3 (describe_called w2)).
  destruct (loop_step_never_resolves env ids 2 3 [] q4 w3 Hnever Hne Hq4)
    as (q5 & l4 & Hq5 & Hl4 & ->); [unfold retries; lia|].
  set (w4 := after_backoff 4 (describe_called w3)).
  destruct (loop_step_never_resolves env ids 1 4 [] q5 w4 Hnever Hne Hq5)
    as (q6 & l5 & Hq6 & Hl5 & ->); [unfold retries; lia|].
  rewrite loop_exit by (left; unfold retries; lia).
  rewrite !prepend_prepend. unfold prepend. cbn [fst snd].
  set (j := fun k => entropy env k mod 500).
  assert (forall k, 0 <= j k < 500) as Hj by (intros k; apply Z.mod_pos_bound; lia).
  exists q6, (after_backoff 5 (describe_called w4)). eexists. exists q2, q3, q4, q5.
  exists (j (random_draws w)), (j (random_draws w1)), (j (random_draws w2)), (j (random_draws w3)).
  split; [reflexivity|]. split; [done|]. split; [cbn; lia|]. split.
  - rewrite !timeline_app. cbn [timeline List.filter is_log negb].
    fold (timeline l1) (timeline l2) (timeline l3) (timeline l4) (timeline l5).
    rewrite !timeline_app, Hl1, Hl2, Hl3, Hl4, Hl5. reflexivity.
  - split; [repeat apply Forall_cons_2; try apply Forall_nil_2; assumption|]. split.
    + repeat apply Forall_cons_2; try apply Forall_nil_2;
        (split; [apply Hj | apply jitter_bounds, Hj]).
    + split.
      * unfold duration. repeat split; field.
      * split; [|split].
        -- apply (backoff_increasing 1 (j (random_draws w)) (j (random_draws w1))); auto.
        -- apply (backoff_increasing 2 (j (random_draws w1)) (j (random_draws w2))); auto.
        -- apply (backoff_increasing 3 (j (random_draws w2)) (j (random_draws w3))); auto.
Qed.

Lemma reconciliation_exhaustion_witness :
  exists unresolved w' trace,
    _get_instances_info env_always_faulting ["i-1"] initial_world
    = (Ok ([], unresolved), w', trace) /\
    same_ids unresolved ["i-1"] /\ describe_calls w' = 5%nat /\
    length (timeline trace) = 10%nat.
Proof.
  destruct (reconciliation_exhaustion env_always_faulting ["i-1"] initial_world)
    as (unresolved & w' & trace & q2 & q3 & q4 & q5 & j1 & j2 & j3 & j4
        & Hrun & Hsame & Hcalls & Htimeline & _).
  - intros k q Hq. split; [constructor|discriminate].
  - discriminate.
  - exists unresolved, w', trace. rewrite Htimeline. auto.
Defined.

Lemma filter_complete_all items :
  Forall (fun info => complete info = true) items -> List.filter complete items = items.
Proof.
  induction 1 as [|info items H _ IH]; [reflexivity|]. cbn. by rewrite H, IH.
Qed.

Lemma partial_ids_complete items :
  Forall (fun info => complete info = true) items -> partial_ids items = [].
Proof.
  induction 1 as [|info items H _ IH]; [reflexivity|].
  unfold partial_ids. cbn [flat_map]. by rewrite H.
Qed.

Lemma complete_has_instance_id info : complete info = true -> has_instance_id info.
Proof.
  unfold complete, missing_key, has_instance_id.
  destruct (PrivateIpAddress info), (PrivateDnsName info), (InstanceId info); try done; eauto.
Qed.

(** C3, on the code.  When some of the instance ids resolve on the first
    query and the remainder on the second, the reconciliation returns every
    description as complete after exactly 2 queries, but it does not return
    at once: it still sleeps the backoff of attempt 2 before leaving the
    loop. *)
Theorem reconciliation_two_attempts
    (env : Env) (ids rest : list string) (items1 items2 : list instance_info) (w : World) :
  ids <> [] ->
  ec2_describe_instances env (describe_calls w) ids = {| yielded := items1; fault := None |} ->
  Forall has_instance_id items1 ->
  partial_ids items1 = rest -> rest <> [] ->
  ec2_describe_instances env (S (describe_calls w)) rest = {| yielded := items2; fault := None |} ->
  Forall (fun info => complete info = true) items2 ->
  exists trace,
    _get_instances_info env ids w
    = (Ok (List.filter complete items1 ++ items2, []),
       {| describe_calls := describe_calls w + 2; random_draws := random_draws w + 2 |},
       trace) /\
    timeline trace
    = [Sleep (1 # 10);
       DescribeInstances ids;
       Sleep (backoff 1 (entropy env (random_draws w) mod 500));
       DescribeInstances rest;
       Sleep (backoff 2 (entropy env (S (random_draws w)) mod 500))].
Proof.
  intros Hne E1 Hid1 Hrest Hrne E2 Hc2.
  unfold _get_instances_info. erewrite bind_ok; [|reflexivity]. change (S retries) with 6%nat.
  assert (_retrieve_instances_info_from_ec2 env ids w
          = (Ok (List.filter complete items1, rest), describe_called w,
             DescribeInstances ids :: retrieve_logs items1)) as R1.
  { rewrite retrieve_run by (rewrite ?E1; done). rewrite E1. cbn [yielded fault].
    by rewrite Hrest, !app_nil_r. }
  assert (0 < retries)%nat as H0 by (unfold retries; lia).
  assert (1 < retries)%nat as H1 by (unfold retries; lia).
  rewrite (loop_step env 5 0 [] ids w _ _ _ _ H0 Hne R1).
  set (w1 := after_backoff 1 (describe_called w)).
  assert (_retrieve_instances_info_from_ec2 env rest w1
          = (Ok (items2, []), describe_called w1,
             DescribeInstances rest :: retrieve_logs items2)) as R2.
  { assert (ec2_describe_instances env (describe_calls w1) rest
            = {| yielded := items2; fault := None |}) as E2' by exact E2.
    rewrite retrieve_run; rewrite ?E2'; cbn [yielded fault]; [|done|].
    - by rewrite filter_complete_all, partial_ids_complete, !app_nil_r.
    - eapply Forall_impl; [exact Hc2|]. apply complete_has_instance_id. }
  rewrite (loop_step env 4 1 _ rest w1 _ _ _ _ H1 Hrne R2).
  rewrite loop_exit by (by right).
  rewrite !prepend_prepend. unfold prepend. cbn [fst snd].
  eexists. split.
  - apply (f_equal2 pair); [apply (f_equal2 pair); [reflexivity|]|reflexivity].
    subst w1. unfold after_backoff, describe_called, random_drawn. cbn. f_equal; lia.
  - rewrite !timeline_app. cbn [timeline List.filter is_log negb].
    fold (timeline (retrieve_logs items1)) (timeline (retrieve_logs items2)).
    rewrite !timeline_retrieve_logs. reflexivity.
Qed.

Lemma reconciliation_two_attempts_witness :
  exists trace,
    _get_instances_info env_resolving_in_two_attempts ["i-1"; "i-2"] initial_world
    = (Ok ([described "i-1"; described "i-2"], []),
       {| describe_calls := 2; random_draws := 2 |}, trace) /\
    timeline trace
    = [Sleep (1 # 10); DescribeInstances ["i-1"; "i-2"]; Sleep (backoff 1 234);
       DescribeInstances ["i-2"]; Sleep (backoff 2 234)].
Proof.
  apply (reconciliation_two_attempts env_resolving_in_two_attempts
           ["i-1"; "i-2"] ["i-2"] [described "i-1"; pending "i-2"] [described "i-2"]
           initial_world).
  - discriminate.
  - reflexivity.
  - repeat constructor; eexists; reflexivity.
  - reflexivity.
  - discriminate.
  - reflexivity.
  - repeat constructor.
Defined.

(** C8, on the code.  When the describe call of an attempt faults after an
    id of that attempt was parsed, the resolved list keeps its description
    and the id is queried again with all the others, so it appears twice in
    the resolved descriptions: the two returned lists do not partition the
    input ids. *)
Theorem reconciliation_duplicates_after_fault :
  let run := _get_instances_info env_faulting_mid_iteration ["i-1"; "i-2"] initial_world in
  run.1.1 = Ok ([described "i-1"; described "i-1"; described "i-2"], []) /\
  timeline run.2
  = [Sleep (1 # 10); DescribeInstances ["i-1"; "i-2"]; Sleep (backoff 1 234);
     DescribeInstances ["i-1"; "i-2"]; Sleep (backoff 2 234)] /\
  ~ NoDup (map InstanceId [described "i-1"; described "i-1"; described "i-2"]).
Proof.
  cbv zeta. split; [vm_compute; reflexivity|]. split; [vm_compute; reflexivity|].
  intros H. apply NoDup_cons in H as [H _]. apply H. by left.
Qed.

(** The loop over the descriptions can only fail on a description that has
    no instance id. *)
Lemma sort_descriptions_raised items : forall s w e w' t,
  for_each items
    (fun '(complete_instances, partial_instance_ids) instance_info =>
       try_except
         (_ ← EC2Instance.from_describe_instance_data instance_info;
          ret (complete_instances ++ [instance_info], partial_instance_ids))
         (fun e =>
            match e with
            | KeyError _ =>
                log DEBUG (MsgUnableToRetrieveInstanceInfo e) ;;
                instance_id ← lookup_key "InstanceId" (InstanceId instance_info);
                ret (complete_instances, partial_instance_ids ++ [instance_id])
            | _ => raise e
            end))
    s w = (Raised e, w', t) ->
  e = KeyError "InstanceId".
Proof.
  induction items as [|info items IH]; intros [c p] w e w' t; [discriminate|].
  cbn [for_each]. intros H. apply bind_raised_inv in H as [H|(a & w1 & t1 & t2 & _ & H)].
  - cbv beta iota in H.
    assert (has_instance_id info \/ InstanceId info = None) as [Hi|Hi].
    { unfold has_instance_id. destruct (InstanceId info); eauto. }
    + rewrite sort_description_run in H by done. discriminate.
    + destruct (missing_key info) as [key|] eqn:Hk.
      * unfold try_except in H.
        rewrite (bind_raised _ _ _ _ _ _ (from_describe_incomplete info key w Hk)) in H.
        rewrite Hi in H. cbv in H. congruence.
      * unfold missing_key in Hk. rewrite Hi in Hk.
        by destruct (PrivateIpAddress info), (PrivateDnsName info).
  - by eapply IH.
Qed.

Lemma retrieve_raised env ids w e w' t :
  _retrieve_instances_info_from_ec2 env ids w = (Raised e, w', t) -> e = KeyError "InstanceId".
Proof.
  unfold _retrieve_instances_info_from_ec2. destruct (nonempty ids); [|discriminate].
  intros H. apply bind_raised_inv in H as [H|(r & w1 & t1 & t2 & _ & H)]; [discriminate|].
  apply bind_raised_inv in H as [H|([c p] & w2 & t3 & t4 & _ & H)].
  - by eapply sort_descriptions_raised.
  - by destruct (fault r).
Qed.

Lemma loop_raised_inv env : forall fuel n instances ids w e w' t,
  get_instances_info_loop env fuel n instances ids w = (Raised e, w', t) ->
  e = KeyError "InstanceId".
Proof.
  induction fuel as [|fuel IH]; intros n instances ids w e w' t; [discriminate|].
  cbn [get_instances_info_loop]. destruct (_ && _); [|discriminate].
  intros H. apply bind_raised_inv in H as [H|([c p] & w1 & t1 & t2 & _ & H)].
  - by eapply retrieve_raised.
  - apply bind_raised_inv in H as [H|(? & w2 & t3 & t4 & _ & H)].
    + destruct (S n <? retries)%nat; cbv in H; discriminate.
    + by eapply IH.
Qed.

Lemma get_instances_info_raised env ids w e w' t :
  _get_instances_info env ids w = (Raised e, w', t) -> e = KeyError "InstanceId".
Proof.
  unfold _get_instances_info. intros H.
  apply bind_raised_inv in H as [H|(? & w1 & t1 & t2 & _ & H)]; [discriminate|].
  by eapply loop_raised_inv.
Qed.

(** A query about a non-empty list of ids starts with the remote call. *)
Lemma loop_queries_first env fuel n instances ids w :
  (n < retries)%nat -> ids <> [] ->
  exists outcome w' rest,
    get_instances_info_loop env (S fuel) n instances ids w
    = (outcome, w', DescribeInstances ids :: rest).
Proof.
  intros Hn Hne. cbn [get_instances_info_loop].
  apply Nat.ltb_lt in Hn. rewrite Hn.
  destruct ids as [|i ids]; [done|]. cbn [nonempty andb].
  unfold _retrieve_instances_info_from_ec2 at 1. cbn [nonempty].
  match goal with |- context [mbind ?f (mbind ?g (describe_instances env ?q))] =>
    set (k1 := g); set (k2 := f) end.
  unfold mbind at 1 2, M_bind at 1 2. unfold describe_instances at 1.
  destruct (k1 _ _) as [[[a|e] w2] t2].
  - destruct (k2 a w2) as [[r w3] t3]. cbn [app]. eauto.
  - cbn [app]. eauto.
Qed.

(** C7. A transport/API fault of the describe call during reconciliation does
    not leave the loop: every id queried on that attempt is reported
    unresolved for that attempt, and the loop goes on with its next attempt
    (after the backoff) while the attempt budget lasts, ending normally when
    the faulting attempt was the last one. *)
Theorem describe_fault_is_absorbed (env : Env) :
  (forall ids w response,
      (_get_instances_info env ids w).1.1 <> Raised (ClientError response)) /\
  (forall fuel attempt instances ids w error,
      (attempt < retries)%nat -> ids <> [] ->
      let response := ec2_describe_instances env (describe_calls w) ids in
      fault response = Some error ->
      Forall has_instance_id (yielded response) ->
      let resolved := List.filter complete (yielded response) in
      let unresolved := partial_ids (yielded response) ++ ids in
      let attempt_trace :=
        DescribeInstances ids :: retrieve_logs (yielded response)
        ++ [Log DEBUG (MsgUnableToRetrieveInstanceInfo (ClientError error))] in
      _retrieve_instances_info_from_ec2 env ids w
      = (Ok (resolved, unresolved), describe_called w, attempt_trace) /\
      (forall i, In i ids -> In i unresolved) /\
      get_instances_info_loop env (S fuel) attempt instances ids w
      = prepend (attempt_trace ++ backoff_events env (S attempt) (describe_called w))
          (get_instances_info_loop env fuel (S attempt) (instances ++ resolved) unresolved
             (after_backoff (S attempt) (describe_called w))) /\
      ((S attempt < retries)%nat -> (0 < fuel)%nat ->
       exists outcome w' rest,
         get_instances_info_loop env (S fuel) attempt instances ids w
         = (outcome, w',
            attempt_trace
            ++ Sleep (backoff (S attempt) (entropy env (random_draws w) mod 500))
            :: DescribeInstances unresolved :: rest)) /\
      (S attempt = retries ->
       get_instances_info_loop env (S fuel) attempt instances ids w
       = (Ok (instances ++ resolved, unresolved), describe_called w, attempt_trace))).
Proof.
  split.
  - intros ids w response H.
    destruct (_get_instances_info env ids w) as [[r w'] t] eqn:E. cbn in H. subst r.
    apply get_instances_info_raised in E. discriminate.
  - intros fuel attempt instances ids w error Hn Hne response Hf Hids resolved unresolved
      attempt_trace.
    assert (_retrieve_instances_info_from_ec2 env ids w
            = (Ok (resolved, unresolved), describe_called w, attempt_trace)) as R.
    { rewrite retrieve_run by done. fold response. by rewrite Hf. }
    assert (unresolved <> []) as Hune.
    { unfold unresolved. destruct ids; [done|]. by destruct (partial_ids _). }
    pose proof (loop_step env fuel attempt instances ids w _ _ _ _ Hn Hne R) as Hstep.
    split; [exact R|]. split; [|split; [exact Hstep|split]].
    + intros i Hi. apply in_app_iff. by right.
    + intros Hnext Hfuel. destruct fuel as [|fuel]; [lia|].
      destruct (loop_queries_first env fuel (S attempt) (instances ++ resolved) unresolved
                  (after_backoff (S attempt) (describe_called w)) Hnext Hune)
        as (outcome & w' & rest & E).
      rewrite Hstep, E. unfold prepend, backoff_events. cbn [fst snd].
      apply Nat.ltb_lt in Hnext. rewrite Hnext.
      exists outcome, w', rest. by rewrite <- app_assoc.
    + intros Hlast. rewrite Hstep, loop_exit by (left; lia).
      unfold prepend, backoff_events, after_backoff. cbn [fst snd].
      assert ((S attempt <? retries)%nat = false) as -> by (apply Nat.ltb_ge; lia).
      by rewrite !app_nil_r.
Qed.

Lemma describe_fault_is_absorbed_witness :
  _retrieve_instances_info_from_ec2 env_always_faulting ["i-1"] initial_world
  = (Ok ([], ["i-1"]), {| describe_calls := 1; random_draws := 0 |},
     [DescribeInstances ["i-1"];
      Log DEBUG (MsgUnableToRetrieveInstanceInfo (ClientError throttled))]) /\
  exists outcome w' rest,
    get_instances_info_loop env_always_faulting 6 0 [] ["i-1"] initial_world
    = (outcome, w',
       [DescribeInstances ["i-1"];
        Log DEBUG (MsgUnableToRetrieveInstanceInfo (ClientError throttled))]
       ++ Sleep (backoff 1 (1234 mod 500)) :: DescribeInstances ["i-1"] :: rest).
Proof.
  destruct (describe_fault_is_absorbed env_always_faulting) as [_ H].
  destruct (H 5%nat 0%nat [] ["i-1"] initial_world throttled) as (R & _ & _ & Hnext & _).
  - unfold retries. lia.
  - discriminate.
  - reflexivity.
  - constructor.
  - split; [exact R|]. apply Hnext; unfold retries; lia.
Defined.
End Reconciliation.

(** ** Strategy B: the launch *)

Section CreateFleetLaunch.
Import Ec2CreateFleetManager.

Lemma evaluate_launch_params_emits (self : FleetManager) (count : Z) :
  emits is_shaping_log (_evaluate_launch_params self count).
Proof.
  unfold _evaluate_launch_params, shape_launch_params, _evaluate_template_overrides,
    _uses_single_instance_type.
  repeat emits_step.
Qed.

Lemma create_fleet_inv env region boto3_config kwargs w r w' t :
  create_fleet env region boto3_config kwargs w = (r, w', t) ->
  w' = w /\ Forall (fun e => is_call_event e = true) t.
Proof.
  unfold create_fleet. destruct (overrides_create_fleet env) as [override|]; run.
  - destruct (override kwargs) as [e|response]; [destruct e|];
      try destruct (ec2_create_fleet env kwargs);
      intros [= <- <- <-]; by repeat constructor.
  - destruct (ec2_create_fleet env kwargs); intros [= <- <- <-]; by repeat constructor.
Qed.

Lemma call_event_no_reconciliation e :
  is_call_event e = true -> no_reconciliation_event e = true /\ is_sleep e = false.
Proof. destruct e as [| | | |lvl msg| |]; try done. by destruct lvl, msg. Qed.

Lemma log_errors_run {A} lvl (message : A -> log_message) (errors : list A) w :
  for_each errors (fun _ err => log lvl (message err)) tt w
  = (Ok tt, w, map (fun err => Log lvl (message err)) errors).
Proof.
  induction errors as [|err errors IH]; [reflexivity|]. cbn [for_each map].
  erewrite bind_ok; [|reflexivity]. by rewrite IH.
Qed.

Lemma flatten_no_ids (instances : list fleet_instance) w :
  Forall (fun instance => InstanceIds instance = Some []) instances ->
  for_each instances
    (fun instance_ids instance =>
       ids ← lookup_key "InstanceIds" (InstanceIds instance);
       ret (instance_ids ++ ids))
    [] w
  = (Ok [], w, []).
Proof.
  induction 1 as [|instance instances H _ IH]; [reflexivity|]. cbn [for_each].
  rewrite H. erewrite bind_pure by reflexivity. exact IH.
Qed.

Lemma shaping_log_no_reconciliation e :
  is_shaping_log e = true -> no_reconciliation_event e = true /\ is_sleep e = false.
Proof. destruct e as [| | | |lvl msg| |]; try discriminate. by destruct lvl, msg. Qed.

(** C10. When the fleet launch of strategy B succeeds but its response holds
    no instance id, the launch returns the empty sequence without raising:
    no describe query is issued (only the fixed initial delay is slept), no
    id is reported unresolved and the summary of launched instances is not
    logged. *)
Theorem launch_without_instance_ids
    (env : Env) (self : FleetManager) (count : Z) (job_id : option string) (w : World)
    (launch_params : dict) (w1 w2 : World) (shaping_logs call_events : list event)
    (response : create_fleet_response) :
  class self = Ec2CreateFleetManager ->
  _evaluate_launch_params self count w = (Ok launch_params, w1, shaping_logs) ->
  create_fleet env (_region self) (_boto3_config self) launch_params w1
  = (Ok response, w2, call_events) ->
  Forall (fun instance => InstanceIds instance = Some [])
         (default [] (fleet_Instances response)) ->
  let error_logs :=
    map (fun err =>
           Log (if nonempty (default [] (fleet_Instances response)) then WARNING else ERROR)
               (MsgErrorInCreateFleetRequest (default None (fleet_ResponseMetadata response))
                  (ErrorCode err) (ErrorMessage err)))
        (default [] (fleet_Errors response)) in
  let trace :=
    filter_enter job_id ++ shaping_logs ++ call_events
    ++ [Log DEBUG (MsgCreateFleetResponse response)] ++ error_logs
    ++ [Sleep (1 # 10)] ++ filter_exit job_id in
  FleetManager.launch_ec2_instances env self count job_id w = (Ok [], w, trace) /\
  (forall ids, ~ In (DescribeInstances ids) trace) /\
  List.filter is_sleep trace = [Sleep (1 # 10)] /\
  (forall ids, ~ In (Log ERROR (MsgUnableToRetrieveInstanceInfoFor ids)) trace) /\
  (forall ids, ~ In (Log INFO (MsgLaunchedInstances ids)) trace).
Proof.
  intros Hclass Hshape Hcall Hids error_logs trace.
  destruct (evaluate_launch_params_emits self count _ _ _ _ Hshape) as [-> Hlogs].
  destruct (create_fleet_inv _ _ _ _ _ _ _ _ Hcall) as [-> Hevents].
  assert (_launch_instances env self launch_params w
          = (Ok {| nodes_Instances := Some [] |}, w,
             call_events
             ++ [Log DEBUG (MsgCreateFleetResponse response)] ++ error_logs
             ++ [Sleep (1 # 10)])) as Hlaunch.
  { unfold _launch_instances, try_except.
    rewrite (bind_ok _ _ _ _ _ _ Hcall).
    erewrite bind_ok; [|reflexivity].
    erewrite bind_ok; [|apply log_errors_run].
    erewrite bind_pure; [|by apply flatten_no_ids].
    erewrite bind_ok; [|reflexivity]. cbn [nonempty when].
    erewrite bind_pure by reflexivity.
    rewrite !prepend_prepend. unfold prepend, ret, mret, M_ret. cbn [fst snd].
    by rewrite ?app_nil_r, <- ?app_assoc. }
  assert ((launch_params ← FleetManager._evaluate_launch_params self count;
           assigned_nodes ← FleetManager._launch_instances env self launch_params;
           instances ← match nodes_Instances assigned_nodes with
                       | Some instances => ret instances
                       | None => raise TypeError
                       end;
           when (0 <? length instances)%nat
                (log INFO (MsgLaunchedInstances
                             (map (fun instance => default "" (InstanceId instance)) instances)) ;;
                 log DEBUG (MsgFullLaunchedInstancesInformation instances)) ;;
           ret assigned_nodes) w
          = (Ok {| nodes_Instances := Some [] |}, w,
             shaping_logs ++ call_events
             ++ [Log DEBUG (MsgCreateFleetResponse response)] ++ error_logs
             ++ [Sleep (1 # 10)])) as Hbody.
  { unfold FleetManager._evaluate_launch_params, FleetManager._launch_instances.
    rewrite Hclass. rewrite (bind_ok _ _ _ _ _ _ Hshape), (bind_ok _ _ _ _ _ _ Hlaunch).
    cbn [nodes_Instances]. erewrite bind_pure by reflexivity.
    cbn [length Nat.ltb Nat.leb when]. erewrite bind_pure by reflexivity.
    rewrite prepend_prepend. unfold prepend, ret, mret, M_ret. cbn [fst snd].
    by rewrite ?app_nil_r, <- ?app_assoc. }
  split.
  - unfold FleetManager.launch_ec2_instances, FleetManager.with_job_id_filter, trace,
      filter_enter, filter_exit.
    destruct job_id as [job|]; [destruct (negb (String.eqb job ""))|].
    + erewrite bind_ok; cycle 1.
      { erewrite bind_ok; [|reflexivity]. unfold finally. rewrite Hbody.
        unfold prepend. cbn [fst snd]. reflexivity. }
      unfold prepend. cbn [fst snd nodes_Instances lookup_key list_comprehension].
      erewrite bind_pure by reflexivity. unfold ret, mret, M_ret.
      by rewrite ?app_nil_r, <- ?app_assoc.
    + rewrite (bind_ok _ _ _ _ _ _ Hbody).
      unfold prepend. cbn [fst snd nodes_Instances lookup_key list_comprehension].
      erewrite bind_pure by reflexivity. unfold ret, mret, M_ret. cbn [fst snd app].
      by rewrite ?app_nil_r, <- ?app_assoc.
    + rewrite (bind_ok _ _ _ _ _ _ Hbody).
      unfold prepend. cbn [fst snd nodes_Instances lookup_key list_comprehension].
      erewrite bind_pure by reflexivity. unfold ret, mret, M_ret. cbn [fst snd app].
      by rewrite ?app_nil_r, <- ?app_assoc.
  - assert (Forall (fun e => no_reconciliation_event e = true) trace) as Hfree.
    { unfold trace, filter_enter, filter_exit. repeat apply Forall_app_2.
      - destruct job_id as [job|]; [destruct (negb _)|]; by repeat constructor.
      - eapply Forall_impl; [exact Hlogs|]. intros e He. by apply shaping_log_no_reconciliation.
      - eapply Forall_impl; [exact Hevents|]. intros e He. by apply call_event_no_reconciliation.
      - by repeat constructor.
      - unfold error_logs. apply List.Forall_forall. intros e He.
        apply in_map_iff in He as (err & <- & _). by destruct (nonempty _).
      - by repeat constructor.
      - destruct job_id as [job|]; [destruct (negb _)|]; by repeat constructor. }
    split; [|split; [|split]].
    + intros ids. by apply (not_in_forall _ _ _ Hfree).
    + unfold trace. rewrite !List.filter_app.
      rewrite (filter_none is_sleep shaping_logs),
        (filter_none is_sleep error_logs), (filter_none is_sleep (filter_enter job_id)),
        (filter_none is_sleep (filter_exit job_id)),
        (filter_none is_sleep call_events); [reflexivity|..].
      * eapply Forall_impl; [exact Hevents|]. intros e He. by apply call_event_no_reconciliation.
      * unfold filter_exit. destruct job_id as [job|]; [destruct (negb _)|]; by repeat constructor.
      * unfold filter_enter. destruct job_id as [job|]; [destruct (negb _)|]; by repeat constructor.
      * unfold error_logs. apply List.Forall_forall. intros e He.
        by apply in_map_iff in He as (err & <- & _).
      * eapply Forall_impl; [exact Hlogs|]. intros e He. by apply shaping_log_no_reconciliation.
    + intros ids. by apply (not_in_forall _ _ _ Hfree).
    + intros ids. by apply (not_in_forall _ _ _ Hfree).
Qed.

Lemma launch_without_instance_ids_witness :
  exists trace,
    FleetManager.launch_ec2_instances env_insufficient_capacity
      (example_manager Ec2CreateFleetManager "on-demand" false) 3 (Some "42") initial_world
    = (Ok [], initial_world, trace) /\
    List.filter is_sleep trace = [Sleep (1 # 10)] /\
    (forall ids, ~ In (DescribeInstances ids) trace) /\
    (forall ids, ~ In (Log INFO (MsgLaunchedInstances ids)) trace).
Proof.
  edestruct (launch_without_instance_ids env_insufficient_capacity
               (example_manager Ec2CreateFleetManager "on-demand" false) 3 (Some "42")
               initial_world)
    as (Hrun & Hdescribe & Hsleep & _ & Hsummary).
  - reflexivity.
  - vm_compute. reflexivity.
  - vm_compute. reflexivity.
  - constructor.
  - eexists. split; [exact Hrun|]. split; [exact Hsleep|].
    split; [exact Hdescribe|exact Hsummary].
Defined.
End CreateFleetLaunch.

(** * Further properties *)

(** ** Dicts *)

Lemma dict_get_set_eq k v (d : dict) : Dict.get k (Dict.set k v d) = Some v.
Proof.
  induction d as [|[k' v'] d IH]; cbn.
  - by rewrite String.eqb_refl.
  - destruct (String.eqb k k') eqn:E; cbn; rewrite ?String.eqb_refl, ?E; done.
Qed.

Lemma dict_get_set_ne k k' v (d : dict) :
  k <> k' -> Dict.get k' (Dict.set k v d) = Dict.get k' d.
Proof.
  intros Hne. induction d as [|[k0 v0] d IH]; cbn.
  - apply not_eq_sym, String.eqb_neq in Hne. by rewrite Hne.
  - destruct (String.eqb k k0) eqn:E; cbn.
    + apply String.eqb_eq in E as <-.
      apply not_eq_sym, String.eqb_neq in Hne. by rewrite Hne.
    + by rewrite IH.
Qed.

Lemma dict_get_update_absent k (o : dict) : forall d,
  Dict.get k o = None -> Dict.get k (Dict.update d o) = Dict.get k d.
Proof.
  induction o as [|[k0 v0] o IH]; intros d H; [reflexivity|].
  cbn in H. destruct (String.eqb k k0) eqn:E; [discriminate|].
  change (Dict.update d ((k0, v0) :: o)) with (Dict.update (Dict.set k0 v0 d) o).
  rewrite IH by done. apply dict_get_set_ne. apply String.eqb_neq in E. congruence.
Qed.

Lemma dict_get_not_in k (o : dict) : ~ In k (map fst o) -> Dict.get k o = None.
Proof.
  induction o as [|[k0 v0] o IH]; intros H; [reflexivity|]. cbn in *.
  destruct (String.eqb k k0) eqn:E.
  - apply String.eqb_eq in E. intuition congruence.
  - apply IH. tauto.
Qed.

Lemma dict_get_update_present k v (o : dict) : forall d,
  unique_keys o -> Dict.get k o = Some v -> Dict.get k (Dict.update d o) = Some v.
Proof.
  induction o as [|[k0 v0] o IH]; intros d Hu H; [discriminate|].
  apply NoDup_cons in Hu as [Hk0 Hu].
  change (Dict.update d ((k0, v0) :: o)) with (Dict.update (Dict.set k0 v0 d) o).
  cbn in H. destruct (String.eqb k k0) eqn:E.
  - apply String.eqb_eq in E as ->. injection H as ->.
    rewrite dict_get_update_absent; [apply dict_get_set_eq|].
    apply dict_get_not_in. intros Hin. apply Hk0. by apply list_elem_of_In.
  - by apply IH.
Qed.

(** X1. The caller's overrides take precedence in both request shapers: a
    key bound in the overrides has the overrides' value in the returned
    parameters, and every other key has the value shaping computed. *)
Theorem overrides_take_precedence (self : FleetManager) (count : Z) (w : World) :
  unique_keys (_launch_overrides self) ->
  (exists logs,
      Ec2RunInstancesManager._evaluate_launch_params self count w
      = (Ok (Dict.update (Ec2RunInstancesManager.default_launch_params self count)
               (_launch_overrides self)), w, logs)) /\
  (forall shaped w' logs,
      Ec2CreateFleetManager.shape_launch_params self count w = (Ok shaped, w', logs) ->
      exists more,
        Ec2CreateFleetManager._evaluate_launch_params self count w
        = (Ok (Dict.update shaped (_launch_overrides self)), w', logs ++ more)) /\
  (forall shaped key,
      (forall v, Dict.get key (_launch_overrides self) = Some v ->
                 Dict.get key (Dict.update shaped (_launch_overrides self)) = Some v) /\
      (Dict.get key (_launch_overrides self) = None ->
       Dict.get key (Dict.update shaped (_launch_overrides self)) = Dict.get key shaped)).
Proof.
  intros Hu. split; [|split].
  - unfold Ec2RunInstancesManager._evaluate_launch_params.
    destruct (_launch_overrides self); cbn; eauto.
  - intros shaped w' logs E. unfold Ec2CreateFleetManager._evaluate_launch_params, try_except.
    erewrite bind_ok; [|by rewrite E].
    destruct (_launch_overrides self); cbn; eauto.
  - intros shaped key. split.
    + intros v. by apply dict_get_update_present.
    + apply dict_get_update_absent.
Qed.

Lemma overrides_take_precedence_witness :
  let self :=
    {| class := Ec2RunInstancesManager; _cluster_name := "hit"; _region := "us-east-1";
       _boto3_config := "default"; _queue := "queue1"; _compute_resource := "fleet";
       _compute_resource_config := example_config "run-instances" "on-demand";
       _all_or_nothing := true;
       _launch_overrides := [("MinCount", VInt 2); ("KeyName", VStr "admin")] |} in
  exists params logs,
    Ec2RunInstancesManager._evaluate_launch_params self 5 initial_world
    = (Ok params, initial_world, logs) /\
    Dict.get "MinCount" params = Some (VInt 2) /\
    Dict.get "MaxCount" params = Some (VInt 5).
Proof.
  intros self.
  destruct (overrides_take_precedence self 5 initial_world) as ([logs E] & _ & H).
  - apply (bool_decide_unpack _). vm_compute. exact I.
  - eexists _, logs. split; [exact E|]. split.
    + by apply (H (Ec2RunInstancesManager.default_launch_params self 5) "MinCount").
    + destruct (H (Ec2RunInstancesManager.default_launch_params self 5) "MaxCount") as [_ ->];
        reflexivity.
Defined.

(** ** The instance record *)

Section InstanceRecordMore.
Import EC2Instance.

(** X2. Equality of instance records is an equivalence relation, no record
    equals an object of another type, and equal records have equal hashes. *)
Theorem eq_is_an_equivalence (py_hash : string -> Z) :
  (forall a, __eq__ a (Instance a) = true) /\
  (forall a b, __eq__ a (Instance b) = __eq__ b (Instance a)) /\
  (forall a b c, __eq__ a (Instance b) = true -> __eq__ b (Instance c) = true ->
                 __eq__ a (Instance c) = true) /\
  (forall a v, __eq__ a (Other v) = false) /\
  (forall a b, __eq__ a (Instance b) = true -> __hash__ py_hash a = __hash__ py_hash b).
Proof.
  unfold __eq__. split; [|split; [|split; [|split]]].
  - intros a. by apply bool_decide_eq_true.
  - intros a b. apply bool_decide_ext. split; congruence.
  - intros a b c H1%bool_decide_eq_true_1 H2%bool_decide_eq_true_1.
    apply bool_decide_eq_true_2. congruence.
  - reflexivity.
  - intros a b. rewrite bool_decide_eq_true, dict_eq_iff. by intros ->.
Qed.

Lemma eq_is_an_equivalence_witness :
  let a := __init__ "i-1" "10.0.0.1" "ip-10-0-0-1" 1650000000 in
  let b := {| id := "i-1"; private_ip := "10.0.0.1"; hostname := "ip-10-0-0-1";
              launch_time := 1650000000; slurm_node := None |} in
  __eq__ a (Instance b) = true /\
  __hash__ (fun s => Z.of_nat (String.length s)) a
  = __hash__ (fun s => Z.of_nat (String.length s)) b.
Proof.
  intros a b. destruct (eq_is_an_equivalence (fun s => Z.of_nat (String.length s)))
    as (Hrefl & _ & _ & _ & Hhash).
  split; [apply Hrefl|]. apply Hhash. reflexivity.
Defined.
End InstanceRecordMore.

Section Parsing.
Import EC2Instance.

Lemma before_first_dot_no_dot s : has_dot (before_first_dot s) = false.
Proof.
  induction s as [|c s IH]; [reflexivity|]. cbn.
  destruct (Ascii.eqb c ".") eqn:E; [reflexivity|]. cbn. by rewrite E.
Qed.

Lemma before_first_dot_prefix a b :
  has_dot a = false -> before_first_dot (a +:+ "." +:+ b) = a.
Proof.
  induction a as [|c a IH]; [reflexivity|]. cbn.
  destruct (Ascii.eqb c ".") eqn:E; [discriminate|]. cbn.
  intros H. change (String c a +:+ "." +:+ b) with (String c (a +:+ "." +:+ b)).
  cbn. by rewrite E, IH.
Qed.

Lemma before_first_dot_id s : has_dot s = false -> before_first_dot s = s.
Proof.
  induction s as [|c s IH]; [reflexivity|]. cbn.
  destruct (Ascii.eqb c ".") eqn:E; [discriminate|]. cbn. intros H. by rewrite IH.
Qed.

Lemma from_describe_run info w :
  missing_key info = None ->
  from_describe_instance_data info w = (Ok (instance_record info), w, []).
Proof.
  unfold missing_key, from_describe_instance_data, get_private_ip_address_and_dns_name,
    instance_record.
  destruct (PrivateIpAddress info), (PrivateDnsName info), (InstanceId info), (LaunchTime info);
    try discriminate.
  reflexivity.
Qed.

(** X3. A raw description is parsed into a record iff its four required
    fields are present; the record then carries the id, the private IP, the
    launch time and no scheduler node.  Otherwise the [KeyError] of the first
    absent field, in the order private IP, private DNS name, instance id,
    launch time, is logged once as an error and raised. *)
Theorem from_describe_instance_data_spec (info : instance_info) (w : World) :
  (forall instance_id ip dns launch,
      InstanceId info = Some instance_id -> PrivateIpAddress info = Some ip ->
      PrivateDnsName info = Some dns -> LaunchTime info = Some launch ->
      from_describe_instance_data info w
      = (Ok {| id := instance_id; private_ip := ip; hostname := before_first_dot dns;
               launch_time := launch; slurm_node := None |}, w, [])) /\
  (forall key,
      (PrivateIpAddress info = None /\ key = "PrivateIpAddress") \/
      (is_Some (PrivateIpAddress info) /\ PrivateDnsName info = None /\
       key = "PrivateDnsName") \/
      (is_Some (PrivateIpAddress info) /\ is_Some (PrivateDnsName info) /\
       InstanceId info = None /\ key = "InstanceId") \/
      (is_Some (PrivateIpAddress info) /\ is_Some (PrivateDnsName info) /\
       is_Some (InstanceId info) /\ LaunchTime info = None /\ key = "LaunchTime") ->
      from_describe_instance_data info w
      = (Raised (KeyError key), w,
         [Log ERROR (MsgUnableToRetrieveEC2InstanceInfo (KeyError key))])) /\
  (forall instance w' t,
      from_describe_instance_data info w = (Ok instance, w', t) ->
      is_Some (InstanceId info) /\ is_Some (PrivateIpAddress info) /\
      is_Some (PrivateDnsName info) /\ is_Some (LaunchTime info)).
Proof.
  split; [|split].
  - intros i ip dns lt Hi Hip Hdns Hlt.
    rewrite from_describe_run by (unfold missing_key; by rewrite Hi, Hip, Hdns, Hlt).
    unfold instance_record. by rewrite Hi, Hip, Hdns, Hlt.
  - intros key H. apply from_describe_incomplete. unfold missing_key.
    destruct H as [[-> ->]|[([ip ->] & -> & ->)|[([ip ->] & [dns ->] & -> & ->)
                  |([ip ->] & [dns ->] & [i ->] & -> & ->)]]]; reflexivity.
  - intros instance w' t H.
    destruct (missing_key info) as [key|] eqn:Hk.
    + rewrite (from_describe_incomplete info key w Hk) in H. discriminate.
    + unfold missing_key in Hk.
      destruct (PrivateIpAddress info), (PrivateDnsName info), (InstanceId info),
        (LaunchTime info); try discriminate; eauto.
Qed.

Lemma from_describe_instance_data_spec_witness :
  from_describe_instance_data (described "i-1") initial_world
  = (Ok {| id := "i-1"; private_ip := "10.0.0.1"; hostname := "ip-10-0-0-1";
           launch_time := 1650000000; slurm_node := None |}, initial_world, []) /\
  from_describe_instance_data (pending "i-2") initial_world
  = (Raised (KeyError "PrivateIpAddress"), initial_world,
     [Log ERROR (MsgUnableToRetrieveEC2InstanceInfo (KeyError "PrivateIpAddress"))]).
Proof.
  split.
  - destruct (from_describe_instance_data_spec (described "i-1") initial_world) as [H _].
    exact (H "i-1" "10.0.0.1" "ip-10-0-0-1.ec2.internal" 1650000000
             eq_refl eq_refl eq_refl eq_refl).
  - destruct (from_describe_instance_data_spec (pending "i-2") initial_world) as (_ & H & _).
    apply H. left. split; reflexivity.
Defined.

(** X4. The hostname of a parsed record is the private DNS name up to its
    first dot: it never contains a dot, it is the first label of a dotted
    name, and a name without a dot is kept whole. *)
Theorem hostname_is_first_label (info : instance_info) (w w' : World) (t : list event)
    (instance : EC2Instance.t) :
  from_describe_instance_data info w = (Ok instance, w', t) ->
  has_dot (hostname instance) = false /\
  (forall label rest,
      PrivateDnsName info = Some (label +:+ "." +:+ rest) -> has_dot label = false ->
      hostname instance = label) /\
  (forall name,
      PrivateDnsName info = Some name -> has_dot name = false -> hostname instance = name).
Proof.
  intros H.
  destruct (missing_key info) as [key|] eqn:Hk.
  { rewrite (from_describe_incomplete info key w Hk) in H. discriminate. }
  rewrite from_describe_run in H by done. injection H as <- <- <-.
  unfold instance_record, __init__. cbn [hostname]. split; [|split].
  - apply before_first_dot_no_dot.
  - intros label rest -> Hl. by apply before_first_dot_prefix.
  - intros name -> Hn. by apply before_first_dot_id.
Qed.

Lemma hostname_is_first_label_witness :
  from_describe_instance_data (described "i-1") initial_world
  = (Ok (instance_record (described "i-1")), initial_world, []) /\
  hostname (instance_record (described "i-1")) = "ip-10-0-0-1".
Proof.
  split; [reflexivity|].
  destruct (hostname_is_first_label (described "i-1") initial_world initial_world []
              (instance_record (described "i-1")) eq_refl) as (_ & Hlabel & _).
  exact (Hlabel "ip-10-0-0-1" "ec2.internal" eq_refl eq_refl).
Defined.
End Parsing.

Section Raises.
Context (Q : exn -> Prop).

Lemma raises_ret {A} (a : A) : raises Q (ret a).
Proof. intros w e w' t. discriminate. Qed.

Lemma raises_lookup_key {A} key (field : option A) :
  Q (KeyError key) -> raises Q (lookup_key key field).
Proof. intros H w e w' t. destruct field; [discriminate|]. by intros [= <- <- <-]. Qed.

Lemma raises_log lvl msg : raises Q (log lvl msg).
Proof. intros w e w' t. discriminate. Qed.

Lemma raises_when b (m : M unit) : raises Q m -> raises Q (when b m).
Proof. destruct b; [done|]. intros _. apply raises_ret. Qed.

Lemma raises_bind {A B} (m : M A) (f : A -> M B) :
  raises Q m -> (forall a, raises Q (f a)) -> raises Q (m ≫= f).
Proof.
  intros Hm Hf w e w' t H.
  apply bind_raised_inv in H as [H|(a & w1 & t1 & t2 & _ & H)]; [by eapply Hm|by eapply Hf].
Qed.

Lemma raises_for_each {A S} (xs : list A) (body : S -> A -> M S) :
  (forall s x, raises Q (body s x)) -> forall s, raises Q (for_each xs body s).
Proof.
  intros Hbody. induction xs as [|x xs IH]; intros s; cbn [for_each].
  - apply raises_ret.
  - apply raises_bind; [apply Hbody|apply IH].
Qed.
End Raises.

Ltac raises_step :=
  first
    [ apply raises_ret | apply raises_log
    | apply raises_lookup_key; (eexists; split; [|reflexivity]; cbn; tauto)
    | apply raises_when
    | apply raises_bind; [|intros ?]
    | apply raises_for_each; intros ? ?
    | match goal with
      | |- raises _ (match ?x with _ => _ end) => destruct x
      | |- raises _ ((match ?x with _ => _ end) _) => destruct x; cbv beta
      end ].

Section ShapingMore.
Import Ec2CreateFleetManager.

Lemma shape_launch_params_raises (self : FleetManager) (count : Z) :
  raises (fun e => exists key, In key shaping_keys /\ e = KeyError key)
         (shape_launch_params self count).
Proof.
  unfold shape_launch_params, _evaluate_template_overrides, _uses_single_instance_type.
  repeat raises_step.
Qed.

Lemma missing_key_message_eq (self : FleetManager) key :
  "Unable to find key " +:+ repr_str key +:+ " in the configuration of queue: "
  +:+ _queue self +:+ ", compute resource " +:+ _compute_resource self
  = missing_key_message self key.
Proof. unfold repr_str, missing_key_message. by rewrite !append_assoc. Qed.

(** X5. Request shaping of strategy B never lets a [KeyError] out: whenever
    it fails, the exception is the [FleetManagerException] whose message
    names a configuration key shaping reads, the queue and the compute
    resource; this message is the last record logged, as an error, and the
    world is untouched.  A missing [AllocationStrategy] is the first key
    reported. *)
Theorem shaping_failure_names_the_key (self : FleetManager) (count : Z) (w : World) :
  (forall e w' t,
      _evaluate_launch_params self count w = (Raised e, w', t) ->
      exists key logs,
        In key shaping_keys /\
        e = FleetManagerException (missing_key_message self key) /\
        w' = w /\
        t = logs ++ [Log ERROR (MsgText (missing_key_message self key))]) /\
  (AllocationStrategy (_compute_resource_config self) = None ->
   _evaluate_launch_params self count w
   = (Raised (FleetManagerException (missing_key_message self "AllocationStrategy")), w,
      [Log ERROR (MsgText (missing_key_message self "AllocationStrategy"))])).
Proof.
  split.
  - intros e w' t H.
    destruct (evaluate_launch_params_emits self count _ _ _ _ H) as [-> _].
    unfold _evaluate_launch_params in H.
    apply bind_raised_inv in H as [H|(a & w1 & t1 & t2 & _ & H)].
    + unfold try_except in H.
      destruct (shape_launch_params self count w) as [[[shaped|e0] w1] t1] eqn:Es;
        [discriminate|].
      destruct (shape_launch_params_raises self count _ _ _ _ Es) as (key & Hkey & ->).
      cbn in H. rewrite missing_key_message_eq in H.
      injection H as <- <- <-. by exists key, t1.
    + exfalso. revert H. apply (raises_bind (fun _ => False)); [|intros ?; apply raises_ret].
      apply raises_when, raises_log.
  - intros Ha. unfold _evaluate_launch_params, shape_launch_params, try_except.
    rewrite Ha. run. by rewrite missing_key_message_eq.
Qed.

Lemma shaping_failure_names_the_key_witness :
  let self :=
    {| class := Ec2CreateFleetManager; _cluster_name := "hit"; _region := "us-east-1";
       _boto3_config := "default"; _queue := "queue1"; _compute_resource := "fleet";
       _compute_resource_config :=
         {| Api := Some "create-fleet"; CapacityType := Some "spot";
            AllocationStrategy := None; MaxPrice := None; Instances := None;
            Networking := None |};
       _all_or_nothing := true; _launch_overrides := [] |} in
  _evaluate_launch_params self 3 initial_world
  = (Raised (FleetManagerException
               "Unable to find key 'AllocationStrategy' in the configuration of queue: queue1, compute resource fleet"),
     initial_world,
     [Log ERROR (MsgText
        "Unable to find key 'AllocationStrategy' in the configuration of queue: queue1, compute resource fleet")]).
Proof.
  intros self.
  destruct (shaping_failure_names_the_key self 3 initial_world) as [_ H].
  exact (H eq_refl).
Defined.
End ShapingMore.

Section ShapingClosedForm.
Import Ec2CreateFleetManager.

Lemma uses_single_az_declared (self : FleetManager) :
  _uses_single_az self
  = Nat.eqb (length (declared_subnet_ids (_compute_resource_config self))) 1.
Proof.
  unfold _uses_single_az, declared_subnet_ids.
  by destruct (Networking (_compute_resource_config self)).
Qed.

(** Shaping up to the template overrides, whatever these turn out to be. *)
Lemma shape_launch_params_closed (self : FleetManager) (count : Z) (w : World)
    allocation_strategy capacity_type (instances : list instance_type_config) outcome :
  let config := _compute_resource_config self in
  AllocationStrategy config = Some allocation_strategy ->
  CapacityType config = Some capacity_type ->
  Instances config = Some instances ->
  _evaluate_template_overrides self w = (outcome, w, []) ->
  shape_launch_params self count w
  = (match outcome with
     | Ok template_overrides =>
         Ok (expected_launch_params self count capacity_type template_overrides
               (expected_launch_options allocation_strategy (length instances)
                  (length (declared_subnet_ids config)) (_all_or_nothing self) count
                  capacity_type))
     | Raised e => Raised e
     end,
     w,
     all_or_nothing_warning (length instances) (length (declared_subnet_ids config))
       (_all_or_nothing self)).
Proof.
  intros config Ha Hc Hi Ht.
  pose proof (fun w => uses_single_instance_type_run self _ w Hi) as Hit.
  unfold shape_launch_params. fold config.
  rewrite Ha, Hc, uses_single_az_declared. fold config.
  unfold expected_launch_params, expected_launch_options, all_or_nothing_warning,
    launch_options_key.
  set (single_type := Nat.eqb (length instances) 1) in *.
  set (single_az := Nat.eqb (length (declared_subnet_ids config)) 1) in *.
  clearbody single_type single_az.
  destruct single_type, single_az, (_all_or_nothing self);
    cbn [negb andb orb app]; repeat (run; rewrite ?Hit); rewrite Ht; run;
    destruct outcome; destruct (String.eqb capacity_type "spot"); reflexivity.
Qed.
End ShapingClosedForm.

Section ShapingEdges.
Import Ec2CreateFleetManager.

Lemma template_overrides_no_instance_types (self : FleetManager) capacity_type w :
  CapacityType (_compute_resource_config self) = Some capacity_type ->
  Instances (_compute_resource_config self) = Some [] ->
  _evaluate_template_overrides self w = (Ok [], w, []).
Proof.
  intros Hc Hi. unfold _evaluate_template_overrides. rewrite Hc, Hi. reflexivity.
Qed.

Lemma template_overrides_no_networking (self : FleetManager) capacity_type it its key w :
  CapacityType (_compute_resource_config self) = Some capacity_type ->
  Instances (_compute_resource_config self) = Some (it :: its) ->
  (Networking (_compute_resource_config self) = None /\ key = "Networking") \/
  (Networking (_compute_resource_config self) = Some {| SubnetIds := None |} /\
   key = "SubnetIds") ->
  _evaluate_template_overrides self w = (Raised (KeyError key), w, []).
Proof.
  intros Hc Hi Hn. unfold _evaluate_template_overrides. rewrite Hc, Hi.
  cbn [lookup_key for_each]. destruct Hn as [[-> ->]|[-> ->]]; reflexivity.
Qed.

(** X6. Strategy B reads the network configuration once per declared
    instance type: with no instance type declared shaping succeeds, with no
    template override, even when [Networking] is absent; with at least one
    instance type a missing [Networking] (or [SubnetIds]) makes shaping fail
    with the error naming that key. *)
Theorem networking_is_read_per_instance_type
    (self : FleetManager) (count : Z) (w : World) (allocation_strategy capacity_type : string) :
  let config := _compute_resource_config self in
  AllocationStrategy config = Some allocation_strategy ->
  CapacityType config = Some capacity_type ->
  (Instances config = Some [] ->
   exists options warnings,
     shape_launch_params self count w
     = (Ok (expected_launch_params self count capacity_type [] options), w, warnings)) /\
  (forall it its key,
      Instances config = Some (it :: its) ->
      (Networking config = None /\ key = "Networking") \/
      (Networking config = Some {| SubnetIds := None |} /\ key = "SubnetIds") ->
      exists logs,
        _evaluate_launch_params self count w
        = (Raised (FleetManagerException (missing_key_message self key)), w,
           logs ++ [Log ERROR (MsgText (missing_key_message self key))])).
Proof.
  intros config Ha Hc. split.
  - intros Hi.
    pose proof (template_overrides_no_instance_types self capacity_type w Hc Hi) as Ht.
    rewrite (shape_launch_params_closed self count w _ _ _ _ Ha Hc Hi Ht). eauto.
  - intros it its key Hi Hn.
    pose proof (template_overrides_no_networking self capacity_type it its key w Hc Hi Hn)
      as Ht.
    pose proof (shape_launch_params_closed self count w _ _ _ _ Ha Hc Hi Ht) as Hs.
    unfold _evaluate_launch_params, try_except.
    erewrite bind_raised; [eauto|]. rewrite Hs. run. by rewrite missing_key_message_eq.
Qed.

Lemma networking_is_read_per_instance_type_witness :
  let config instances :=
    {| Api := Some "create-fleet"; CapacityType := Some "on-demand";
       AllocationStrategy := Some "lowest-price"; MaxPrice := None;
       Instances := Some instances; Networking := None |} in
  let self instances :=
    {| class := Ec2CreateFleetManager; _cluster_name := "hit"; _region := "us-east-1";
       _boto3_config := "default"; _queue := "queue1"; _compute_resource := "fleet";
       _compute_resource_config := config instances;
       _all_or_nothing := false; _launch_overrides := [] |} in
  (exists options warnings,
      shape_launch_params (self []) 3 initial_world
      = (Ok (expected_launch_params (self []) 3 "on-demand" [] options),
         initial_world, warnings)) /\
  (exists logs,
      _evaluate_launch_params (self [ {| InstanceType := Some "c5.xlarge" |} ]) 3 initial_world
      = (Raised (FleetManagerException
                   (missing_key_message (self [ {| InstanceType := Some "c5.xlarge" |} ])
                      "Networking")),
         initial_world,
         logs ++ [Log ERROR (MsgText
                    (missing_key_message (self [ {| InstanceType := Some "c5.xlarge" |} ])
                       "Networking"))])).
Proof.
  intros config self. split.
  - destruct (networking_is_read_per_instance_type (self []) 3 initial_world
                "lowest-price" "on-demand" eq_refl eq_refl) as [H _].
    exact (H eq_refl).
  - destruct (networking_is_read_per_instance_type
                (self [ {| InstanceType := Some "c5.xlarge" |} ]) 3 initial_world
                "lowest-price" "on-demand" eq_refl eq_refl) as [_ H].
    apply (H {| InstanceType := Some "c5.xlarge" |} [] "Networking" eq_refl).
    left. split; reflexivity.
Defined.

(** X7. On a complete configuration the payload of strategy B, before the
    caller's overrides, has exactly four entries, in this order: the launch
    template [{cluster}-{queue}-{compute resource}] at [$Latest] with the
    template overrides; the target capacity [count] of the declared capacity
    type; the type [instant]; and [SpotOptions] for spot capacity,
    [OnDemandOptions] otherwise.  The options hold the allocation strategy,
    the two single-instance-type and single-subnet flags, then
    [MinTargetCapacity] ([count] under all-or-nothing, else 1) exactly when
    one instance type or one subnet is declared, then, for non-spot
    capacity only, the request to use capacity reservations first.  The
    all-or-nothing warning is the only record logged, when it is due. *)
Theorem create_fleet_payload
    (self : FleetManager) (count : Z) (w : World)
    (allocation_strategy capacity_type : string) (instance_types subnet_ids : list string) :
  let config := _compute_resource_config self in
  AllocationStrategy config = Some allocation_strategy ->
  CapacityType config = Some capacity_type ->
  Instances config = Some (map (fun it => {| InstanceType := Some it |}) instance_types) ->
  Networking config = Some {| SubnetIds := Some subnet_ids |} ->
  let single_type := Nat.eqb (length instance_types) 1 in
  let single_az := Nat.eqb (length subnet_ids) 1 in
  let spot := String.eqb capacity_type "spot" in
  let options :=
    [("AllocationStrategy", VStr allocation_strategy);
     ("SingleInstanceType", VBool single_type);
     ("SingleAvailabilityZone", VBool single_az)]
    ++ (if single_az || single_type
        then [("MinTargetCapacity", VInt (if _all_or_nothing self then count else 1))]
        else [])
    ++ (if spot then []
        else [("CapacityReservationOptions",
               VDict [("UsageStrategy", VStr "use-capacity-reservations-first")])]) in
  shape_launch_params self count w
  = (Ok [("LaunchTemplateConfigs",
          VList [VDict [("LaunchTemplateSpecification",
                         VDict [("LaunchTemplateName",
                                 VStr (_cluster_name self +:+ "-" +:+ _queue self
                                       +:+ "-" +:+ _compute_resource self));
                                ("Version", VStr "$Latest")]);
                        ("Overrides",
                         VList (cartesian_overrides (max_price_entry config)
                                  instance_types subnet_ids))]]);
         ("TargetCapacitySpecification",
          VDict [("TotalTargetCapacity", VInt count);
                 ("DefaultTargetCapacityType", VStr capacity_type)]);
         ("Type", VStr "instant");
         (if spot then "SpotOptions" else "OnDemandOptions", VDict options)],
     w,
     if negb single_az && (negb single_type && _all_or_nothing self)
     then [Log WARNING MsgAllOrNothingUnavailable] else []) /\
  Dict.get "AllocationStrategy" options = Some (VStr allocation_strategy) /\
  Dict.get "SingleInstanceType" options = Some (VBool single_type) /\
  Dict.get "SingleAvailabilityZone" options = Some (VBool single_az) /\
  Dict.get "MinTargetCapacity" options
  = (if single_az || single_type
     then Some (VInt (if _all_or_nothing self then count else 1)) else None) /\
  Dict.get "CapacityReservationOptions" options
  = (if spot then None
     else Some (VDict [("UsageStrategy", VStr "use-capacity-reservations-first")])).
Proof.
  intros config Ha Hc Hi Hn single_type single_az spot options.
  pose proof (template_overrides_run self capacity_type instance_types subnet_ids w Hc Hi Hn)
    as Ht.
  rewrite (shape_launch_params_closed self count w _ _ _ _ Ha Hc Hi Ht).
  assert (declared_subnet_ids (_compute_resource_config self) = subnet_ids) as ->
    by (unfold declared_subnet_ids; fold config; by rewrite Hn).
  rewrite length_map.
  unfold expected_launch_params, expected_launch_options, all_or_nothing_warning,
    launch_options_key, launch_template_name.
  fold single_type single_az spot. unfold options.
  destruct single_type, single_az, spot; repeat split; reflexivity.
Qed.

Lemma create_fleet_payload_witness :
  shape_launch_params (example_manager Ec2CreateFleetManager "on-demand" true) 3 initial_world
  = (Ok [("LaunchTemplateConfigs",
          VList [VDict [("LaunchTemplateSpecification",
                         VDict [("LaunchTemplateName", VStr "hit-queue1-fleet");
                                ("Version", VStr "$Latest")]);
                        ("Overrides",
                         VList [VDict [("InstanceType", VStr "c5.xlarge");
                                       ("SubnetId", VStr "subnet-a")];
                                VDict [("InstanceType", VStr "c5.xlarge");
                                       ("SubnetId", VStr "subnet-b")];
                                VDict [("InstanceType", VStr "m5.xlarge");
                                       ("SubnetId", VStr "subnet-a")];
                                VDict [("InstanceType", VStr "m5.xlarge");
                                       ("SubnetId", VStr "subnet-b")]])]]);
         ("TargetCapacitySpecification",
          VDict [("TotalTargetCapacity", VInt 3);
                 ("DefaultTargetCapacityType", VStr "on-demand")]);
         ("Type", VStr "instant");
         ("OnDemandOptions",
          VDict [("AllocationStrategy", VStr "lowest-price");
                 ("SingleInstanceType", VBool false);
                 ("SingleAvailabilityZone", VBool false);
                 ("CapacityReservationOptions",
                  VDict [("UsageStrategy", VStr "use-capacity-reservations-first")])])],
     initial_world, [Log WARNING MsgAllOrNothingUnavailable]).
Proof.
  exact (proj1 (create_fleet_payload
                  (example_manager Ec2CreateFleetManager "on-demand" true) 3
                  initial_world "lowest-price" "on-demand" ["c5.xlarge"; "m5.xlarge"]
                  ["subnet-a"; "subnet-b"] eq_refl eq_refl eq_refl eq_refl)).
Defined.
End ShapingEdges.

Section Traces.
Context (P : event -> bool).

Lemma traces_ret {A} (a : A) : traces P (ret a).
Proof. intros w r w' t [= <- <- <-]. constructor. Qed.

Lemma traces_raise {A} e : traces P (@raise A e).
Proof. intros w r w' t [= <- <- <-]. constructor. Qed.

Lemma traces_lookup_key {A} key (field : option A) : traces P (lookup_key key field).
Proof. destruct field; [apply traces_ret|apply traces_raise]. Qed.

Lemma traces_lift {A} (r : exn + A) : traces P (lift r).
Proof. destruct r; [apply traces_raise|apply traces_ret]. Qed.

Lemma traces_emit e : P e = true -> traces P (emit e).
Proof. intros H w r w' t [= <- <- <-]. by repeat constructor. Qed.

Lemma traces_log lvl msg : P (Log lvl msg) = true -> traces P (log lvl msg).
Proof. apply traces_emit. Qed.

Lemma traces_sleep seconds : P (Sleep seconds) = true -> traces P (sleep seconds).
Proof. apply traces_emit. Qed.

Lemma traces_bind {A B} (m : M A) (f : A -> M B) :
  traces P m -> (forall a, traces P (f a)) -> traces P (m ≫= f).
Proof.
  intros Hm Hf w r w' t. unfold mbind, M_bind.
  destruct (m w) as [[[a|e] w1] t1] eqn:Em.
  - destruct (f a w1) as [[r2 w2] t2] eqn:Ef. intros [= <- <- <-].
    apply Forall_app. split; [by eapply Hm|by eapply Hf].
  - intros [= <- <- <-]. by eapply Hm.
Qed.

Lemma traces_try_except {A} (m : M A) (h : exn -> M A) :
  traces P m -> (forall e, traces P (h e)) -> traces P (try_except m h).
Proof.
  intros Hm Hh w r w' t. unfold try_except.
  destruct (m w) as [[[a|e] w1] t1] eqn:Em.
  - intros [= <- <- <-]. by eapply Hm.
  - destruct (h e w1) as [[r2 w2] t2] eqn:Eh. intros [= <- <- <-].
    apply Forall_app. split; [by eapply Hm|by eapply Hh].
Qed.

Lemma traces_when b (m : M unit) : traces P m -> traces P (when b m).
Proof. destruct b; [done|]. intros _. apply traces_ret. Qed.

Lemma traces_for_each {A S} (xs : list A) (body : S -> A -> M S) :
  (forall s x, traces P (body s x)) -> forall s, traces P (for_each xs body s).
Proof.
  intros Hbody. induction xs as [|x xs IH]; intros s; cbn [for_each].
  - apply traces_ret.
  - apply traces_bind; [apply Hbody|apply IH].
Qed.

Lemma traces_list_comprehension {A B} (f : A -> M B) (xs : list A) :
  (forall x, traces P (f x)) -> traces P (list_comprehension f xs).
Proof.
  intros Hf. induction xs as [|x xs IH]; cbn [list_comprehension].
  - apply traces_ret.
  - apply traces_bind; [apply Hf|intros y].
    apply traces_bind; [apply IH|intros ys; apply traces_ret].
Qed.

Lemma traces_randbelow env n : traces P (randbelow env n).
Proof. intros w r w' t [= <- <- <-]. constructor. Qed.
End Traces.

Lemma traces_impl {A} (P Q : event -> bool) (m : M A) :
  (forall e, P e = true -> Q e = true) -> traces P m -> traces Q m.
Proof. intros HPQ Hm w r w' t E. eapply Forall_impl; [by eapply Hm|]. apply HPQ. Qed.

Ltac traces_step :=
  first
    [ apply traces_ret | apply traces_raise | apply traces_lookup_key | apply traces_lift
    | apply traces_randbelow
    | apply traces_log; reflexivity
    | apply traces_emit; reflexivity
    | apply traces_when
    | apply traces_bind; [|intros ?]
    | apply traces_try_except; [|intros ?]
    | apply traces_for_each; intros ? ?
    | apply traces_list_comprehension; intros ?
    | match goal with
      | |- traces _ (match ?x with _ => _ end) => destruct x
      | |- traces _ ((match ?x with _ => _ end) _) => destruct x; cbv beta
      end ].

Lemma bind_ok_inv {A B} (m : M A) (f : A -> M B) w a w1 t1 r w' t :
  m w = (Ok a, w1, t1) -> (m ≫= f) w = (r, w', t) ->
  exists t2, f a w1 = (r, w', t2) /\ t = t1 ++ t2.
Proof.
  intros E. unfold mbind, M_bind. rewrite E.
  destruct (f a w1) as [[r2 w2] t2]. intros [= <- <- <-]. eauto.
Qed.

Section ReconciliationBounds.
Import Ec2CreateFleetManager.

Lemma from_describe_traces (P : event -> bool) info :
  (forall e, P (Log ERROR (MsgUnableToRetrieveEC2InstanceInfo e)) = true) ->
  traces P (EC2Instance.from_describe_instance_data info).
Proof.
  intros HP. unfold EC2Instance.from_describe_instance_data,
    EC2Instance.get_private_ip_address_and_dns_name.
  apply traces_try_except; [repeat traces_step|].
  intros e. destruct e; try apply traces_raise.
  apply traces_bind; [apply traces_log, HP|intros ?; apply traces_raise].
Qed.

Lemma backoff_below (attempt : nat) (jitter : Z) :
  (attempt < retries)%nat -> 0 <= jitter < 500 ->
  (backoff attempt jitter < 53 # 10)%Q.
Proof.
  intros Hn Hj. unfold backoff.
  assert (2 ^ Z.of_nat attempt <= 2 ^ 4) as Hpow.
  { apply Z.pow_le_mono_r; [lia|]. unfold retries in Hn. lia. }
  assert (0 < 2 ^ Z.of_nat attempt) as Hpos by (apply Z.pow_pos_nonneg; lia).
  change (2 ^ 4) with 16 in Hpow.
  unfold Qlt, Qplus, Qmult, Qdiv, Qinv, inject_Z. cbn. nia.
Qed.

Lemma sleep_is_reconciliation_event seconds :
  (seconds < 53 # 10)%Q -> is_reconciliation_event (Sleep seconds) = true.
Proof.
  intros H. unfold is_reconciliation_event, Qcompare. unfold Qlt in H.
  apply Z.compare_lt_iff in H. by rewrite H.
Qed.

Lemma backoff_sleep_traces env attempt :
  traces is_reconciliation_event
    (when (attempt <? retries)%nat
          (jitter ← randbelow env 500; sleep (backoff attempt jitter))).
Proof.
  destruct (attempt <? retries)%nat eqn:E; [|apply traces_ret].
  apply Nat.ltb_lt in E. intros w r w' t [= <- <- <-].
  repeat constructor. apply sleep_is_reconciliation_event.
  apply backoff_below; [done|]. apply Z.mod_pos_bound. lia.
Qed.

Lemma from_describe_emits (P : event -> bool) info :
  (forall e, P (Log ERROR (MsgUnableToRetrieveEC2InstanceInfo e)) = true) ->
  emits P (EC2Instance.from_describe_instance_data info).
Proof.
  intros HP. unfold EC2Instance.from_describe_instance_data,
    EC2Instance.get_private_ip_address_and_dns_name.
  apply emits_try_except; [repeat emits_step|].
  intros e. destruct e; try apply emits_raise.
  apply emits_bind; [apply emits_log, HP|intros ?; apply emits_raise].
Qed.

(** One query attempt is one describe call, when there is an id to ask
    about, followed by log records only. *)
Lemma retrieve_shape (P : event -> bool) env ids w r w' t :
  (forall e, P (Log ERROR (MsgUnableToRetrieveEC2InstanceInfo e)) = true) ->
  (forall e, P (Log DEBUG (MsgUnableToRetrieveInstanceInfo e)) = true) ->
  _retrieve_instances_info_from_ec2 env ids w = (r, w', t) ->
  exists logs,
    t = (if nonempty ids then [DescribeInstances ids] else []) ++ logs /\
    Forall (fun e => P e = true) logs /\
    w' = (if nonempty ids then describe_called w else w).
Proof.
  intros Hparse Hquery. unfold _retrieve_instances_info_from_ec2.
  destruct (nonempty ids); [|intros [= <- <- <-]; by exists []].
  intros E. eapply bind_ok_inv in E as [logs [E ->]]; [|reflexivity].
  exists logs. split; [done|].
  cut (w' = describe_called w /\ Forall (fun e => P e = true) logs); [tauto|].
  revert E. generalize (ec2_describe_instances env (describe_calls w) ids) as response.
  intros response. fold (describe_called w). generalize (describe_called w) as w1.
  intros w1 E. revert w1 r w' logs E.
  match goal with
  | |- forall w1 r w' logs, ?rest w1 = _ -> _ => change (emits P rest)
  end.
  apply emits_bind.
  - apply emits_for_each. intros [c p] info.
    apply emits_try_except.
    + apply emits_bind; [by apply from_describe_emits|intros ?; apply emits_ret].
    + intros e. destruct e; try apply emits_raise.
      apply emits_bind; [apply emits_log, Hquery|intros ?]. repeat emits_step.
  - intros [c p]. destruct (fault response); [|apply emits_ret].
    apply emits_bind; [apply emits_log, Hquery|intros ?; apply emits_ret].
Qed.

Lemma retrieve_traces env ids :
  traces is_reconciliation_event (_retrieve_instances_info_from_ec2 env ids).
Proof.
  intros w r w' t E.
  apply (retrieve_shape is_reconciliation_event) in E as [logs [-> [Hlogs _]]]; [|done..].
  apply Forall_app. split; [|done].
  destruct (nonempty ids) eqn:Hne; by repeat constructor.
Qed.

Lemma loop_traces env : forall fuel n instances ids,
  traces is_reconciliation_event (get_instances_info_loop env fuel n instances ids).
Proof.
  induction fuel as [|fuel IH]; intros n instances ids; cbn [get_instances_info_loop].
  - apply traces_ret.
  - destruct (_ && _); [|apply traces_ret].
    apply traces_bind; [apply retrieve_traces|intros [c p]].
    apply traces_bind; [apply backoff_sleep_traces|intros ?; apply IH].
Qed.

Lemma get_instances_info_traces env ids :
  traces is_reconciliation_event (_get_instances_info env ids).
Proof.
  unfold _get_instances_info.
  apply traces_bind; [by apply traces_sleep|intros ?; apply loop_traces].
Qed.

(** [m] emits at most [k] events satisfying [P]. *)
Lemma counts_bind {A B} (P : event -> bool) k1 k2 k (m : M A) (f : A -> M B) :
  counts P k1 m -> (forall a, counts P k2 (f a)) -> (k1 + k2 <= k)%nat ->
  counts P k (m ≫= f).
Proof.
  intros Hm Hf Hk w r w' t. unfold mbind, M_bind.
  destruct (m w) as [[[a|e] w1] t1] eqn:Em.
  - destruct (f a w1) as [[r2 w2] t2] eqn:Ef. intros [= <- <- <-].
    rewrite List.filter_app, length_app.
    apply Hm in Em. apply Hf in Ef. lia.
  - intros [= <- <- <-]. apply Hm in Em. lia.
Qed.

Lemma counts_ret {A} P k (a : A) : counts P k (ret a).
Proof. intros w r w' t [= <- <- <-]. cbn. lia. Qed.

Lemma retrieve_describes_once env ids :
  counts is_describe 1 (_retrieve_instances_info_from_ec2 env ids).
Proof.
  intros w r w' t E.
  apply (retrieve_shape is_log) in E as [logs [-> [Hlogs _]]]; [|done..].
  rewrite List.filter_app, length_app, (filter_none is_describe logs).
  - destruct (nonempty ids); cbn; lia.
  - eapply Forall_impl; [exact Hlogs|]. by intros [].
Qed.

Lemma retrieve_never_sleeps env ids :
  counts is_sleep 0 (_retrieve_instances_info_from_ec2 env ids).
Proof.
  intros w r w' t E.
  apply (retrieve_shape is_log) in E as [logs [-> [Hlogs _]]]; [|done..].
  rewrite List.filter_app, length_app, (filter_none is_sleep logs).
  - destruct (nonempty ids); cbn; lia.
  - eapply Forall_impl; [exact Hlogs|]. by intros [].
Qed.

Lemma backoff_sleeps_once env attempt :
  counts is_sleep (if (attempt <? retries)%nat then 1 else 0)
    (when (attempt <? retries)%nat
          (jitter ← randbelow env 500; sleep (backoff attempt jitter))).
Proof.
  destruct (attempt <? retries)%nat; intros w r w' t [= <- <- <-]; cbn; lia.
Qed.

Lemma backoff_never_describes env attempt :
  counts is_describe 0
    (when (attempt <? retries)%nat
          (jitter ← randbelow env 500; sleep (backoff attempt jitter))).
Proof.
  destruct (attempt <? retries)%nat; intros w r w' t [= <- <- <-]; cbn; lia.
Qed.

Lemma loop_describes env : forall fuel n instances ids,
  counts is_describe (retries - n) (get_instances_info_loop env fuel n instances ids).
Proof.
  induction fuel as [|fuel IH]; intros n instances ids; cbn [get_instances_info_loop].
  - apply counts_ret.
  - destruct (n <? retries)%nat eqn:Hn; cbn [andb]; [|apply counts_ret].
    destruct (nonempty ids); [|apply counts_ret].
    apply Nat.ltb_lt in Hn.
    eapply counts_bind; [apply retrieve_describes_once| |].
    + intros [c p]. eapply counts_bind;
        [apply backoff_never_describes|intros ?; apply IH|reflexivity].
    + lia.
Qed.

Lemma loop_sleeps env : forall fuel n instances ids,
  counts is_sleep (retries - 1 - n) (get_instances_info_loop env fuel n instances ids).
Proof.
  induction fuel as [|fuel IH]; intros n instances ids; cbn [get_instances_info_loop].
  - apply counts_ret.
  - destruct (n <? retries)%nat eqn:Hn; cbn [andb]; [|apply counts_ret].
    destruct (nonempty ids); [|apply counts_ret].
    apply Nat.ltb_lt in Hn.
    eapply counts_bind; [apply retrieve_never_sleeps| |].
    + intros [c p]. eapply counts_bind;
        [apply backoff_sleeps_once|intros ?; apply IH|reflexivity].
    + destruct (S n <? retries)%nat eqn:Hn'; [apply Nat.ltb_lt in Hn'|]; lia.
Qed.

(** X8. However EC2 answers, a reconciliation makes at most five describe
    calls and sleeps at most five times (the initial wait and one back-off
    after each of the first four attempts); every sleep is shorter than
    5.3 seconds, and no describe call is made about an empty list of ids. *)
Theorem reconciliation_is_bounded
    (env : Env) (ids : list string) (w : World) r w' t :
  _get_instances_info env ids w = (r, w', t) ->
  (length (List.filter is_describe t) <= retries)%nat /\
  (length (List.filter is_sleep t) <= retries)%nat /\
  (forall seconds, In (Sleep seconds) t -> (seconds < 53 # 10)%Q) /\
  (forall queried, In (DescribeInstances queried) t -> queried <> []).
Proof.
  intros E. split; [|split; [|split]].
  - revert E. unfold _get_instances_info. intros E.
    eapply (counts_bind is_describe 0 retries) in E; [exact E| | |lia].
    + intros ? ? ? ? [= <- <- <-]. cbn. lia.
    + intros ?. apply (loop_describes env (S retries) 0).
  - revert E. unfold _get_instances_info. intros E.
    eapply (counts_bind is_sleep 1 (retries - 1)) in E; [exact E| | |unfold retries; lia].
    + intros ? ? ? ? [= <- <- <-]. cbn. lia.
    + intros ?. apply (loop_sleeps env (S retries) 0).
  - intros seconds Hin. apply get_instances_info_traces in E.
    apply (proj1 (List.Forall_forall _ _) E) in Hin.
    unfold is_reconciliation_event in Hin. apply Qlt_alt.
    by destruct (seconds ?= 53 # 10)%Q.
  - intros queried Hin ->. apply get_instances_info_traces in E.
    by apply (proj1 (List.Forall_forall _ _) E) in Hin.
Qed.
End ReconciliationBounds.

Section ReconciliationBoundsWitness.
Import Ec2CreateFleetManager.

Lemma reconciliation_is_bounded_witness :
  exists r w' t,
    _get_instances_info env_resolving_in_two_attempts ["i-1"; "i-2"] initial_world = (r, w', t) /\
    (length (List.filter is_describe t) <= retries)%nat /\
    (length (List.filter is_sleep t) <= retries)%nat /\
    (forall seconds, In (Sleep seconds) t -> (seconds < 53 # 10)%Q) /\
    (forall queried, In (DescribeInstances queried) t -> queried <> []).
Proof.
  eexists _, _, _. split; [vm_compute; reflexivity|].
  eapply (reconciliation_is_bounded env_resolving_in_two_attempts ["i-1"; "i-2"] initial_world).
  vm_compute. reflexivity.
Defined.
End ReconciliationBoundsWitness.

Lemma bind_inv {A B} (m : M A) (f : A -> M B) w r w' t :
  (m ≫= f) w = (r, w', t) ->
  (exists e, m w = (Raised e, w', t) /\ r = Raised e) \/
  (exists a w1 t1 t2, m w = (Ok a, w1, t1) /\ f a w1 = (r, w', t2) /\ t = t1 ++ t2).
Proof.
  unfold mbind, M_bind. destruct (m w) as [[[a|e] w1] t1].
  - destruct (f a w1) as [[r2 w2] t2] eqn:E. intros [= <- <- <-]. right. eauto 8.
  - intros [= <- <- <-]. left. eauto.
Qed.

Lemma traces_of_emits {A} (P : event -> bool) (m : M A) : emits P m -> traces P m.
Proof. intros H w r w' t E. by apply H in E as [_ ?]. Qed.

Lemma traces_run {A} (P : event -> bool) (m : M A) w :
  traces P m -> Forall (fun e => P e = true) (m w).2.
Proof. intros H. destruct (m w) as [[r w'] t] eqn:E. by eapply H. Qed.

Section LoggingFilter.
Import FleetManager.

Lemma with_job_id_filter_run {A} job_id (body : M A) w :
  with_job_id_filter job_id body w
  = ((body w).1.1, (body w).1.2, filter_enter job_id ++ (body w).2 ++ filter_exit job_id).
Proof.
  unfold with_job_id_filter, filter_enter, filter_exit.
  destruct job_id as [job|]; [destruct (negb (String.eqb job ""))|]; run;
    destruct (body w) as [[r w1] t]; cbn [fst snd app]; by rewrite ?app_nil_r.
Qed.

Lemma run_instances_traces env region boto3_config kwargs :
  traces is_launch_event (run_instances env region boto3_config kwargs).
Proof. unfold run_instances. destruct (overrides_run_instances env); repeat traces_step. Qed.

Lemma create_fleet_traces env region boto3_config kwargs :
  traces is_launch_event (create_fleet env region boto3_config kwargs).
Proof. unfold create_fleet. destruct (overrides_create_fleet env); repeat traces_step. Qed.

Lemma get_instances_info_launch_events env ids :
  traces is_launch_event (Ec2CreateFleetManager._get_instances_info env ids).
Proof.
  eapply traces_impl; [|apply get_instances_info_traces].
  intros [ | | | | [] [] | | ]; done.
Qed.

Lemma evaluate_launch_params_traces self count :
  traces is_launch_event (_evaluate_launch_params self count).
Proof.
  unfold _evaluate_launch_params. destruct (class self).
  - unfold Ec2RunInstancesManager._evaluate_launch_params. repeat traces_step.
  - eapply traces_impl; [|apply traces_of_emits, evaluate_launch_params_emits].
    intros [ | | | | [] [] | | ]; done.
Qed.

Lemma launch_instances_traces env self launch_params :
  traces is_launch_event (_launch_instances env self launch_params).
Proof.
  unfold _launch_instances. destruct (class self).
  - unfold Ec2RunInstancesManager._launch_instances.
    apply traces_try_except; [apply run_instances_traces|]. intros e. repeat traces_step.
  - unfold Ec2CreateFleetManager._launch_instances.
    apply traces_try_except; [|intros e; repeat traces_step].
    apply traces_bind; [apply create_fleet_traces|intros response].
    apply traces_bind; [repeat traces_step|intros ?].
    apply traces_bind.
    { apply traces_for_each. intros ? ?. destruct (nonempty _); repeat traces_step. }
    intros ?. apply traces_bind; [repeat traces_step|intros ids].
    apply traces_bind; [apply get_instances_info_launch_events|intros [instances p]].
    repeat traces_step.
Qed.
End LoggingFilter.

Section Launch.
Import FleetManager.

Lemma filter_enter_filter job_id :
  List.filter is_filter_event (filter_enter job_id) = filter_enter job_id.
Proof. destruct job_id as [job|]; [|done]. cbn. by destruct (negb _). Qed.

Lemma filter_exit_filter job_id :
  List.filter is_filter_event (filter_exit job_id) = filter_exit job_id.
Proof. destruct job_id as [job|]; [|done]. cbn. by destruct (negb _). Qed.

(** X9. On every path out of a launch, normal or exceptional, the logging
    filter of a truthy job id is entered once, before anything else, and
    left once; what follows the exit are only the records of a description
    that could not be parsed.  Without a job id no filter is touched. *)
Theorem logging_filter_is_balanced
    (env : Env) (self : FleetManager) (count : Z) (job_id : option string) (w : World)
    r w' t :
  launch_ec2_instances env self count job_id w = (r, w', t) ->
  (exists body rest,
      t = filter_enter job_id ++ body ++ filter_exit job_id ++ rest /\
      Forall (fun e => is_launch_event e = true) body /\
      Forall (fun e => is_log e = true) rest) /\
  List.filter is_filter_event t = filter_enter job_id ++ filter_exit job_id.
Proof.
  intros E.
  assert (exists body rest,
             t = filter_enter job_id ++ body ++ filter_exit job_id ++ rest /\
             Forall (fun e => is_launch_event e = true) body /\
             Forall (fun e => is_log e = true) rest) as H.
  { unfold launch_ec2_instances in E.
    apply bind_inv in E as [(e & E & ->)|(a & w1 & t1 & t2 & E & E2 & ->)];
      rewrite with_job_id_filter_run in E;
      match type of E with
      | context [filter_enter _ ++ (?body w).2 ++ _] =>
          assert (traces is_launch_event body) as Hbody
            by (apply traces_bind; [apply evaluate_launch_params_traces|intros ?];
                apply traces_bind; [apply launch_instances_traces|intros ?];
                repeat traces_step)
      end;
      injection E as _ _ <-.
    - eexists _, []. rewrite app_nil_r. split; [reflexivity|].
      split; [by apply traces_run|constructor].
    - rewrite <- !app_assoc. eexists _, t2. split; [reflexivity|].
      split; [by apply traces_run|].
      revert E2. cbv beta.
      match goal with
      | |- ?rest w1 = _ -> _ => assert (traces is_log rest) as Hrest
      end.
      { apply traces_bind; [apply traces_lookup_key|intros ?].
        apply traces_list_comprehension. intros ?. by apply from_describe_traces. }
      apply Hrest. }
  split; [exact H|]. destruct H as (body & rest & -> & Hbody & Hrest).
  rewrite !List.filter_app, filter_enter_filter, filter_exit_filter.
  rewrite (filter_none is_filter_event body), (filter_none is_filter_event rest).
  - by rewrite app_nil_r.
  - eapply Forall_impl; [exact Hrest|]. by intros [].
  - eapply Forall_impl; [exact Hbody|]. by intros [].
Qed.

Lemma logging_filter_is_balanced_witness :
  exists r w' t,
    launch_ec2_instances env_insufficient_capacity
      (example_manager Ec2CreateFleetManager "on-demand" false) 3 (Some "42") initial_world
    = (r, w', t) /\
    List.filter is_filter_event t = [LoggingFilterEnter "42"; LoggingFilterExit].
Proof.
  eexists _, _, _. split; [vm_compute; reflexivity|].
  eapply (logging_filter_is_balanced env_insufficient_capacity
            (example_manager Ec2CreateFleetManager "on-demand" false) 3 (Some "42")
            initial_world).
  vm_compute. reflexivity.
Defined.

(** The launch, once shaping and the launch step have succeeded: what is
    left is the construction of the records, outside the [with] block. *)
Lemma launch_run env self count job_id w launch_params w1 t1 nodes w2 t2 items :
  _evaluate_launch_params self count w = (Ok launch_params, w1, t1) ->
  _launch_instances env self launch_params w1 = (Ok nodes, w2, t2) ->
  nodes_Instances nodes = Some items ->
  launch_ec2_instances env self count job_id w
  = prepend (filter_enter job_id ++ t1 ++ t2 ++ launched_summary items ++ filter_exit job_id)
      (list_comprehension EC2Instance.from_describe_instance_data items w2).
Proof.
  intros H1 H2 Hitems. unfold launch_ec2_instances.
  match goal with
  | |- (with_job_id_filter _ ?body ≫= _) _ = _ =>
      assert (body w = (Ok nodes, w2, t1 ++ t2 ++ launched_summary items)) as Hbody
  end.
  { erewrite bind_ok by exact H1. erewrite bind_ok by exact H2. rewrite Hitems.
    unfold prepend. destruct items; run; by rewrite ?app_nil_r. }
  erewrite bind_ok; [|rewrite with_job_id_filter_run, Hbody; reflexivity].
  rewrite Hitems. erewrite bind_pure by reflexivity.
  cbn [fst snd]. by rewrite <- !app_assoc.
Qed.

Lemma launch_without_instances env self count job_id w launch_params w1 t1 nodes w2 t2 :
  _evaluate_launch_params self count w = (Ok launch_params, w1, t1) ->
  _launch_instances env self launch_params w1 = (Ok nodes, w2, t2) ->
  nodes_Instances nodes = None ->
  launch_ec2_instances env self count job_id w
  = (Raised TypeError, w2, filter_enter job_id ++ t1 ++ t2 ++ filter_exit job_id).
Proof.
  intros H1 H2 Hitems. unfold launch_ec2_instances.
  match goal with
  | |- (with_job_id_filter _ ?body ≫= _) _ = _ =>
      assert (body w = (Raised TypeError, w2, t1 ++ t2)) as Hbody
  end.
  { erewrite bind_ok by exact H1. erewrite bind_ok by exact H2. rewrite Hitems.
    unfold prepend. run. by rewrite ?app_nil_r. }
  erewrite bind_raised; [|rewrite with_job_id_filter_run, Hbody; reflexivity].
  cbn [fst snd]. by rewrite <- !app_assoc.
Qed.

Lemma parse_all_run items w :
  Forall (fun info => complete info = true) items ->
  list_comprehension EC2Instance.from_describe_instance_data items w
  = (Ok (map instance_record items), w, []).
Proof.
  induction 1 as [|info items H _ IH]; [reflexivity|]. cbn [list_comprehension map].
  unfold complete in H. destruct (missing_key info) eqn:Hk; [discriminate|].
  erewrite bind_pure by (by apply from_describe_run).
  erewrite bind_pure by exact IH. reflexivity.
Qed.

Lemma parse_all_stops parsed bad rest key w :
  Forall (fun info => complete info = true) parsed ->
  missing_key bad = Some key ->
  list_comprehension EC2Instance.from_describe_instance_data (parsed ++ bad :: rest) w
  = (Raised (KeyError key), w,
     [Log ERROR (MsgUnableToRetrieveEC2InstanceInfo (KeyError key))]).
Proof.
  intros Hparsed Hbad. induction Hparsed as [|info items H _ IH].
  - cbn [app list_comprehension].
    erewrite bind_raised by (by apply from_describe_incomplete). reflexivity.
  - cbn [app list_comprehension].
    unfold complete in H. destruct (missing_key info) eqn:Hk; [discriminate|].
    erewrite bind_pure by (by apply from_describe_run).
    erewrite bind_raised by exact IH. reflexivity.
Qed.

(** X10. When shaping and the launch step succeed and every description the
    launch step hands back is complete, the launch returns one record per
    description, in the order of the descriptions, each record being the
    parse of its description; the summary of the launched ids is logged
    inside the logging filter iff there is at least one description. *)
Theorem launch_returns_records_in_order
    (env : Env) (self : FleetManager) (count : Z) (job_id : option string) (w : World)
    launch_params w1 t1 nodes w2 t2 items :
  _evaluate_launch_params self count w = (Ok launch_params, w1, t1) ->
  _launch_instances env self launch_params w1 = (Ok nodes, w2, t2) ->
  nodes_Instances nodes = Some items ->
  Forall (fun info => complete info = true) items ->
  launch_ec2_instances env self count job_id w
  = (Ok (map instance_record items), w2,
     filter_enter job_id ++ t1 ++ t2 ++ launched_summary items ++ filter_exit job_id) /\
  (forall i info, nth_error items i = Some info ->
     exists record,
       nth_error (map instance_record items) i = Some record /\
       InstanceId info = Some (EC2Instance.id record)) /\
  (launched_summary items = [] <-> items = []).
Proof.
  intros H1 H2 Hitems Hcomplete. split; [|split].
  - erewrite launch_run by done. rewrite parse_all_run by done.
    unfold prepend. cbn [fst snd]. by rewrite <- !app_assoc, !app_nil_r.
  - intros i info Hi. exists (instance_record info).
    split; [by apply map_nth_error|].
    assert (complete info = true) as Hc
      by (apply (proj1 (List.Forall_forall _ _) Hcomplete); by eapply nth_error_In).
    apply complete_has_instance_id in Hc as [x Hx].
    unfold instance_record. by rewrite Hx.
  - by destruct items.
Qed.
End Launch.

Section LaunchMore.
Import FleetManager.

Lemma launch_returns_records_in_order_witness :
  exists trace,
    launch_ec2_instances
      (env_run_instances
         (inr {| nodes_Instances := Some [described "i-1"; described "i-2"] |}))
      (example_manager Ec2RunInstancesManager "on-demand" false) 2 None initial_world
    = (Ok [instance_record (described "i-1"); instance_record (described "i-2")],
       initial_world, trace).
Proof.
  edestruct (launch_returns_records_in_order
               (env_run_instances
                  (inr {| nodes_Instances := Some [described "i-1"; described "i-2"] |}))
               (example_manager Ec2RunInstancesManager "on-demand" false) 2 None
               initial_world)
    as (Hrun & _ & _).
  - vm_compute. reflexivity.
  - vm_compute. reflexivity.
  - reflexivity.
  - repeat constructor.
  - eexists. exact Hrun.
Defined.

(** X11. A launch step that succeeds with descriptions that cannot be turned
    into records makes the whole launch fail, after the instances were
    launched: a response without [Instances] raises [TypeError] inside the
    logging filter; a description lacking a required field raises the
    [KeyError] of the first missing field once the filter is left, after
    the summary that lists every launched id, so that no record is returned
    for the complete descriptions either. *)
Theorem launch_rejects_unparsable_response
    (env : Env) (self : FleetManager) (count : Z) (job_id : option string) (w : World)
    launch_params w1 t1 nodes w2 t2 :
  _evaluate_launch_params self count w = (Ok launch_params, w1, t1) ->
  _launch_instances env self launch_params w1 = (Ok nodes, w2, t2) ->
  (nodes_Instances nodes = None ->
   launch_ec2_instances env self count job_id w
   = (Raised TypeError, w2, filter_enter job_id ++ t1 ++ t2 ++ filter_exit job_id)) /\
  (forall parsed bad rest key,
     nodes_Instances nodes = Some (parsed ++ bad :: rest) ->
     Forall (fun info => complete info = true) parsed ->
     missing_key bad = Some key ->
     launch_ec2_instances env self count job_id w
     = (Raised (KeyError key), w2,
        filter_enter job_id ++ t1 ++ t2 ++ launched_summary (parsed ++ bad :: rest)
        ++ filter_exit job_id
        ++ [Log ERROR (MsgUnableToRetrieveEC2InstanceInfo (KeyError key))])).
Proof.
  intros H1 H2. split.
  - intros Hnone. by eapply launch_without_instances.
  - intros parsed bad rest key Hitems Hparsed Hbad.
    erewrite launch_run by done. rewrite (parse_all_stops parsed bad rest key) by done.
    unfold prepend. cbn [fst snd]. by rewrite <- !app_assoc.
Qed.

Lemma launch_rejects_unparsable_response_witness :
  exists trace,
    launch_ec2_instances
      (env_run_instances
         (inr {| nodes_Instances := Some [described "i-1"; pending "i-2"] |}))
      (example_manager Ec2RunInstancesManager "on-demand" false) 2 None initial_world
    = (Raised (KeyError "PrivateIpAddress"), initial_world, trace) /\
    In (Log INFO (MsgLaunchedInstances ["i-1"; "i-2"])) trace.
Proof.
  edestruct (launch_rejects_unparsable_response
               (env_run_instances
                  (inr {| nodes_Instances := Some [described "i-1"; pending "i-2"] |}))
               (example_manager Ec2RunInstancesManager "on-demand" false) 2 None
               initial_world)
    as [_ Hrun].
  - vm_compute. reflexivity.
  - vm_compute. reflexivity.
  - eexists. split.
    + apply (Hrun [described "i-1"] (pending "i-2") [] "PrivateIpAddress");
        [reflexivity|by repeat constructor|reflexivity].
    + cbn. repeat (first [left; reflexivity|right]).
Defined.

(** X12. A [ClientError] of the launch call is logged once at ERROR with the
    request id and raised again, with one difference between the two
    strategies: strategy B reads the id with a default, so that an error
    response without [ResponseMetadata] is logged with no id; strategy A
    reads it without one, so that such a response raises [AttributeError]
    in the handler, nothing is logged and the [ClientError] is lost. *)
Theorem client_error_is_logged_and_raised
    (env : Env) (self : FleetManager) (launch_params : dict) (w : World)
    (response : error_response) w1 t1 :
  (class self = Ec2RunInstancesManager ->
   run_instances env (_region self) (_boto3_config self) launch_params w
   = (Raised (ClientError response), w1, t1) ->
   _launch_instances env self launch_params w
   = match ResponseMetadata response with
     | Some request_id =>
         (Raised (ClientError response), w1,
          t1 ++ [Log ERROR (MsgFailedRequest RunInstancesApi request_id)])
     | None => (Raised AttributeError, w1, t1)
     end) /\
  (class self = Ec2CreateFleetManager ->
   create_fleet env (_region self) (_boto3_config self) launch_params w
   = (Raised (ClientError response), w1, t1) ->
   _launch_instances env self launch_params w
   = (Raised (ClientError response), w1,
      t1 ++ [Log ERROR (MsgFailedRequest CreateFleetApi
                          (default None (ResponseMetadata response)))])).
Proof.
  split; intros Hclass Hcall; unfold _launch_instances; rewrite Hclass.
  - unfold Ec2RunInstancesManager._launch_instances, try_except. rewrite Hcall.
    destruct (ResponseMetadata response); run; by rewrite ?app_nil_r.
  - unfold Ec2CreateFleetManager._launch_instances, try_except.
    rewrite (bind_raised _ _ _ _ _ _ Hcall). run. reflexivity.
Qed.

Lemma client_error_is_logged_and_raised_witness :
  (exists t,
      _launch_instances env_always_faulting
        (example_manager Ec2RunInstancesManager "on-demand" false) [] initial_world
      = (Raised (ClientError throttled), initial_world,
         t ++ [Log ERROR (MsgFailedRequest RunInstancesApi (Some "req-1"))])) /\
  (exists t,
      _launch_instances env_always_faulting
        (example_manager Ec2CreateFleetManager "on-demand" false) [] initial_world
      = (Raised (ClientError throttled), initial_world,
         t ++ [Log ERROR (MsgFailedRequest CreateFleetApi (Some "req-1"))])) /\
  (exists t,
      _launch_instances
        (env_run_instances (inl (ClientError {| ResponseMetadata := None |})))
        (example_manager Ec2RunInstancesManager "on-demand" false) [] initial_world
      = (Raised AttributeError, initial_world, t)).
Proof.
  split; [|split]; eexists.
  - refine (proj1 (client_error_is_logged_and_raised env_always_faulting
                     (example_manager Ec2RunInstancesManager "on-demand" false) []
                     initial_world throttled initial_world _) eq_refl _).
    reflexivity.
  - refine (proj2 (client_error_is_logged_and_raised env_always_faulting
                     (example_manager Ec2CreateFleetManager "on-demand" false) []
                     initial_world throttled initial_world _) eq_refl _).
    reflexivity.
  - refine (proj1 (client_error_is_logged_and_raised
                     (env_run_instances (inl (ClientError {| ResponseMetadata := None |})))
                     (example_manager Ec2RunInstancesManager "on-demand" false) []
                     initial_world {| ResponseMetadata := None |} initial_world _) eq_refl _).
    reflexivity.
Defined.
End LaunchMore.

Section Returns.
Context {A : Type} (R : A -> Prop).

Lemma returns_ret (a : A) : R a -> returns R (ret a).
Proof. by intros H w a' w' t [= <- <- <-]. Qed.

Lemma returns_raise e : returns R (raise e).
Proof. intros w a w' t. discriminate. Qed.

Lemma returns_bind {B} (R1 : B -> Prop) (m : M B) (f : B -> M A) :
  returns R1 m -> (forall b, R1 b -> returns R (f b)) -> returns R (m ≫= f).
Proof.
  intros Hm Hf w a w' t E.
  apply bind_inv in E as [(e & _ & [=])|(b & w1 & t1 & t2 & E1 & E2 & _)].
  eapply Hf; [by eapply Hm|exact E2].
Qed.

Lemma returns_try_except (m : M A) (h : exn -> M A) :
  returns R m -> (forall e, returns R (h e)) -> returns R (try_except m h).
Proof.
  intros Hm Hh w a w' t. unfold try_except.
  destruct (m w) as [[[a1|e] w1] t1] eqn:Em.
  - intros [= <- <- <-]. by eapply Hm.
  - destruct (h e w1) as [[r2 w2] t2] eqn:Eh. intros [= -> <- <-]. by eapply Hh.
Qed.

Lemma returns_for_each {X} (xs : list X) (body : A -> X -> M A) :
  (forall s x, R s -> returns R (body s x)) -> forall s, R s -> returns R (for_each xs body s).
Proof.
  intros Hbody. induction xs as [|x xs IH]; intros s Hs; cbn [for_each].
  - by apply returns_ret.
  - eapply returns_bind; [by apply Hbody|]. intros s' Hs'. by apply IH.
Qed.
End Returns.

Lemma returns_any {A} (m : M A) : returns (fun _ => True) m.
Proof. by intros w a w' t _. Qed.

Section CreateFleetLaunchMore.
Import Ec2CreateFleetManager.

Lemma from_describe_returns info :
  returns (fun _ => complete info = true) (EC2Instance.from_describe_instance_data info).
Proof.
  intros w a w' t E. unfold complete.
  destruct (missing_key info) as [key|] eqn:Hk; [|done].
  rewrite (from_describe_incomplete info key w Hk) in E. discriminate.
Qed.

Lemma retrieve_returns env ids :
  returns (fun '(resolved, _) => Forall (fun info => complete info = true) resolved)
    (_retrieve_instances_info_from_ec2 env ids).
Proof.
  unfold _retrieve_instances_info_from_ec2.
  destruct (nonempty ids); [|by apply returns_ret].
  eapply returns_bind; [apply returns_any|intros response _].
  eapply (returns_bind _ (fun '(resolved, _) => Forall (fun info => complete info = true) resolved)).
  - apply returns_for_each; [|done]. intros [c p] info Hc.
    apply returns_try_except.
    + eapply returns_bind; [apply from_describe_returns|]. intros ? Hinfo.
      apply returns_ret. apply Forall_app. by split; [|repeat constructor].
    + intros e. destruct e; try apply returns_raise.
      eapply returns_bind; [apply returns_any|intros _ _].
      eapply returns_bind; [apply returns_any|intros i _]. by apply returns_ret.
  - intros [c p] Hc. destruct (fault response).
    + eapply returns_bind; [apply returns_any|intros _ _]. by apply returns_ret.
    + by apply returns_ret.
Qed.

Lemma loop_returns env : forall fuel n instances ids,
  Forall (fun info => complete info = true) instances ->
  returns (fun '(resolved, _) => Forall (fun info => complete info = true) resolved)
    (get_instances_info_loop env fuel n instances ids).
Proof.
  induction fuel as [|fuel IH]; intros n instances ids Hi; cbn [get_instances_info_loop].
  - by apply returns_ret.
  - destruct (_ && _); [|by apply returns_ret].
    eapply returns_bind; [apply retrieve_returns|intros [c p] Hc].
    eapply returns_bind; [apply returns_any|intros _ _].
    apply IH. apply Forall_app. by split.
Qed.

Lemma get_instances_info_returns env ids :
  returns (fun '(resolved, _) => Forall (fun info => complete info = true) resolved)
    (_get_instances_info env ids).
Proof.
  unfold _get_instances_info.
  eapply returns_bind; [apply returns_any|intros _ _]. by apply loop_returns.
Qed.

(** X15. Every description a reconciliation hands back as resolved is
    complete, however EC2 answers and whatever ids are asked about: the
    records can be built from the resolved list without failure. *)
Theorem resolved_descriptions_are_complete
    (env : Env) (ids : list string) (w : World) resolved unresolved w' t :
  _get_instances_info env ids w = (Ok (resolved, unresolved), w', t) ->
  Forall (fun info => complete info = true) resolved /\
  forall w2,
    list_comprehension EC2Instance.from_describe_instance_data resolved w2
    = (Ok (map instance_record resolved), w2, []).
Proof.
  intros E.
  assert (Forall (fun info => complete info = true) resolved) as H.
  { exact (get_instances_info_returns env ids _ _ _ _ E). }
  split; [exact H|]. intros w2. by apply parse_all_run.
Qed.

Lemma resolved_descriptions_are_complete_witness :
  exists resolved unresolved w' t,
    _get_instances_info env_resolving_in_two_attempts ["i-1"; "i-2"] initial_world
    = (Ok (resolved, unresolved), w', t) /\
    Forall (fun info => complete info = true) resolved /\
    length resolved = 2%nat.
Proof.
  eexists _, _, _, _. split; [vm_compute; reflexivity|]. split; [|reflexivity].
  eapply (resolved_descriptions_are_complete env_resolving_in_two_attempts ["i-1"; "i-2"]
            initial_world).
  vm_compute. reflexivity.
Defined.
End CreateFleetLaunchMore.

Section CreateFleetLaunchSteps.
Import Ec2CreateFleetManager.

Lemma flatten_run (instances : list fleet_instance) : forall acc w,
  for_each instances
    (fun instance_ids instance =>
       ids ← lookup_key "InstanceIds" (InstanceIds instance);
       ret (instance_ids ++ ids))
    acc w
  = match flatten_instance_ids instances with
    | Some ids => (Ok (acc ++ ids), w, [])
    | None => (Raised (KeyError "InstanceIds"), w, [])
    end.
Proof.
  induction instances as [|instance rest IH]; intros acc w;
    cbn [for_each flatten_instance_ids].
  - by rewrite app_nil_r.
  - destruct (InstanceIds instance) as [ids|]; [|reflexivity].
    erewrite bind_pure by reflexivity. rewrite IH.
    destruct (flatten_instance_ids rest); [by rewrite app_assoc|done].
Qed.

(** The launch step of strategy B, once the fleet request has succeeded. *)
Lemma create_fleet_launch_run env self launch_params w response w1 t1 :
  create_fleet env (_region self) (_boto3_config self) launch_params w
  = (Ok response, w1, t1) ->
  _launch_instances env self launch_params w
  = match flatten_instance_ids (default [] (fleet_Instances response)) with
    | None =>
        (Raised (KeyError "InstanceIds"), w1,
         t1 ++ Log DEBUG (MsgCreateFleetResponse response) :: fleet_error_logs response)
    | Some ids =>
        match _get_instances_info env ids w1 with
        | (Ok (resolved, unresolved), w2, t2) =>
            (Ok {| nodes_Instances := Some resolved |}, w2,
             t1 ++ Log DEBUG (MsgCreateFleetResponse response) :: fleet_error_logs response
             ++ t2
             ++ (if nonempty unresolved
                 then [Log ERROR (MsgUnableToRetrieveInstanceInfoFor unresolved)]
                 else []))
        | (Raised e, w2, t2) =>
            (Raised e, w2,
             t1 ++ Log DEBUG (MsgCreateFleetResponse response) :: fleet_error_logs response
             ++ t2)
        end
    end.
Proof.
  intros Hcall. unfold _launch_instances, try_except.
  rewrite (bind_ok _ _ _ _ _ _ Hcall).
  erewrite bind_ok; [|reflexivity].
  erewrite bind_ok; [|apply log_errors_run].
  destruct (flatten_instance_ids (default [] (fleet_Instances response))) as [ids|] eqn:Hf.
  - erewrite bind_pure; [|rewrite flatten_run, Hf; reflexivity].
    destruct (_get_instances_info env ids w1) as [[[[resolved unresolved]|e] w2] t2] eqn:Eg.
    + rewrite (bind_ok _ _ _ _ _ _ Eg).
      destruct (nonempty unresolved); unfold prepend, fleet_error_logs; run; cbn [fst snd app]; by rewrite ?app_nil_r, <- ?app_assoc.
    + rewrite (bind_raised _ _ _ _ _ _ Eg).
      apply get_instances_info_raised in Eg as ->.
      unfold prepend, fleet_error_logs; run; cbn [fst snd app]; by rewrite ?app_nil_r, <- ?app_assoc.
  - erewrite bind_raised; [|rewrite flatten_run, Hf; reflexivity].
    unfold prepend, fleet_error_logs; run; cbn [fst snd app]; by rewrite ?app_nil_r, <- ?app_assoc.
Qed.

Lemma fleet_error_logs_filter response :
  List.filter is_fleet_error_log (fleet_error_logs response) = fleet_error_logs response.
Proof.
  unfold fleet_error_logs. induction (default [] (fleet_Errors response)) as [|err errors IH];
    [reflexivity|]. cbn [map List.filter is_fleet_error_log]. by rewrite IH.
Qed.

Lemma call_event_no_fleet_error e :
  is_call_event e = true -> is_fleet_error_log e = false.
Proof. destruct e as [| | | |lvl msg| |]; try done. by destruct lvl, msg. Qed.

Lemma reconciliation_event_no_fleet_error e :
  is_reconciliation_event e = true -> is_fleet_error_log e = false.
Proof. destruct e as [| | | |lvl msg| |]; try done. by destruct lvl, msg. Qed.

(** X13. After a fleet request that succeeded, the launch step of strategy B
    logs each error entry of the response once and in order, at WARNING when
    the response holds at least one instance entry and at ERROR when it
    holds none, whatever happens afterwards; the response is always logged
    at DEBUG right after the request. *)
Theorem fleet_errors_are_logged_once
    (env : Env) (self : FleetManager) (launch_params : dict) (w : World)
    response w1 t1 outcome w' t :
  create_fleet env (_region self) (_boto3_config self) launch_params w
  = (Ok response, w1, t1) ->
  _launch_instances env self launch_params w = (outcome, w', t) ->
  let lvl := if nonempty (default [] (fleet_Instances response)) then WARNING else ERROR in
  List.filter is_fleet_error_log t
  = map (fun err => Log lvl (MsgErrorInCreateFleetRequest
                               (default None (fleet_ResponseMetadata response))
                               (ErrorCode err) (ErrorMessage err)))
        (default [] (fleet_Errors response)) /\
  exists rest,
    t = t1 ++ Log DEBUG (MsgCreateFleetResponse response) :: fleet_error_logs response ++ rest.
Proof.
  intros Hcall Hrun lvl.
  destruct (create_fleet_inv _ _ _ _ _ _ _ _ Hcall) as [-> Ht1].
  rewrite (create_fleet_launch_run _ _ _ _ _ _ _ Hcall) in Hrun.
  assert (exists rest,
             t = t1 ++ Log DEBUG (MsgCreateFleetResponse response)
                 :: fleet_error_logs response ++ rest /\
             List.filter is_fleet_error_log rest = []) as (rest & -> & Hrest).
  { destruct (flatten_instance_ids _) as [ids|].
    - destruct (_get_instances_info env ids w) as [[[[resolved unresolved]|e] w2] t2] eqn:Eg;
        injection Hrun as _ _ <-; eexists; (split; [reflexivity|]);
        apply get_instances_info_traces in Eg.
      + rewrite List.filter_app, (filter_none is_fleet_error_log t2).
        * by destruct (nonempty unresolved).
        * eapply Forall_impl; [exact Eg|]. apply reconciliation_event_no_fleet_error.
      + apply filter_none. eapply Forall_impl; [exact Eg|].
        apply reconciliation_event_no_fleet_error.
    - injection Hrun as _ _ <-. exists []. by rewrite app_nil_r. }
  split; [|by eauto].
  rewrite List.filter_app, (filter_none is_fleet_error_log t1).
  - cbn [List.filter is_fleet_error_log app].
    by rewrite List.filter_app, fleet_error_logs_filter, Hrest, app_nil_r.
  - eapply Forall_impl; [exact Ht1|]. apply call_event_no_fleet_error.
Qed.

Lemma fleet_errors_are_logged_once_witness :
  exists outcome w' t,
    _launch_instances env_insufficient_capacity
      (example_manager Ec2CreateFleetManager "on-demand" false) [] initial_world
    = (outcome, w', t) /\
    List.filter is_fleet_error_log t
    = [Log ERROR (MsgErrorInCreateFleetRequest (Some "req-2")
                    (Some "InsufficientInstanceCapacity") (Some "Insufficient capacity."))].
Proof.
  eexists _, _, _. split; [vm_compute; reflexivity|].
  edestruct (fleet_errors_are_logged_once env_insufficient_capacity
               (example_manager Ec2CreateFleetManager "on-demand" false) [] initial_world)
    as [H _].
  - vm_compute. reflexivity.
  - vm_compute. reflexivity.
  - exact H.
Defined.

(** X16. A fleet response one of whose instance entries has no [InstanceIds]
    makes the launch step of strategy B raise [KeyError] before any
    reconciliation: the response and its error entries are logged, nothing
    is slept and nothing is queried, and the instances the other entries
    name are not described. *)
Theorem missing_instance_ids_raise_key_error
    (env : Env) (self : FleetManager) (launch_params : dict) (w : World)
    response w1 t1 :
  create_fleet env (_region self) (_boto3_config self) launch_params w
  = (Ok response, w1, t1) ->
  flatten_instance_ids (default [] (fleet_Instances response)) = None ->
  let t := t1 ++ Log DEBUG (MsgCreateFleetResponse response) :: fleet_error_logs response in
  _launch_instances env self launch_params w = (Raised (KeyError "InstanceIds"), w, t) /\
  List.filter is_sleep t = [] /\
  List.filter is_describe t = [] /\
  (exists instance, In instance (default [] (fleet_Instances response)) /\
                    InstanceIds instance = None).
Proof.
  intros Hcall Hnone t.
  destruct (create_fleet_inv _ _ _ _ _ _ _ _ Hcall) as [-> Ht1].
  rewrite (create_fleet_launch_run _ _ _ _ _ _ _ Hcall), Hnone.
  assert (forall P : event -> bool,
             (forall e, is_log e = true -> P e = false) ->
             (forall e, is_call_event e = true -> P e = false) ->
             List.filter P t = []) as Hfilter.
  { intros P Hlog Hfleet. unfold t.
    rewrite List.filter_app, (filter_none P t1)
      by (eapply Forall_impl; [exact Ht1|]; exact Hfleet).
    cbn [app List.filter]. rewrite Hlog by done.
    apply filter_none. unfold fleet_error_logs. apply List.Forall_forall.
    intros e He. apply in_map_iff in He as (err & <- & _). by apply Hlog. }
  split; [reflexivity|]. split; [|split].
  - apply Hfilter; [by intros []|]. intros e He. by apply call_event_no_reconciliation.
  - apply Hfilter; [by intros []|]. intros [| | | |lvl msg| |]; done.
  - clear -Hnone. induction (default [] (fleet_Instances response)) as [|instance rest IH];
      [discriminate|].
    cbn [flatten_instance_ids] in Hnone.
    destruct (InstanceIds instance) eqn:Hi.
    + destruct (flatten_instance_ids rest); [discriminate|].
      destruct (IH eq_refl) as (x & Hx & Hxi). exists x. split; [by right|done].
    + exists instance. split; [by left|done].
Qed.
End CreateFleetLaunchSteps.

Section CreateFleetLaunchOutcomes.
Import Ec2CreateFleetManager.

Lemma missing_instance_ids_raise_key_error_witness :
  let response :=
    {| fleet_Instances := Some [ {| InstanceIds := Some ["i-1"] |};
                                 {| InstanceIds := None |} ];
       fleet_Errors := None; fleet_ResponseMetadata := None |} in
  exists t,
    _launch_instances (example_env (fun _ _ => {| yielded := []; fault := None |})
                                   (inr response))
      (example_manager Ec2CreateFleetManager "on-demand" false) [] initial_world
    = (Raised (KeyError "InstanceIds"), initial_world, t) /\
    List.filter is_sleep t = [] /\ List.filter is_describe t = [].
Proof.
  intros response.
  edestruct (missing_instance_ids_raise_key_error
               (example_env (fun _ _ => {| yielded := []; fault := None |}) (inr response))
               (example_manager Ec2CreateFleetManager "on-demand" false) [] initial_world)
    as (Hrun & Hsleep & Hdescribe & _).
  - vm_compute. reflexivity.
  - reflexivity.
  - eexists. split; [exact Hrun|]. split; [exact Hsleep|exact Hdescribe].
Defined.

Lemma loop_never_resolves env ids : forall fuel n instances q w,
  never_resolves env ids -> ids <> [] -> same_ids q ids ->
  exists p w' t,
    get_instances_info_loop env fuel n instances q w = (Ok (instances, p), w', t) /\
    same_ids p ids.
Proof.
  induction fuel as [|fuel IH]; intros n instances q w Hnever Hne Hq.
  - exists q, w, []. by split.
  - destruct (Nat.le_gt_cases retries n) as [Hge|Hlt].
    { rewrite loop_exit by (by left). exists q, w, []. by split. }
    destruct (loop_step_never_resolves env ids fuel n instances q w Hnever Hne Hq Hlt)
      as (p & logs & Hp & _ & ->).
    destruct (IH (S n) instances p (after_backoff (S n) (describe_called w)) Hnever Hne Hp)
      as (p' & w' & t & -> & Hp').
    unfold prepend. cbn [fst snd]. eauto 6.
Qed.

Lemma get_instances_info_never_resolves env ids w :
  never_resolves env ids -> ids <> [] ->
  exists p w' t,
    _get_instances_info env ids w = (Ok ([], p), w', t) /\ same_ids p ids.
Proof.
  intros Hnever Hne. unfold _get_instances_info.
  destruct (loop_never_resolves env ids (S retries) 0 [] ids w Hnever Hne) as
    (p & w' & t & E & Hp); [done|].
  erewrite bind_ok by reflexivity. rewrite E. unfold prepend. cbn [fst snd]. eauto 6.
Qed.

Lemma filter_disjoint (P Q : event -> bool) (t : list event) :
  Forall (fun e => P e = true) t -> (forall e, P e = true -> Q e = false) ->
  List.filter Q t = [].
Proof. intros Ht HPQ. apply filter_none. eapply Forall_impl; [exact Ht|]. exact HPQ. Qed.

Lemma fleet_error_logs_are_fleet_errors response :
  Forall (fun e => is_fleet_error_log e = true) (fleet_error_logs response).
Proof.
  apply List.Forall_forall. intros e He. unfold fleet_error_logs in He.
  by apply in_map_iff in He as (err & <- & _).
Qed.

Lemma filter_events_are_filter_events job_id :
  Forall (fun e => is_filter_event e = true) (filter_enter job_id) /\
  Forall (fun e => is_filter_event e = true) (filter_exit job_id).
Proof.
  destruct job_id as [job|]; [|by split]. cbn. destruct (negb _); by repeat constructor.
Qed.

(** X14. When strategy B launches instances that EC2 never describes in
    full, the launch does not fail: it returns no record at all and logs no
    summary of launched instances.  The launched ids are named by exactly
    one record of unresolved ids, at ERROR, which is the last event before
    the logging filter is left and follows the events of the
    reconciliation; the ids it names are the launched ids. *)
Theorem unresolved_instances_are_dropped
    (env : Env) (self : FleetManager) (count : Z) (job_id : option string) (w : World)
    launch_params w1 t1 response w2 t2 ids :
  class self = Ec2CreateFleetManager ->
  _evaluate_launch_params self count w = (Ok launch_params, w1, t1) ->
  create_fleet env (_region self) (_boto3_config self) launch_params w1
  = (Ok response, w2, t2) ->
  flatten_instance_ids (default [] (fleet_Instances response)) = Some ids ->
  ids <> [] ->
  never_resolves env ids ->
  exists unresolved w' reconciliation,
    let trace :=
      filter_enter job_id ++ t1 ++ t2
      ++ Log DEBUG (MsgCreateFleetResponse response) :: fleet_error_logs response
      ++ reconciliation
      ++ [Log ERROR (MsgUnableToRetrieveInstanceInfoFor unresolved)]
      ++ filter_exit job_id in
    FleetManager.launch_ec2_instances env self count job_id w = (Ok [], w', trace) /\
    same_ids unresolved ids /\
    Forall (fun e => is_reconciliation_event e = true) reconciliation /\
    List.filter is_unresolved_log trace
    = [Log ERROR (MsgUnableToRetrieveInstanceInfoFor unresolved)] /\
    List.filter is_launched_summary trace = [].
Proof.
  intros Hclass Hshape Hcall Hflat Hne Hnever.
  destruct (get_instances_info_never_resolves env ids w2 Hnever Hne)
    as (p & w' & t & Eg & Hp).
  pose proof (create_fleet_launch_run _ _ _ _ _ _ _ Hcall) as Hlaunch.
  rewrite Hflat, Eg in Hlaunch.
  assert (nonempty p = true) as Hnonempty.
  { pose proof (same_ids_nonempty p ids Hp Hne). by destruct p. }
  rewrite Hnonempty in Hlaunch.
  assert (FleetManager._evaluate_launch_params self count w = (Ok launch_params, w1, t1))
    as H1 by (unfold FleetManager._evaluate_launch_params; by rewrite Hclass).
  assert (FleetManager._launch_instances env self launch_params w1
          = (Ok {| nodes_Instances := Some [] |}, w',
             t2 ++ Log DEBUG (MsgCreateFleetResponse response)
             :: fleet_error_logs response
             ++ t ++ [Log ERROR (MsgUnableToRetrieveInstanceInfoFor p)]))
    as H2 by (unfold FleetManager._launch_instances; by rewrite Hclass).
  pose proof (proj2 (evaluate_launch_params_emits self count _ _ _ _ Hshape)) as Ht1.
  pose proof (proj2 (create_fleet_inv _ _ _ _ _ _ _ _ Hcall)) as Ht2.
  pose proof (get_instances_info_traces env ids _ _ _ _ Eg) as Ht.
  destruct (filter_events_are_filter_events job_id) as [Henter Hexit].
  exists p, w', t. intros trace. split; [|split; [exact Hp|split; [exact Ht|]]].
  - rewrite (launch_run _ _ _ job_id _ _ _ _ _ _ _ [] H1 H2 eq_refl).
    unfold prepend, trace. cbn [list_comprehension launched_summary fst snd app].
    apply (f_equal2 pair); [reflexivity|].
    change ((ret ([] : list EC2Instance.t) w').2) with (@nil event).
    rewrite app_nil_r, <- !app_assoc, <- app_comm_cons. by rewrite <- !app_assoc.
  - assert (forall Q : event -> bool,
               (forall e, is_filter_event e = true -> Q e = false) ->
               (forall e, is_shaping_log e = true -> Q e = false) ->
               (forall e, is_call_event e = true -> Q e = false) ->
               (forall e, is_fleet_error_log e = true -> Q e = false) ->
               (forall e, is_reconciliation_event e = true -> Q e = false) ->
               Q (Log DEBUG (MsgCreateFleetResponse response)) = false ->
               List.filter Q trace
               = List.filter Q [Log ERROR (MsgUnableToRetrieveInstanceInfoFor p)])
      as Hfilter.
    { intros Q Q1 Q2 Q3 Q4 Q5 Q6. unfold trace.
      rewrite !List.filter_app. cbn [List.filter]. rewrite Q6, !List.filter_app.
      rewrite (filter_disjoint _ Q _ Henter Q1), (filter_disjoint _ Q _ Hexit Q1),
        (filter_disjoint _ Q _ Ht1 Q2), (filter_disjoint _ Q _ Ht2 Q3),
        (filter_disjoint _ Q _ (fleet_error_logs_are_fleet_errors response) Q4),
        (filter_disjoint _ Q _ Ht Q5).
      cbn [app List.filter]. by rewrite app_nil_r. }
    split; (rewrite Hfilter; [reflexivity|..|reflexivity]);
      intros [| | | |lvl msg| |]; try done; by destruct lvl, msg.
Qed.

Lemma never_resolves_pending ids :
  never_resolves env_fleet_never_described ids.
Proof.
  intros k q Hq. cbn. split.
  - apply List.Forall_forall. intros info Hin.
    apply in_map_iff in Hin as (i & <- & Hi). split; [reflexivity|]. eauto.
  - intros _ i Hi. rewrite map_map. cbn. apply in_map_iff. eauto.
Qed.

Lemma unresolved_instances_are_dropped_witness :
  exists unresolved w' trace,
    FleetManager.launch_ec2_instances env_fleet_never_described
      (example_manager Ec2CreateFleetManager "on-demand" false) 2 None initial_world
    = (Ok [], w', trace) /\
    same_ids unresolved ["i-1"; "i-2"] /\
    List.filter is_unresolved_log trace
    = [Log ERROR (MsgUnableToRetrieveInstanceInfoFor unresolved)] /\
    List.filter is_launched_summary trace = [].
Proof.
  edestruct (unresolved_instances_are_dropped env_fleet_never_described
               (example_manager Ec2CreateFleetManager "on-demand" false) 2 None
               initial_world)
    as (unresolved & w' & reconciliation & Hrun & Hsame & _ & Hone & Hnone).
  - reflexivity.
  - vm_compute. reflexivity.
  - vm_compute. reflexivity.
  - reflexivity.
  - discriminate.
  - apply never_resolves_pending.
  - exists unresolved, w'. eexists. split; [exact Hrun|]. split; [exact Hsame|].
    split; [exact Hone|exact Hnone].
Defined.

(** X17. With strategy B a launch cannot fail once the launch step has
    returned: what the launch step returns always holds a list of complete
    descriptions, so the launch returns one record per resolved
    description, in order, and raises nothing after the logging filter is
    left. *)
Theorem create_fleet_launch_never_fails_late
    (env : Env) (self : FleetManager) (count : Z) (job_id : option string) (w : World)
    launch_params w1 t1 nodes w2 t2 :
  class self = Ec2CreateFleetManager ->
  FleetManager._evaluate_launch_params self count w = (Ok launch_params, w1, t1) ->
  FleetManager._launch_instances env self launch_params w1 = (Ok nodes, w2, t2) ->
  exists resolved,
    nodes_Instances nodes = Some resolved /\
    Forall (fun info => complete info = true) resolved /\
    FleetManager.launch_ec2_instances env self count job_id w
    = (Ok (map instance_record resolved), w2,
       filter_enter job_id ++ t1 ++ t2 ++ launched_summary resolved ++ filter_exit job_id).
Proof.
  intros Hclass Hshape Hlaunch.
  assert (exists resolved,
             nodes_Instances nodes = Some resolved /\
             Forall (fun info => complete info = true) resolved) as (resolved & Hn & Hc).
  { revert Hlaunch. unfold FleetManager._launch_instances. rewrite Hclass.
    destruct (create_fleet env (_region self) (_boto3_config self) launch_params w1)
      as [[[response|e] w3] t3] eqn:Hcall.
    - rewrite (create_fleet_launch_run _ _ _ _ _ _ _ Hcall).
      destruct (flatten_instance_ids _) as [ids|]; [|discriminate].
      destruct (_get_instances_info env ids w3) as [[[[resolved unresolved]|e] w4] t4] eqn:Eg;
        [|discriminate].
      intros [= <- _ _]. exists resolved. split; [reflexivity|].
      exact (get_instances_info_returns env ids _ _ _ _ Eg).
    - unfold _launch_instances, try_except. rewrite (bind_raised _ _ _ _ _ _ Hcall).
      destruct e; run; discriminate. }
  exists resolved. split; [exact Hn|]. split; [exact Hc|].
  erewrite launch_run by done. rewrite parse_all_run by done.
  unfold prepend. cbn [fst snd]. by rewrite <- !app_assoc, !app_nil_r.
Qed.

Lemma create_fleet_launch_never_fails_late_witness :
  exists trace,
    FleetManager.launch_ec2_instances env_fleet_of_two
      (example_manager Ec2CreateFleetManager "on-demand" false) 2 None initial_world
    = (Ok [instance_record (described "i-1"); instance_record (described "i-2")],
       {| describe_calls := 1; random_draws := 1 |}, trace).
Proof.
  edestruct (create_fleet_launch_never_fails_late env_fleet_of_two
               (example_manager Ec2CreateFleetManager "on-demand" false) 2 None
               initial_world)
    as (resolved & Hn & _ & Hrun).
  - reflexivity.
  - vm_compute. reflexivity.
  - vm_compute. reflexivity.
  - injection Hn as <-. eexists. exact Hrun.
Defined.
End CreateFleetLaunchOutcomes.

Section LaunchCalls.
Import FleetManager.

Lemma no_call_filter (t : list event) (P : event -> bool) :
  Forall (fun e => P e = true) t -> (forall e, P e = true -> is_launch_call e = false) ->
  List.filter is_launch_call t = [].
Proof. intros Ht HP. apply filter_none. eapply Forall_impl; [exact Ht|]. exact HP. Qed.

Lemma log_no_call e : is_log e = true -> is_launch_call e = false.
Proof. by destruct e. Qed.

Lemma reconciliation_event_no_call e :
  is_reconciliation_event e = true -> is_launch_call e = false.
Proof. by destruct e. Qed.

Lemma fleet_error_logs_no_call response :
  List.filter is_launch_call (fleet_error_logs response) = [].
Proof.
  apply filter_none, List.Forall_forall. intros e He.
  unfold fleet_error_logs in He. by apply in_map_iff in He as (err & <- & _).
Qed.

Lemma evaluate_launch_params_logs self count :
  traces is_log (_evaluate_launch_params self count).
Proof.
  unfold _evaluate_launch_params. destruct (class self).
  - unfold Ec2RunInstancesManager._evaluate_launch_params. repeat traces_step.
  - eapply traces_impl; [|apply traces_of_emits, evaluate_launch_params_emits].
    intros [ | | | | [] [] | | ]; done.
Qed.

(** The calls of one launch step, by what the override does. *)
Lemma run_instances_calls env region boto3_config kwargs w r w' t :
  run_instances env region boto3_config kwargs w = (r, w', t) ->
  List.filter is_launch_call t
  = match overrides_run_instances env with
    | Some override =>
        RunInstances true kwargs
        :: match override kwargs with
           | inl ImportError => [RunInstances false kwargs]
           | _ => []
           end
    | None => [RunInstances false kwargs]
    end.
Proof.
  unfold run_instances. destruct (overrides_run_instances env) as [override|]; run.
  - destruct (override kwargs) as [e|nodes]; [destruct e|];
      try destruct (ec2_run_instances env kwargs); by intros [= <- <- <-].
  - destruct (ec2_run_instances env kwargs); by intros [= <- <- <-].
Qed.

Lemma create_fleet_calls env region boto3_config kwargs w r w' t :
  create_fleet env region boto3_config kwargs w = (r, w', t) ->
  List.filter is_launch_call t
  = match overrides_create_fleet env with
    | Some override =>
        CreateFleet true kwargs
        :: match override kwargs with
           | inl ImportError => [CreateFleet false kwargs]
           | _ => []
           end
    | None => [CreateFleet false kwargs]
    end.
Proof.
  unfold create_fleet. destruct (overrides_create_fleet env) as [override|]; run.
  - destruct (override kwargs) as [e|response]; [destruct e|];
      try destruct (ec2_create_fleet env kwargs); by intros [= <- <- <-].
  - destruct (ec2_create_fleet env kwargs); by intros [= <- <- <-].
Qed.

(** The launch step makes no call but those of its launch function. *)
Lemma launch_instances_calls env self launch_params w r w' t :
  _launch_instances env self launch_params w = (r, w', t) ->
  List.filter is_launch_call t
  = match override_raises_import_error env self launch_params with
    | Some fallback =>
        api_call self true launch_params
        :: (if fallback then [api_call self false launch_params] else [])
    | None => [api_call self false launch_params]
    end.
Proof.
  unfold _launch_instances, override_raises_import_error, api_call. destruct (class self).
  - unfold Ec2RunInstancesManager._launch_instances, try_except.
    destruct (run_instances env (_region self) (_boto3_config self) launch_params w)
      as [[r1 w1] t1] eqn:Hcall.
    apply run_instances_calls in Hcall. intros Hrun.
    assert (List.filter is_launch_call t = List.filter is_launch_call t1) as ->.
    { revert Hrun. destruct r1 as [nodes|e]; [by intros [= <- <- <-]|].
      destruct e as [| | |response| |]; try (by intros [= <- <- <-]; rewrite app_nil_r).
      destruct (ResponseMetadata response); intros [= <- <- <-];
        by rewrite List.filter_app, app_nil_r. }
    rewrite Hcall. destruct (overrides_run_instances env) as [override|]; [|done].
    cbn. by destruct (override launch_params) as [[]|].
  - destruct (create_fleet env (_region self) (_boto3_config self) launch_params w)
      as [[r1 w1] t1] eqn:Hcall.
    pose proof (create_fleet_calls _ _ _ _ _ _ _ _ Hcall) as Hcalls. intros Hrun.
    assert (List.filter is_launch_call t = List.filter is_launch_call t1) as ->.
    { revert Hrun. destruct r1 as [response|e].
      - rewrite (create_fleet_launch_run _ _ _ _ _ _ _ Hcall).
        destruct (flatten_instance_ids _) as [ids|].
        + destruct (Ec2CreateFleetManager._get_instances_info env ids w1)
            as [[[[resolved unresolved]|e] w2] t2] eqn:Eg;
            intros [= <- <- <-]; apply get_instances_info_traces in Eg;
            rewrite List.filter_app; cbn [List.filter is_launch_call];
            rewrite !List.filter_app, fleet_error_logs_no_call,
              (no_call_filter t2 is_reconciliation_event Eg reconciliation_event_no_call);
            [by destruct (nonempty unresolved); rewrite app_nil_r
            |by rewrite app_nil_r].
        + intros [= <- <- <-]. rewrite List.filter_app. cbn [List.filter is_launch_call].
          by rewrite fleet_error_logs_no_call, app_nil_r.
      - unfold Ec2CreateFleetManager._launch_instances, try_except.
        rewrite (bind_raised _ _ _ _ _ _ Hcall).
        destruct e; intros [= <- <- <-]; by rewrite ?List.filter_app, app_nil_r. }
    rewrite Hcalls. destruct (overrides_create_fleet env) as [override|]; [|done].
    cbn. by destruct (override launch_params) as [[]|].
Qed.

Lemma launch_step_raised env self count job_id w launch_params w1 t1 e w2 t2 :
  _evaluate_launch_params self count w = (Ok launch_params, w1, t1) ->
  _launch_instances env self launch_params w1 = (Raised e, w2, t2) ->
  launch_ec2_instances env self count job_id w
  = (Raised e, w2, filter_enter job_id ++ t1 ++ t2 ++ filter_exit job_id).
Proof.
  intros H1 H2. unfold launch_ec2_instances.
  match goal with
  | |- (with_job_id_filter _ ?body ≫= _) _ = _ =>
      assert (body w = (Raised e, w2, t1 ++ t2)) as Hbody
  end.
  { erewrite bind_ok by exact H1. erewrite bind_raised by exact H2. reflexivity. }
  erewrite bind_raised; [|rewrite with_job_id_filter_run, Hbody; reflexivity].
  cbn [fst snd]. by rewrite <- !app_assoc.
Qed.

Lemma shaping_raised env self count job_id w e w1 t1 :
  _evaluate_launch_params self count w = (Raised e, w1, t1) ->
  launch_ec2_instances env self count job_id w
  = (Raised e, w1, filter_enter job_id ++ t1 ++ filter_exit job_id).
Proof.
  intros H1. unfold launch_ec2_instances.
  match goal with
  | |- (with_job_id_filter _ ?body ≫= _) _ = _ =>
      assert (body w = (Raised e, w1, t1)) as Hbody
  end.
  { erewrite bind_raised by exact H1. reflexivity. }
  erewrite bind_raised; [|rewrite with_job_id_filter_run, Hbody; reflexivity].
  reflexivity.
Qed.

Lemma filter_events_no_call job_id :
  List.filter is_launch_call (filter_enter job_id) = [] /\
  List.filter is_launch_call (filter_exit job_id) = [].
Proof. destruct job_id as [job|]; [|done]. cbn. by destruct (negb _). Qed.

Lemma launched_summary_no_call items :
  List.filter is_launch_call (launched_summary items) = [].
Proof. by destruct items. Qed.

(** X18. A launch whose shaping succeeded calls the launch API of its
    strategy with the parameters shaping returned, and with nothing else:
    when [slurm_plugin.overrides] provides no function, the EC2 client is
    called once; when it provides one, the override is called once, and
    the EC2 client is called after it, with the same parameters, exactly
    when the override raised [ImportError] (the [except ImportError] clause
    encloses the call of the override).  Whatever the calls and what
    follows them give, there are no other launch calls: one or two in all.
    When shaping fails the error is raised with the logging filter left and
    no launch call is made. *)
Theorem launch_calls_the_api
    (env : Env) (self : FleetManager) (count : Z) (job_id : option string) (w : World) :
  (forall launch_params w1 t1 r w' t,
      _evaluate_launch_params self count w = (Ok launch_params, w1, t1) ->
      launch_ec2_instances env self count job_id w = (r, w', t) ->
      let calls := List.filter is_launch_call t in
      calls
      = match override_raises_import_error env self launch_params with
        | None => [api_call self false launch_params]
        | Some false => [api_call self true launch_params]
        | Some true => [api_call self true launch_params; api_call self false launch_params]
        end /\
      (1 <= length calls <= 2)%nat /\
      (length calls = 2%nat <->
       override_raises_import_error env self launch_params = Some true)) /\
  (forall e w1 t1,
      _evaluate_launch_params self count w = (Raised e, w1, t1) ->
      launch_ec2_instances env self count job_id w
      = (Raised e, w1, filter_enter job_id ++ t1 ++ filter_exit job_id) /\
      List.filter is_launch_call (filter_enter job_id ++ t1 ++ filter_exit job_id) = []).
Proof.
  destruct (filter_events_no_call job_id) as [Henter Hexit]. split.
  - intros launch_params w1 t1 r w' t H1 Hrun calls.
    assert (calls
            = match override_raises_import_error env self launch_params with
              | None => [api_call self false launch_params]
              | Some false => [api_call self true launch_params]
              | Some true =>
                  [api_call self true launch_params; api_call self false launch_params]
              end) as Hcalls.
    { unfold calls.
      pose proof (no_call_filter t1 is_log (evaluate_launch_params_logs _ _ _ _ _ _ H1)
                    log_no_call) as Ht1.
      destruct (_launch_instances env self launch_params w1) as [[[nodes|e] w2] t2] eqn:H2;
        pose proof (launch_instances_calls _ _ _ _ _ _ _ H2) as Ht2.
      - destruct (nodes_Instances nodes) as [items|] eqn:Hitems.
        + rewrite (launch_run _ _ _ job_id _ _ _ _ _ _ _ _ H1 H2 Hitems) in Hrun.
          destruct (list_comprehension EC2Instance.from_describe_instance_data items w2)
            as [[r3 w3] t3] eqn:H3.
          injection Hrun as _ _ <-. cbn [fst snd].
          assert (List.filter is_launch_call t3 = []) as Ht3.
          { apply (no_call_filter t3 is_log); [|apply log_no_call].
            revert H3. apply traces_list_comprehension. intros ?.
            by apply from_describe_traces. }
          rewrite !List.filter_app, Henter, Hexit, Ht1, Ht2, Ht3, launched_summary_no_call.
          rewrite !app_nil_r. cbn [app].
          by destruct (override_raises_import_error _ _ _) as [[]|].
        + rewrite (launch_without_instances _ _ _ job_id _ _ _ _ _ _ _ H1 H2 Hitems) in Hrun.
          injection Hrun as _ _ <-.
          rewrite !List.filter_app, Henter, Hexit, Ht1, Ht2, !app_nil_r. cbn [app].
          by destruct (override_raises_import_error _ _ _) as [[]|].
      - rewrite (launch_step_raised _ _ _ job_id _ _ _ _ _ _ _ H1 H2) in Hrun.
        injection Hrun as _ _ <-.
        rewrite !List.filter_app, Henter, Hexit, Ht1, Ht2, !app_nil_r. cbn [app].
        by destruct (override_raises_import_error _ _ _) as [[]|]. }
    split; [exact Hcalls|]. rewrite Hcalls.
    destruct (override_raises_import_error env self launch_params) as [[]|];
      cbn [length]; split; try lia; split; (done || lia).
  - intros e w1 t1 H1. split; [by apply shaping_raised|].
    rewrite !List.filter_app, Henter, Hexit.
    by rewrite (no_call_filter t1 is_log (evaluate_launch_params_logs _ _ _ _ _ _ H1)
                  log_no_call).
Qed.

Lemma launch_calls_the_api_witness :
  (exists launch_params r w' t,
      launch_ec2_instances env_fleet_never_described
        (example_manager Ec2CreateFleetManager "on-demand" false) 2 None initial_world
      = (r, w', t) /\
      List.filter is_launch_call t = [CreateFleet false launch_params]) /\
  (exists launch_params r w' t,
      launch_ec2_instances (env_run_instances_override (inl ImportError))
        (example_manager Ec2RunInstancesManager "on-demand" false) 1 None initial_world
      = (r, w', t) /\
      List.filter is_launch_call t
      = [RunInstances true launch_params; RunInstances false launch_params]).
Proof.
  split.
  - eexists _, _, _, _. split; [vm_compute; reflexivity|].
    eapply (proj1 (launch_calls_the_api env_fleet_never_described
                     (example_manager Ec2CreateFleetManager "on-demand" false) 2 None
                     initial_world)).
    + vm_compute. reflexivity.
    + vm_compute. reflexivity.
  - eexists _, _, _, _. split; [vm_compute; reflexivity|].
    eapply (proj1 (launch_calls_the_api (env_run_instances_override (inl ImportError))
                     (example_manager Ec2RunInstancesManager "on-demand" false) 1 None
                     initial_world)).
    + vm_compute. reflexivity.
    + vm_compute. reflexivity.
Defined.
End LaunchCalls.
